(** * SnapEyes: the capture screen and the application around it

    A shallow embedding of the capture screen
    (src/components/CaptureScreen.tsx): its auto-capture logic with the
    frame detection service it calls ([findEyeInFrame] in
    services/geminiService), its bounding-box overlay and its camera effect;
    and of the [App] component that renders it and receives the captured
    image.

    The capture screen is a React function component.  Its [useState] cells
    and [useRef] cells become fields of one record, next to the part of the
    browser the code talks to: the clock, the pending [setTimeout] and
    [setInterval] handles, the canvas, the camera stream and the detection
    call that is being awaited.  Every handler is a function on that record;
    the asynchronous [analyzeFrame] is split at its single [await] into the
    part that runs at the tick and the part that runs when the promise
    settles.  After every handler the effects whose dependencies changed are
    run ([commit]), as React does after the re-render.

    The runs of the auto-capture logic keep the camera ready and fixed; what
    a restart of the camera does to it is given by [cameraRestarted],
    [cameraGranted] and [cameraLoaded].  The camera effect itself, which
    obtains and releases the media stream, and [App], which moves between the
    screens, are modelled on records of their own.

    JavaScript numbers are modelled by exact rationals ([Q]) for zoom levels
    and box coordinates, and by integers ([Z]) for milliseconds and pixel
    counts. *)

From Stdlib Require Import ZArith QArith Qround Lqa Lia List Bool.
From Stdlib Require String.
Import String.StringSyntax.
Delimit Scope string_scope with string.
Import ListNotations.
Open Scope Z_scope.

(* ================================================================== *)
(** * Data *)
(* ================================================================== *)

(** [type DetectionStatus = 'idle' | 'tracking' | 'locked'] *)
Inductive DetectionStatus : Type := idle | tracking | locked.

Definition status_eqb (a b : DetectionStatus) : bool :=
  match a, b with
  | idle, idle | tracking, tracking | locked, locked => true
  | _, _ => false
  end.

(** The [box] of an [IrisDetectionResult]. *)
Record Box : Type := { xMin : Q; yMin : Q; xMax : Q; yMax : Q }.

(** [IrisDetectionResult], restricted to the fields the capture screen
    reads ([success] and [box]). *)
Record IrisDetectionResult : Type := { success : bool; box : option Box }.

(** What the remote model call inside [findEyeInFrame] can do: reject, answer
    with text that is not JSON, or answer with a parsed object. *)
Inductive ApiReply : Type :=
| ApiRejects
| ApiBadJson
| ApiJson (eyeFound : bool) (b : option Box).

(** [findEyeInFrame]: the whole body sits in a [try]; the [catch] returns a
    failed result, so the promise it returns never rejects. *)
Definition findEyeInFrame (r : ApiReply) : IrisDetectionResult :=
  match r with
  | ApiJson true (Some b) => {| success := true; box := Some b |}
  | ApiJson _ _ => {| success := false; box := None |}
  | ApiRejects | ApiBadJson => {| success := false; box := None |}
  end.

(** How the [await] inside the [try] of [analyzeFrame] ends.  The detection
    call always resolves: [findEyeInFrame] turns each of its errors into a
    failed result.  [Rejected] stands for the [try] block being left through
    its [catch]; the call itself never ends that way, so it is covered where
    a property is stated for every outcome and is never an input of its
    own. *)
Inductive Awaited : Type :=
| Resolved (r : IrisDetectionResult)
| Rejected.

(** A frame encoded by [canvas.toDataURL('image/jpeg', q)]. *)
Record Jpeg : Type := { jpegWidth : Z; jpegHeight : Z; jpegQuality : Q }.

(** A [MediaStreamTrack]; [ended] is set by [track.stop()]. *)
Record Track : Type := { trackId : nat; ended : bool }.

(** What a callback created by [useCallback] has captured of the render it
    was created in. *)
Record Closure : Type := { cl_enabled : bool; cl_status : DetectionStatus }.

(** A detection call that has been issued and not settled yet. *)
Record Call : Type := { sent : Jpeg; captured : Closure }.

(** The three callbacks the component passes to [window.setTimeout]. *)
Inductive Task : Type :=
| SteadyLock      (* () => setDetectionStatus('locked')             , 500 ms *)
| CountdownOne    (* t1: setCountdown(1); playBeep(440, 100)        , 1000 ms *)
| CountdownFire.  (* t2: setCountdown(null); ...; handleCapture()   , 2000 ms *)

Definition task_eqb (a b : Task) : bool :=
  match a, b with
  | SteadyLock, SteadyLock | CountdownOne, CountdownOne
  | CountdownFire, CountdownFire => true
  | _, _ => false
  end.

(** A pending timeout: its handle, the time it is due, its callback. *)
Record Timer : Type := { handle : nat; due : Z; task : Task }.

(** What the component does to the outside, in the order it does it. *)
Inductive Output : Type :=
| Beep (frequency duration : Z)       (* an oscillator started by playBeep *)
| CaptureTrigger                      (* handleCapture was called *)
| ImageCaptured (image : Jpeg)        (* onImageCaptured(dataUrl) *)
| TrackStopped (id : nat).            (* track.stop() *)

Record State : Type := {
  (* useState *)
  stream : option (list Track);
  cameraReady : bool;
  autoCaptureEnabled : bool;
  detectionStatus : DetectionStatus;
  detectionResult : option IrisDetectionResult;
  zoom : Q;
  countdown : option Z;
  (* useRef *)
  analysisIntervalRef : option nat;
  countdownTimeoutsRef : list nat;
  steadyTimeoutRef : option nat;
  countdownInProgress : bool;
  isAnalyzingRef : bool;
  audioContextRef : bool;            (* an AudioContext has been created *)
  (* the page *)
  video : Z * Z;                     (* video.videoWidth, video.videoHeight *)
  canvas : Z * Z;                    (* canvas.width, canvas.height *)
  context2d : bool;                  (* canvas.getContext('2d') is not null *)
  audioSupported : bool;             (* new AudioContext() does not throw *)
  (* the browser *)
  now : Z;                           (* milliseconds *)
  nextHandle : nat;                  (* next timer id; ids start at 1 *)
  timeouts : list Timer;             (* pending setTimeout callbacks *)
  intervals : list (nat * Closure);  (* live setInterval(analyzeFrame, 750) *)
  inflight : list Call;              (* awaited findEyeInFrame calls *)
  log : list (Z * Output)            (* newest first, with the time *)
}.

Definition etaState : State -> State := fun s =>
  Build_State (stream s) (cameraReady s) (autoCaptureEnabled s)
    (detectionStatus s) (detectionResult s) (zoom s) (countdown s)
    (analysisIntervalRef s) (countdownTimeoutsRef s) (steadyTimeoutRef s)
    (countdownInProgress s) (isAnalyzingRef s) (audioContextRef s)
    (video s) (canvas s) (context2d s) (audioSupported s)
    (now s) (nextHandle s) (timeouts s) (intervals s) (inflight s) (log s).

(** Field update: [mk_setter f] is the function that replaces field [f]. *)
Ltac mk_setter proj :=
  let e := eval cbv delta [etaState] in etaState in
  lazymatch eval pattern proj in e with
  | ?f proj =>
      let r := eval cbv beta in (fun v s => f (fun _ => v) s) in exact r
  end.

Definition set_stream : option (list Track) -> State -> State :=
  ltac:(mk_setter stream).
Definition set_cameraReady : bool -> State -> State :=
  ltac:(mk_setter cameraReady).
Definition set_autoCaptureEnabled : bool -> State -> State :=
  ltac:(mk_setter autoCaptureEnabled).
Definition set_detectionStatus : DetectionStatus -> State -> State :=
  ltac:(mk_setter detectionStatus).
Definition set_detectionResult : option IrisDetectionResult -> State -> State :=
  ltac:(mk_setter detectionResult).
Definition set_zoom : Q -> State -> State := ltac:(mk_setter zoom).
Definition set_countdown : option Z -> State -> State :=
  ltac:(mk_setter countdown).
Definition set_analysisIntervalRef : option nat -> State -> State :=
  ltac:(mk_setter analysisIntervalRef).
Definition set_countdownTimeoutsRef : list nat -> State -> State :=
  ltac:(mk_setter countdownTimeoutsRef).
Definition set_steadyTimeoutRef : option nat -> State -> State :=
  ltac:(mk_setter steadyTimeoutRef).
Definition set_countdownInProgress : bool -> State -> State :=
  ltac:(mk_setter countdownInProgress).
Definition set_isAnalyzingRef : bool -> State -> State :=
  ltac:(mk_setter isAnalyzingRef).
Definition set_audioContextRef : bool -> State -> State :=
  ltac:(mk_setter audioContextRef).
Definition set_canvas : Z * Z -> State -> State := ltac:(mk_setter canvas).
Definition set_now : Z -> State -> State := ltac:(mk_setter now).
Definition set_nextHandle : nat -> State -> State :=
  ltac:(mk_setter nextHandle).
Definition set_timeouts : list Timer -> State -> State :=
  ltac:(mk_setter timeouts).
Definition set_intervals : list (nat * Closure) -> State -> State :=
  ltac:(mk_setter intervals).
Definition set_inflight : list Call -> State -> State :=
  ltac:(mk_setter inflight).
Definition set_log : list (Z * Output) -> State -> State :=
  ltac:(mk_setter log).

(* ================================================================== *)
(** * The browser: timers and outputs *)
(* ================================================================== *)

Definition emit (o : Output) (s : State) : State :=
  set_log ((now s, o) :: log s) s.

(** [window.setTimeout(k, ms)]: a fresh handle, due [ms] from now. *)
Definition setTimeout (k : Task) (ms : Z) (s : State) : nat * State :=
  let h := nextHandle s in
  (h, set_nextHandle (S h)
        (set_timeouts
           (timeouts s ++ [{| handle := h; due := now s + ms; task := k |}]) s)).

(** [clearTimeout(h)]: a handle that is not pending is ignored. *)
Definition clearTimeout (h : nat) (s : State) : State :=
  set_timeouts (filter (fun tm => negb (Nat.eqb (handle tm) h)) (timeouts s)) s.

(** [window.setInterval(analyzeFrame, 750)]: the interval keeps the
    [analyzeFrame] of the render that created it. *)
Definition setInterval (c : Closure) (s : State) : nat * State :=
  let h := nextHandle s in
  (h, set_nextHandle (S h) (set_intervals (intervals s ++ [(h, c)]) s)).

Definition clearInterval (h : nat) (s : State) : State :=
  set_intervals (filter (fun i => negb (Nat.eqb (fst i) h)) (intervals s)) s.

(* ================================================================== *)
(** * The component's callbacks *)
(* ================================================================== *)

(** [stopStream]: [stream.getTracks().forEach(track => track.stop())]. *)
Definition stopStream (s : State) : State :=
  match stream s with
  | Some tracks =>
      let s := fold_left (fun s t => emit (TrackStopped (trackId t)) s) tracks s in
      set_stream
        (Some (map (fun t => {| trackId := trackId t; ended := true |}) tracks)) s
  | None => s
  end.

(** [initAudioContext]: creates the context once; a failure is swallowed. *)
Definition initAudioContext (s : State) : State :=
  if audioContextRef s then s
  else if audioSupported s then set_audioContextRef true s
  else s.

(** [playBeep]: a no-op without an audio context. *)
Definition playBeep (frequency duration : Z) (s : State) : State :=
  if audioContextRef s then emit (Beep frequency duration) s else s.

(** [handleCapture].  [videoRef.current] and [canvasRef.current] are set for
    as long as the component is mounted. *)
Definition handleCapture (s : State) : State :=
  let s := emit CaptureTrigger s in
  let s := initAudioContext s in
  if cameraReady s then
    let s := set_canvas (video s) s in
    if context2d s then
      let dataUrl :=
        {| jpegWidth := fst (canvas s); jpegHeight := snd (canvas s);
           jpegQuality := 95 # 100 |} in
      let s := emit (ImageCaptured dataUrl) s in
      stopStream s
    else s
  else s.

(** [clearCountdownTimeouts]:
    [countdownTimeoutsRef.current.forEach(clearTimeout)], then the list is
    emptied. *)
Definition clearCountdownTimeouts (s : State) : State :=
  set_countdownTimeoutsRef []
    (fold_left (fun s h => clearTimeout h s) (countdownTimeoutsRef s) s).

(** [resetAutoCaptureState]. *)
Definition resetAutoCaptureState (s : State) : State :=
  let s := match analysisIntervalRef s with
           | Some h => clearInterval h s | None => s end in
  let s := match steadyTimeoutRef s with
           | Some h => clearTimeout h s | None => s end in
  let s := clearCountdownTimeouts s in
  let s := set_countdownInProgress false s in
  let s := set_analysisIntervalRef None s in
  let s := set_steadyTimeoutRef None s in
  let s := set_detectionStatus idle s in
  let s := set_detectionResult None s in
  let s := set_countdown None s in
  set_zoom 1%Q s.

(** [handleToggleAutoCapture]. *)
Definition handleToggleAutoCapture (s : State) : State :=
  let s := initAudioContext s in
  let newValue := negb (autoCaptureEnabled s) in
  let s := if negb newValue then resetAutoCaptureState s
           else set_detectionStatus idle s in
  set_autoCaptureEnabled newValue s.

(* ================================================================== *)
(** * analyzeFrame *)
(* ================================================================== *)

Definition Math_max (a b : Q) : Q := if Qle_bool a b then b else a.
Definition Math_min (a b : Q) : Q := if Qle_bool a b then a else b.

(** [const targetBoxWidth = 0.40] *)
Definition targetBoxWidth : Q := 40 # 100.

(** [newZoom = Math.min(Math.max(1, targetBoxWidth / boxWidthNormalized), 4)].
    A zero width makes the JavaScript quotient infinite.  The rationals
    have one zero only, taken here as the positive zero that the difference
    of two equal coordinates is: the quotient is [+Infinity], which
    [Math.min] brings down to 4.  (A negative zero, which takes a coordinate
    read as [-0], would give [-Infinity] and the target 1.) *)
Definition newZoom (b : Box) : Q :=
  let boxWidthNormalized := (xMax b - xMin b)%Q in
  if Qeq_bool boxWidthNormalized 0 then 4%Q
  else Math_min (Math_max 1 (targetBoxWidth / boxWidthNormalized)) 4.

(** [z => z + (target - z) * 0.2] *)
Definition smooth (target z : Q) : Q := (z + (target - z) * (2 # 10))%Q.

(** [canvas.height = (video.videoHeight / video.videoWidth) * 640]: the
    canvas keeps the integer part.  A zero [videoWidth] gives [NaN] or
    [Infinity] in JavaScript, stored as 0; the quotient by zero is 0 here
    too. *)
Definition analysisHeight (v : Z * Z) : Z :=
  Qfloor (inject_Z (snd v) / inject_Z (fst v) * 640)%Q.

(** The [catch] block of [analyzeFrame]. *)
Definition analyzeFrame_catch (s : State) : State :=
  let s := set_detectionStatus idle s in
  set_zoom 1%Q s.

(** The [finally] block of [analyzeFrame]. *)
Definition analyzeFrame_finally (s : State) : State :=
  set_isAnalyzingRef false s.

(** [analyzeFrame] up to its [await].  [c] is what the callback captured,
    [drawFails] says whether drawing or encoding the frame throws. *)
Definition analyzeFrame_begin (c : Closure) (drawFails : bool) (s : State) : State :=
  if isAnalyzingRef s || negb (cl_enabled c) then s
  else
    let s := set_isAnalyzingRef true s in
    let s := set_canvas (640, analysisHeight (video s)) s in
    if negb (context2d s) then
      analyzeFrame_finally (set_isAnalyzingRef false s)
    else if drawFails then
      analyzeFrame_finally (analyzeFrame_catch s)
    else
      let dataUrl :=
        {| jpegWidth := fst (canvas s); jpegHeight := snd (canvas s);
           jpegQuality := 8 # 10 |} in
      set_inflight (inflight s ++ [{| sent := dataUrl; captured := c |}]) s.

(** The branch [if (result.success && result.box)]. *)
Definition analyzeFrame_found (c : Closure) (r : IrisDetectionResult) (b : Box)
    (s : State) : State :=
  let s := set_detectionResult (Some r) s in
  let s := if negb (status_eqb (cl_status c) locked)
           then set_detectionStatus tracking s else s in
  let s := set_zoom (smooth (newZoom b) (zoom s)) s in
  let s := match steadyTimeoutRef s with
           | Some h => clearTimeout h s | None => s end in
  if negb (countdownInProgress s) then
    let (h, s) := setTimeout SteadyLock 500 s in
    set_steadyTimeoutRef (Some h) s
  else s.

(** The [else] branch: no usable box. *)
Definition analyzeFrame_missed (s : State) : State :=
  let s := match steadyTimeoutRef s with
           | Some h => clearTimeout h s | None => s end in
  let s := set_detectionStatus idle s in
  let s := set_detectionResult None s in
  set_zoom (smooth 1 (zoom s)) s.

(** [analyzeFrame] from the point where the awaited call settles. *)
Definition analyzeFrame_resume (c : Closure) (a : Awaited) (s : State) : State :=
  let s := match a with
           | Resolved r =>
               match success r, box r with
               | true, Some b => analyzeFrame_found c r b s
               | _, _ => analyzeFrame_missed s
               end
           | Rejected => analyzeFrame_catch s
           end in
  analyzeFrame_finally s.

(* ================================================================== *)
(** * Effects *)
(* ================================================================== *)

(** The [analyzeFrame] of the current render. *)
Definition currentClosure (s : State) : Closure :=
  {| cl_enabled := autoCaptureEnabled s; cl_status := detectionStatus s |}.

(** Cleanup of the sampling effect. *)
Definition intervalCleanup (s : State) : State :=
  match analysisIntervalRef s with
  | Some h => clearInterval h s
  | None => s
  end.

(** Body of the sampling effect. *)
Definition intervalEffect (s : State) : State :=
  if autoCaptureEnabled s && cameraReady s then
    let (h, s') := setInterval (currentClosure s) s in
    set_analysisIntervalRef (Some h) s'
  else
    match analysisIntervalRef s with
    | Some h => clearInterval h s
    | None => s
    end.

(** Body of the countdown effect. *)
Definition countdownEffect (s : State) : State :=
  if status_eqb (detectionStatus s) locked && autoCaptureEnabled s
     && negb (countdownInProgress s) then
    let s := set_countdownInProgress true s in
    let s := playBeep 440 100 s in
    let s := set_countdown (Some 2) s in
    let (t1, s) := setTimeout CountdownOne 1000 s in
    let (t2, s) := setTimeout CountdownFire 2000 s in
    set_countdownTimeoutsRef [t1; t2] s
  else if negb (status_eqb (detectionStatus s) locked) && countdownInProgress s then
    let s := clearCountdownTimeouts s in
    let s := set_countdown None s in
    set_countdownInProgress false s
  else s.

(** The values both dependency lists change with.  The sampling effect
    depends on [autoCaptureEnabled], [cameraReady] and [analyzeFrame]
    (re-created with [autoCaptureEnabled] and [detectionStatus]); the
    countdown effect on [detectionStatus], [autoCaptureEnabled] and
    [handleCapture] (re-created with [cameraReady], and with [stopStream],
    that is with the identity of the stream object).  The handlers of the
    auto-capture logic replace no stream; the re-renders caused by the camera
    are [cameraRestarted], [cameraGranted] and [cameraLoaded] below. *)
Definition depsChanged (prev s : State) : bool :=
  negb (Bool.eqb (autoCaptureEnabled prev) (autoCaptureEnabled s)
        && Bool.eqb (cameraReady prev) (cameraReady s)
        && status_eqb (detectionStatus prev) (detectionStatus s)).

(** After a callback: the re-render and its effects.  The updates of one
    callback are batched; the cleanups of the effects whose dependencies
    changed run first, then their bodies, in the order of declaration. *)
Definition commit (prev s : State) : State :=
  if depsChanged prev s then
    let s := intervalCleanup s in
    let s := clearCountdownTimeouts s in
    let s := intervalEffect s in
    countdownEffect s
  else s.

(* ================================================================== *)
(** * Events and time *)
(* ================================================================== *)

(** The reactions of the auto-capture logic: a tick of the sampling
    interval, the settling of the awaited detection call, and the toggle. *)
Inductive Event : Type :=
| Tick (drawFails : bool)
| Settle (a : Awaited)
| ToggleAutoCapture.

Definition handler (e : Event) (s : State) : State :=
  match e with
  | Tick d =>
      match intervals s with
      | (_, c) :: _ => analyzeFrame_begin c d s
      | [] => s
      end
  | Settle a =>
      match inflight s with
      | c :: rest => analyzeFrame_resume (captured c) a (set_inflight rest s)
      | [] => s
      end
  | ToggleAutoCapture => handleToggleAutoCapture s
  end.

Definition react (e : Event) (s : State) : State := commit s (handler e s).

(** The callback of a timeout. *)
Definition runTask (k : Task) (s : State) : State :=
  match k with
  | SteadyLock => set_detectionStatus locked s
  | CountdownOne =>
      let s := set_countdown (Some 1) s in
      playBeep 440 100 s
  | CountdownFire =>
      let s := set_countdown None s in
      let s := playBeep 880 200 s in
      let s := handleCapture s in
      set_countdownInProgress false s
  end.

(** A pending timeout fires at the time it is due. *)
Definition fire (tm : Timer) (s : State) : State :=
  let s0 := set_now (Z.max (now s) (due tm)) (clearTimeout (handle tm) s) in
  commit s (runTask (task tm) s0).

(** The pending timeout that is due first (the older one on a tie). *)
Fixpoint earliest (l : list Timer) : option Timer :=
  match l with
  | [] => None
  | tm :: l' =>
      match earliest l' with
      | Some tm' => if due tm' <? due tm then Some tm' else Some tm
      | None => Some tm
      end
  end.

Definition nextDue (t : Z) (s : State) : option Timer :=
  match earliest (timeouts s) with
  | Some tm => if due tm <=? t then Some tm else None
  | None => None
  end.

(** Let time pass until [t]: the timeouts due by then fire in order. *)
Fixpoint advanceFuel (n : nat) (t : Z) (s : State) : State :=
  match n with
  | O => s
  | S n' =>
      match nextDue t s with
      | Some tm => advanceFuel n' t (fire tm s)
      | None => set_now (Z.max (now s) t) s
      end
  end.

(** A steadiness timeout can start a countdown, which adds two timeouts that
    start nothing: so many firings are possible, and no more. *)
Definition weight (tm : Timer) : nat :=
  match task tm with SteadyLock => 3%nat | _ => 1%nat end.

Definition weights (l : list Timer) : nat := list_sum (map weight l).

Definition advance (t : Z) (s : State) : State :=
  advanceFuel (S (weights (timeouts s))) t s.

(** A run: each event happens at its time, after the timeouts due by then. *)
Fixpoint run (tr : list (Z * Event)) (s : State) : State :=
  match tr with
  | [] => s
  | (t, e) :: tr' => run tr' (react e (advance t s))
  end.

(** The screen once the camera is ready: nothing enabled, nothing pending. *)
Definition mounted (tracks : list Track) (v : Z * Z) (ctx audio : bool) : State :=
  {| stream := Some tracks; cameraReady := true;
     autoCaptureEnabled := false; detectionStatus := idle;
     detectionResult := None; zoom := 1%Q; countdown := None;
     analysisIntervalRef := None; countdownTimeoutsRef := [];
     steadyTimeoutRef := None; countdownInProgress := false;
     isAnalyzingRef := false; audioContextRef := false;
     video := v; canvas := (300, 150); context2d := ctx;
     audioSupported := audio;
     now := 0; nextHandle := 1%nat; timeouts := []; intervals := [];
     inflight := []; log := [] |}.

(** A box of width [w] starting at [x]. *)
Definition boxOfWidth (x w : Q) : Box :=
  {| xMin := x; yMin := 3 # 10; xMax := (x + w)%Q; yMax := 6 # 10 |}.

Definition found (b : Box) : Awaited :=
  Resolved {| success := true; box := Some b |}.


(* ================================================================== *)
(** * The camera restarts *)
(* ================================================================== *)

(** The camera is switched ([handleToggleCamera]) or the language changes:
    the camera effect runs again.  Its cleanup stops the tracks of the
    stream, and [startCamera] begins with [setCameraReady(false)]; in the
    re-render that follows [handleCapture] is re-created, so that the
    sampling effect and the countdown effect run again. *)
Definition cameraRestarted (s : State) : State :=
  commit s (set_cameraReady false (stopStream s)).

(** [getUserMedia] resolves: [setStream(mediaStream)] re-creates
    [stopStream] and with it [handleCapture]; the countdown effect runs
    again, its cleanup first. *)
Definition cameraGranted (tracks : list Track) (s : State) : State :=
  countdownEffect (clearCountdownTimeouts (set_stream (Some tracks) s)).

(** The video element reports its metadata: [setCameraReady(true)]. *)
Definition cameraLoaded (s : State) : State :=
  commit s (set_cameraReady true s).

(* ================================================================== *)
(** * The invariant of the timer bookkeeping *)
(* ================================================================== *)

Definition steadyTimer (h : nat) (d : Z) : Timer :=
  {| handle := h; due := d; task := SteadyLock |}.
Definition timer1 (h : nat) (T0 : Z) : Timer :=
  {| handle := h; due := T0 + 1000; task := CountdownOne |}.
Definition timer2 (h : nat) (T0 : Z) : Timer :=
  {| handle := h; due := T0 + 2000; task := CountdownFire |}.

(** What can be pending: nothing; one steadiness timeout, the one the ref
    names; or, while a countdown is in progress, its two timeouts (display 2)
    or the second of them (display 1). *)
Inductive Shape (s : State) : Prop :=
| Sh_none :
    countdownInProgress s = false -> timeouts s = [] -> Shape s
| Sh_steady (h : nat) (d : Z) :
    countdownInProgress s = false ->
    timeouts s = [steadyTimer h d] ->
    steadyTimeoutRef s = Some h ->
    ~ In h (countdownTimeoutsRef s) ->
    Shape s
| Sh_two (T0 : Z) (h1 h2 : nat) :
    countdownInProgress s = true ->
    timeouts s = [timer1 h1 T0; timer2 h2 T0] ->
    countdownTimeoutsRef s = [h1; h2] -> h1 <> h2 ->
    steadyTimeoutRef s <> Some h1 -> steadyTimeoutRef s <> Some h2 ->
    countdown s = Some 2 ->
    Shape s
| Sh_one (T0 : Z) (h1 h2 : nat) :
    countdownInProgress s = true ->
    timeouts s = [timer2 h2 T0] ->
    countdownTimeoutsRef s = [h1; h2] -> h1 <> h2 ->
    steadyTimeoutRef s <> Some h1 -> steadyTimeoutRef s <> Some h2 ->
    countdown s = Some 1 ->
    Shape s.

(** What every callback keeps, also before the effects have run. *)
Record wf0 (s : State) : Prop := {
  wf_shape : Shape s;
  wf_steadyRef : forall h, steadyTimeoutRef s = Some h -> (h < nextHandle s)%nat;
  wf_countdownRef :
    forall h, In h (countdownTimeoutsRef s) -> (h < nextHandle s)%nat;
  wf_inflight : (length (inflight s) <= 1)%nat;
  wf_analyzing : isAnalyzingRef s = false <-> inflight s = [];
  wf_zoom : (1 <= zoom s <= 4)%Q
}.

(** The invariant between reactions: a countdown is in progress only while
    the state is [locked] and the feature enabled. *)
Definition wf (s : State) : Prop :=
  wf0 s /\
  (countdownInProgress s = true ->
   detectionStatus s = locked /\ autoCaptureEnabled s = true).

(* ================================================================== *)
(** * The bounding-box overlay *)
(* ================================================================== *)

Inductive FacingMode : Type := user | environment.

(** What [EyeBoundingBoxOverlay] renders: the lock styling and the CSS
    position, in percent of the preview. *)
Record Overlay : Type := {
  isLocked : bool;
  cssLeft : Q; cssTop : Q; cssWidth : Q; cssHeight : Q
}.

(** [EyeBoundingBoxOverlay]; [None] is the [return null]. *)
Definition EyeBoundingBoxOverlay (status : DetectionStatus)
    (detection : option IrisDetectionResult) (facingMode : FacingMode)
    : option Overlay :=
  match detection with
  | Some r =>
      if negb (status_eqb status idle) && success r then
        match box r with
        | Some b =>
            let displayXMin :=
              match facingMode with
              | user => (1 - xMax b)%Q
              | environment => xMin b
              end in
            Some {| isLocked := status_eqb status locked;
                    cssLeft := (displayXMin * 100)%Q;
                    cssTop := (yMin b * 100)%Q;
                    cssWidth := ((xMax b - xMin b) * 100)%Q;
                    cssHeight := ((yMax b - yMin b) * 100)%Q |}
        | None => None
        end
      else None
  | None => None
  end.

(* ================================================================== *)
(** * The camera effect *)
(* ================================================================== *)

(** One run of the camera effect: its local variables [isMounted] and
    [mediaStream] (the media stream object, with its tracks), and whether its
    [getUserMedia] promise has settled. *)
Record Instance : Type := {
  isMounted : bool;
  mediaStream : option (list Track);
  settled : bool
}.

(** The camera side of the screen.  A media stream is named by the run of the
    effect that obtained it, so that [stream], the [srcObject] of the video
    element and the [mediaStream] of that run are the same object. *)
Record Cam : Type := {
  cam_facingMode : FacingMode;
  cam_stream : option nat;
  cam_cameraReady : bool;
  cam_error : bool;
  cam_effects : list Instance;
  cam_srcObject : option nat;
  cam_onloadedmetadata : option nat;
  cam_alive : bool
}.

Definition set_cam_effects (l : list Instance) (c : Cam) : Cam :=
  {| cam_facingMode := cam_facingMode c; cam_stream := cam_stream c;
     cam_cameraReady := cam_cameraReady c; cam_error := cam_error c;
     cam_effects := l; cam_srcObject := cam_srcObject c;
     cam_onloadedmetadata := cam_onloadedmetadata c; cam_alive := cam_alive c |}.

Fixpoint updateAt (i : nat) (f : Instance -> Instance) (l : list Instance)
    : list Instance :=
  match l, i with
  | [], _ => []
  | x :: l', O => f x :: l'
  | x :: l', S i' => x :: updateAt i' f l'
  end.

(** [mediaStream.getTracks().forEach(track => track.stop())] *)
Definition stopTracks (x : Instance) : Instance :=
  {| isMounted := isMounted x;
     mediaStream :=
       option_map (map (fun t => {| trackId := trackId t; ended := true |}))
         (mediaStream x);
     settled := settled x |}.

(** [startCamera] up to its [await], in a new run of the effect. *)
Definition startCamera (c : Cam) : Cam :=
  {| cam_facingMode := cam_facingMode c; cam_stream := cam_stream c;
     cam_cameraReady := false; cam_error := false;
     cam_effects := cam_effects c
                    ++ [{| isMounted := true; mediaStream := None;
                           settled := false |}];
     cam_srcObject := cam_srcObject c;
     cam_onloadedmetadata := cam_onloadedmetadata c; cam_alive := cam_alive c |}.

(** [startCamera] of run [i] after [getUserMedia] has resolved. *)
Definition startCamera_resolved (i : nat) (tracks : list Track) (c : Cam) : Cam :=
  match nth_error (cam_effects c) i with
  | Some x =>
      let x := {| isMounted := isMounted x; mediaStream := Some tracks;
                  settled := true |} in
      if negb (isMounted x) then
        set_cam_effects (updateAt i (fun _ => stopTracks x) (cam_effects c)) c
      else
        {| cam_facingMode := cam_facingMode c; cam_stream := Some i;
           cam_cameraReady := cam_cameraReady c; cam_error := cam_error c;
           cam_effects := updateAt i (fun _ => x) (cam_effects c);
           cam_srcObject := Some i;
           cam_onloadedmetadata := Some i; cam_alive := cam_alive c |}
  | None => c
  end.

(** The [catch] of [startCamera] of run [i]. *)
Definition startCamera_rejected (i : nat) (c : Cam) : Cam :=
  match nth_error (cam_effects c) i with
  | Some x =>
      let x' := {| isMounted := isMounted x; mediaStream := mediaStream x;
                   settled := true |} in
      {| cam_facingMode := cam_facingMode c; cam_stream := cam_stream c;
         cam_cameraReady := cam_cameraReady c;
         cam_error := if isMounted x then true else cam_error c;
         cam_effects := updateAt i (fun _ => x') (cam_effects c);
         cam_srcObject := cam_srcObject c;
         cam_onloadedmetadata := cam_onloadedmetadata c;
         cam_alive := cam_alive c |}
  | None => c
  end.

(** The handler [startCamera] puts on the video element. *)
Definition onloadedmetadata (c : Cam) : Cam :=
  match cam_onloadedmetadata c with
  | Some i =>
      match nth_error (cam_effects c) i with
      | Some x =>
          if isMounted x then
            {| cam_facingMode := cam_facingMode c; cam_stream := cam_stream c;
               cam_cameraReady := true; cam_error := cam_error c;
               cam_effects := cam_effects c; cam_srcObject := cam_srcObject c;
               cam_onloadedmetadata := cam_onloadedmetadata c;
               cam_alive := cam_alive c |}
          else c
      | None => c
      end
  | None => c
  end.

(** The cleanup of the current run of the effect. *)
Definition cameraCleanup (c : Cam) : Cam :=
  set_cam_effects
    (updateAt (pred (length (cam_effects c)))
       (fun x => stopTracks {| isMounted := false; mediaStream := mediaStream x;
                               settled := settled x |})
       (cam_effects c)) c.

(** The effect runs again when [facingMode] or [t] changes. *)
Definition cameraEffect (c : Cam) : Cam := startCamera (cameraCleanup c).

(** [handleToggleCamera], with the render that follows. *)
Definition handleToggleCamera (c : Cam) : Cam :=
  cameraEffect
    {| cam_facingMode := match cam_facingMode c with
                         | user => environment
                         | environment => user
                         end;
       cam_stream := cam_stream c;
       cam_cameraReady := cam_cameraReady c; cam_error := cam_error c;
       cam_effects := cam_effects c; cam_srcObject := cam_srcObject c;
       cam_onloadedmetadata := cam_onloadedmetadata c;
       cam_alive := cam_alive c |}.

(** Leaving the screen. *)
Definition cameraUnmount (c : Cam) : Cam :=
  let c := cameraCleanup c in
  {| cam_facingMode := cam_facingMode c; cam_stream := cam_stream c;
     cam_cameraReady := cam_cameraReady c; cam_error := cam_error c;
     cam_effects := cam_effects c; cam_srcObject := cam_srcObject c;
     cam_onloadedmetadata := cam_onloadedmetadata c; cam_alive := false |}.

(** What can happen to the camera side: the promise of run [i] settles, the
    video element reports its metadata, the camera is switched, the language
    changes, the screen is left. *)
Inductive CamEvent : Type :=
| Granted (i : nat) (tracks : list Track)
| Denied (i : nat)
| LoadedMetadata
| ToggleCamera
| LanguageChanged
| Unmount.

Definition unsettled (i : nat) (c : Cam) : bool :=
  match nth_error (cam_effects c) i with
  | Some x => negb (settled x)
  | None => false
  end.

Definition camReact (e : CamEvent) (c : Cam) : Cam :=
  match e with
  | Granted i tracks => if unsettled i c then startCamera_resolved i tracks c else c
  | Denied i => if unsettled i c then startCamera_rejected i c else c
  | LoadedMetadata => onloadedmetadata c
  | ToggleCamera => if cam_alive c then handleToggleCamera c else c
  | LanguageChanged => if cam_alive c then cameraEffect c else c
  | Unmount => if cam_alive c then cameraUnmount c else c
  end.

Definition camRun (tr : list CamEvent) (c : Cam) : Cam :=
  fold_left (fun c e => camReact e c) tr c.

(** The screen after its first render and the first run of the effect. *)
Definition camMounted : Cam :=
  startCamera
    {| cam_facingMode := user; cam_stream := None; cam_cameraReady := false;
       cam_error := false; cam_effects := []; cam_srcObject := None;
       cam_onloadedmetadata := None; cam_alive := true |}.

(* ================================================================== *)
(** * The application around the capture screen *)
(* ================================================================== *)

Inductive AppScreen : Type :=
| ONBOARDING | CAPTURE | CROP | PROCESSING | ENHANCE_RESULT | EDIT | EXPORT
| STORE | GALLERY | SETTINGS | WATCHFACE | IRIDOLOGY.

Record CropData : Type := { centerX : Q; centerY : Q; radius : Q }.

(** A history item; [original] and [enhanced] are filled from nullable
    state through the assertions [croppedImage!] and [enhancedImage!]. *)
Record HistoryItem : Type := {
  itemId : Z;
  thumbnail : String.string;
  original : option String.string;
  enhanced : option String.string
}.

(** The state of [App], with the processing runs that are still out. *)
Record AppState : Type := {
  screen : AppScreen;
  activeTab : AppScreen;
  originalImage : option String.string;
  croppedImage : option String.string;
  enhancedImage : option String.string;
  cropData : option CropData;
  credits : Z;
  history : list HistoryItem;
  postCaptureDestination : option AppScreen;
  (* each [ProcessingScreen] whose [processImage] has not finished yet, by
     the [postCaptureDestination] its [onComplete] has captured *)
  processing : list (option AppScreen)
}.

Definition setScreen (v : AppScreen) (a : AppState) : AppState :=
  {| screen := v; activeTab := activeTab a; originalImage := originalImage a;
     croppedImage := croppedImage a; enhancedImage := enhancedImage a;
     cropData := cropData a; credits := credits a; history := history a;
     postCaptureDestination := postCaptureDestination a;
     processing := processing a |}.

Definition setActiveTab (v : AppScreen) (a : AppState) : AppState :=
  {| screen := screen a; activeTab := v; originalImage := originalImage a;
     croppedImage := croppedImage a; enhancedImage := enhancedImage a;
     cropData := cropData a; credits := credits a; history := history a;
     postCaptureDestination := postCaptureDestination a;
     processing := processing a |}.

Definition setOriginalImage (v : option String.string) (a : AppState) : AppState :=
  {| screen := screen a; activeTab := activeTab a; originalImage := v;
     croppedImage := croppedImage a; enhancedImage := enhancedImage a;
     cropData := cropData a; credits := credits a; history := history a;
     postCaptureDestination := postCaptureDestination a;
     processing := processing a |}.

Definition setCroppedImage (v : option String.string) (a : AppState) : AppState :=
  {| screen := screen a; activeTab := activeTab a;
     originalImage := originalImage a;
     croppedImage := v; enhancedImage := enhancedImage a;
     cropData := cropData a; credits := credits a; history := history a;
     postCaptureDestination := postCaptureDestination a;
     processing := processing a |}.

Definition setEnhancedImage (v : option String.string) (a : AppState) : AppState :=
  {| screen := screen a; activeTab := activeTab a;
     originalImage := originalImage a;
     croppedImage := croppedImage a; enhancedImage := v;
     cropData := cropData a; credits := credits a; history := history a;
     postCaptureDestination := postCaptureDestination a;
     processing := processing a |}.

Definition setCropData (v : option CropData) (a : AppState) : AppState :=
  {| screen := screen a; activeTab := activeTab a;
     originalImage := originalImage a;
     croppedImage := croppedImage a; enhancedImage := enhancedImage a;
     cropData := v; credits := credits a; history := history a;
     postCaptureDestination := postCaptureDestination a;
     processing := processing a |}.

Definition setCredits (f : Z -> Z) (a : AppState) : AppState :=
  {| screen := screen a; activeTab := activeTab a;
     originalImage := originalImage a;
     croppedImage := croppedImage a; enhancedImage := enhancedImage a;
     cropData := cropData a; credits := f (credits a); history := history a;
     postCaptureDestination := postCaptureDestination a;
     processing := processing a |}.

Definition setHistory (f : list HistoryItem -> list HistoryItem) (a : AppState)
    : AppState :=
  {| screen := screen a; activeTab := activeTab a;
     originalImage := originalImage a;
     croppedImage := croppedImage a; enhancedImage := enhancedImage a;
     cropData := cropData a; credits := credits a; history := f (history a);
     postCaptureDestination := postCaptureDestination a;
     processing := processing a |}.

Definition setPostCaptureDestination (v : option AppScreen) (a : AppState)
    : AppState :=
  {| screen := screen a; activeTab := activeTab a;
     originalImage := originalImage a;
     croppedImage := croppedImage a; enhancedImage := enhancedImage a;
     cropData := cropData a; credits := credits a; history := history a;
     postCaptureDestination := v; processing := processing a |}.

Definition setProcessing (v : list (option AppScreen)) (a : AppState)
    : AppState :=
  {| screen := screen a; activeTab := activeTab a;
     originalImage := originalImage a;
     croppedImage := croppedImage a; enhancedImage := enhancedImage a;
     cropData := cropData a; credits := credits a; history := history a;
     postCaptureDestination := postCaptureDestination a; processing := v |}.

Definition goToCapture (a : AppState) : AppState :=
  setActiveTab CAPTURE (setScreen CAPTURE (setCropData None
    (setEnhancedImage None (setCroppedImage None (setOriginalImage None a))))).

Definition resetToHome (a : AppState) : AppState := goToCapture a.

Definition goToEdit (a : AppState) : AppState := setScreen EDIT a.

Definition goToWatchFace (a : AppState) : AppState := setScreen WATCHFACE a.

Definition goToIridology (a : AppState) : AppState :=
  setActiveTab IRIDOLOGY (setScreen IRIDOLOGY a).

Definition goToExport (a : AppState) : AppState := setScreen EXPORT a.

Definition startIridologyCaptureFlow (a : AppState) : AppState :=
  goToCapture (setPostCaptureDestination (Some IRIDOLOGY) a).

Definition handleImageCaptured (imageDataUrl : String.string) (a : AppState)
    : AppState :=
  setScreen CROP (setCropData None (setEnhancedImage None
    (setCroppedImage None (setOriginalImage (Some imageDataUrl) a)))).

Definition handleCropComplete (data : CropData) (a : AppState) : AppState :=
  setScreen PROCESSING (setCropData (Some data) a).

(** [handleProcessingComplete]; [captured] is the [postCaptureDestination]
    of the render the callback was created in ([useCallback] with that
    dependency). *)
Definition handleProcessingComplete (captured : option AppScreen)
    (composedBeforeDataUrl enhancedImageDataUrl : String.string)
    (a : AppState) : AppState :=
  let a' := setEnhancedImage (Some enhancedImageDataUrl)
              (setCroppedImage (Some composedBeforeDataUrl) a) in
  match captured with
  | Some destination =>
      setActiveTab destination
        (setScreen destination (setPostCaptureDestination None a'))
  | None => setScreen ENHANCE_RESULT a'
  end.

Definition handleProcessingError (a : AppState) : AppState := goToCapture a.

(** [ProcessingScreen] is mounted: its effect starts [processImage], which
    keeps the [onComplete] and [onError] of that render until it ends. *)
Definition startProcessing (a : AppState) : AppState :=
  setProcessing (processing a ++ [postCaptureDestination a]) a.

Fixpoint removeAt (i : nat) (l : list (option AppScreen))
    : list (option AppScreen) :=
  match l, i with
  | [], _ => []
  | _ :: l', O => l'
  | x :: l', S i' => x :: removeAt i' l'
  end.

(** [handleExport]; [dateNow] is [Date.now()]. *)
Definition handleExport (imageDataUrl : String.string) (dateNow : Z)
    (a : AppState) : AppState :=
  if 0 <? credits a then
    let newHistoryItem :=
      {| itemId := dateNow; thumbnail := imageDataUrl;
         original := croppedImage a; enhanced := enhancedImage a |} in
    setScreen EXPORT
      (setHistory (fun h => newHistoryItem :: h)
         (setCredits (fun c => c - 1) a))
  else
    setActiveTab STORE (setScreen STORE a).

Definition navigateToTab (tab : AppScreen) (a : AppState) : AppState :=
  setScreen tab (setActiveTab tab (setPostCaptureDestination None a)).

(** [showHeaderAndNav] *)
Definition showHeaderAndNav (a : AppState) : bool :=
  match screen a with
  | CAPTURE | GALLERY | STORE | SETTINGS | IRIDOLOGY => true
  | _ => false
  end.

(** The [navItems] of [BottomNav]. *)
Definition navItems : list AppScreen := [GALLERY; IRIDOLOGY; CAPTURE; STORE; SETTINGS].

(** The credits the store sells: 1, 5, 20, and 10 with the subscription. *)
Definition storeItems : list Z := [1; 5; 20; 10].

Definition screen_eqb (x y : AppScreen) : bool :=
  match x, y with
  | ONBOARDING, ONBOARDING | CAPTURE, CAPTURE | CROP, CROP
  | PROCESSING, PROCESSING | ENHANCE_RESULT, ENHANCE_RESULT | EDIT, EDIT
  | EXPORT, EXPORT | STORE, STORE | GALLERY, GALLERY | SETTINGS, SETTINGS
  | WATCHFACE, WATCHFACE | IRIDOLOGY, IRIDOLOGY => true
  | _, _ => false
  end.

(** What the user and the screens can do: each button of the screen that
    [renderScreen] shows, the tabs when the navigation bar is shown, and the
    callbacks that arrive whatever is shown: an image handed over by the
    capture screen (also late, from a file still being read) and the outcome
    of processing run [i], which [ProcessingScreen] reports with no check
    that it is still mounted. *)
Inductive AppEvent : Type :=
| OnboardingComplete
| CapturedImage (imageDataUrl : String.string)
| CropContinue (data : CropData)
| Retake
| ProcessingComplete (i : nat) (composedBefore enhancedUrl : String.string)
| ProcessingError (i : nat)
| EnhanceContinue
| EditExport (imageDataUrl : String.string) (dateNow : Z)
| EditBack
| ExportDone
| ExportBackToEdit
| ExportWatchFace
| ExportIridology
| WatchFaceBack
| Purchase (n : Z)
| IridologyGoToCapture
| NavTab (tab : AppScreen).

Definition appReact (e : AppEvent) (a : AppState) : AppState :=
  let on (s : AppScreen) (a' : AppState) :=
    if screen_eqb (screen a) s then a' else a in
  match e with
  | OnboardingComplete => on ONBOARDING (goToCapture a)
  | CapturedImage url => handleImageCaptured url a
  | CropContinue data => on CROP (startProcessing (handleCropComplete data a))
  | Retake =>
      if screen_eqb (screen a) CROP || screen_eqb (screen a) ENHANCE_RESULT
      then goToCapture a else a
  | ProcessingComplete i b e' =>
      match nth_error (processing a) i with
      | Some captured =>
          handleProcessingComplete captured b e'
            (setProcessing (removeAt i (processing a)) a)
      | None => a
      end
  | ProcessingError i =>
      match nth_error (processing a) i with
      | Some _ =>
          handleProcessingError (setProcessing (removeAt i (processing a)) a)
      | None => a
      end
  | EnhanceContinue => on ENHANCE_RESULT (goToEdit a)
  | EditExport url d => on EDIT (handleExport url d a)
  | EditBack => on EDIT (goToCapture a)
  | ExportDone => on EXPORT (resetToHome a)
  | ExportBackToEdit => on EXPORT (goToEdit a)
  | ExportWatchFace => on EXPORT (goToWatchFace a)
  | ExportIridology => on EXPORT (goToIridology a)
  | WatchFaceBack => on WATCHFACE (goToExport a)
  | Purchase n =>
      if existsb (Z.eqb n) storeItems
      then on STORE (setCredits (fun c => c + n) a) else a
  | IridologyGoToCapture => on IRIDOLOGY (startIridologyCaptureFlow a)
  | NavTab tab =>
      if showHeaderAndNav a && existsb (screen_eqb tab) navItems
      then navigateToTab tab a else a
  end.

Definition appRun (tr : list AppEvent) (a : AppState) : AppState :=
  fold_left (fun a e => appReact e a) tr a.

(** The initial state of [App]. *)
Definition appInit : AppState :=
  {| screen := ONBOARDING; activeTab := CAPTURE; originalImage := None;
     croppedImage := None; enhancedImage := None; cropData := None;
     credits := 3; history := []; postCaptureDestination := None;
     processing := [] |}.

(* ================================================================== *)
(** * Definitions used to state and prove the properties *)
(* ================================================================== *)

Definition keep (hs : list nat) (tm : Timer) : bool :=
  negb (existsb (Nat.eqb (handle tm)) hs).

Definition steadyRefOk (s : State) : Prop :=
  forall h, steadyTimeoutRef s = Some h -> (h < nextHandle s)%nat.
Definition countdownRefOk (s : State) : Prop :=
  forall h, In h (countdownTimeoutsRef s) -> (h < nextHandle s)%nat.

Definition clearedSteady (s : State) : list Timer :=
  match steadyTimeoutRef s with
  | Some h => filter (fun tm => negb (Nat.eqb (handle tm) h)) (timeouts s)
  | None => timeouts s
  end.

(** What a handler leaves for the effects to restore. *)
Definition Post (s s' : State) : Prop :=
  wf0 s' /\
  cameraReady s' = cameraReady s /\
  (countdownInProgress s' = true ->
   countdownInProgress s = true /\ autoCaptureEnabled s' = autoCaptureEnabled s) /\
  (detectionStatus s' = locked ->
   detectionStatus s = locked /\ autoCaptureEnabled s' = autoCaptureEnabled s).

Definition intervalsAfter (s : State) : list (nat * Closure) :=
  if autoCaptureEnabled s && cameraReady s
  then intervals s ++ [(nextHandle s, currentClosure s)]
  else match analysisIntervalRef s with
       | Some h => filter (fun i => negb (Nat.eqb (fst i) h)) (intervals s)
       | None => intervals s
       end.

(** The state between the cleanups and the body of the countdown effect. *)
Definition cleaned (s s3 : State) : Prop :=
  timeouts s3 = filter (keep (countdownTimeoutsRef s)) (timeouts s) /\
  countdownTimeoutsRef s3 = [] /\
  (nextHandle s <= nextHandle s3)%nat /\
  detectionStatus s3 = detectionStatus s /\
  autoCaptureEnabled s3 = autoCaptureEnabled s /\
  cameraReady s3 = cameraReady s /\
  countdownInProgress s3 = countdownInProgress s /\
  steadyTimeoutRef s3 = steadyTimeoutRef s /\
  countdown s3 = countdown s /\
  inflight s3 = inflight s /\
  isAnalyzingRef s3 = isAnalyzingRef s /\
  zoom s3 = zoom s /\
  now s3 = now s /\
  log s3 = log s /\
  audioContextRef s3 = audioContextRef s /\
  stream s3 = stream s /\
  detectionResult s3 = detectionResult s.

(** What no effect touches. *)
Definition sameView (s s' : State) : Prop :=
  detectionStatus s' = detectionStatus s /\
  autoCaptureEnabled s' = autoCaptureEnabled s /\
  cameraReady s' = cameraReady s /\
  steadyTimeoutRef s' = steadyTimeoutRef s /\
  inflight s' = inflight s /\ isAnalyzingRef s' = isAnalyzingRef s /\
  zoom s' = zoom s /\ now s' = now s /\ stream s' = stream s /\
  detectionResult s' = detectionResult s.

Definition stopped (t : Track) : Track := {| trackId := trackId t; ended := true |}.

(** The image [handleCapture] hands over: the full video frame. *)
Definition fullFrame (s : State) : Jpeg :=
  {| jpegWidth := fst (video s); jpegHeight := snd (video s);
     jpegQuality := 95 # 100 |}.

Definition stopLog (s : State) : list (Z * Output) :=
  match stream s with
  | Some tracks => rev (map (fun t => (now s, TrackStopped (trackId t))) tracks)
  | None => []
  end.

Definition isTrigger (x : Z * Output) : bool :=
  match snd x with CaptureTrigger => true | _ => false end.

Definition triggers (s : State) : list (Z * Output) := filter isTrigger (log s).

(** What a sampling step never touches. *)
Definition sameControls (s s' : State) : Prop :=
  countdownInProgress s' = countdownInProgress s /\
  autoCaptureEnabled s' = autoCaptureEnabled s /\
  cameraReady s' = cameraReady s /\
  countdown s' = countdown s /\
  countdownTimeoutsRef s' = countdownTimeoutsRef s /\
  log s' = log s /\ now s' = now s /\ stream s' = stream s.

(** [lo] below [lo], [hi] above [hi], the value itself in between. *)
Definition clamp (x lo hi : Q) : Q :=
  if Qle_bool lo x then (if Qle_bool x hi then x else hi) else lo.

Definition allEnded (st : option (list Track)) : bool :=
  match st with
  | Some tracks => forallb ended tracks
  | None => true
  end.

(** A capture made at time [T] from state [s], on top of the outputs
    [older]: the full frame is handed over, then every track is stopped. *)
Definition captureDone (s s' : State) (T : Z) (older : list (Z * Output)) : Prop :=
  log s' = stopLog (set_now T s)
           ++ (T, ImageCaptured (fullFrame s)) :: (T, CaptureTrigger) :: older /\
  allEnded (stream s') = true /\
  option_map (map trackId) (stream s') = option_map (map trackId) (stream s) /\
  jpegWidth (fullFrame s) = fst (video s) /\
  jpegHeight (fullFrame s) = snd (video s).

(** The target the zoom is moved toward for a detection response. *)
Definition zoomTarget (r : IrisDetectionResult) : Q :=
  match success r, box r with
  | true, Some b => newZoom b
  | _, _ => 1%Q
  end.

(** A response [analyzeFrame] takes the [else] branch for. *)
Definition usable (r : IrisDetectionResult) : bool :=
  match success r, box r with
  | true, Some _ => true
  | _, _ => false
  end.

(** The run up to the first lock and the next sampling tick: enabled at 0,
    first tick at 750, an eye of width 0.1 found at 1000, locked at 1500,
    next tick at 2250 (the interval restarts when the state changes). *)
Definition lockedRun : list (Z * Event) :=
  [(0, ToggleAutoCapture); (750, Tick false);
   (1000, Settle (found (boxOfWidth (3 # 10) (1 # 10)))); (2250, Tick false)].

Definition demo : State :=
  mounted [{| trackId := 7; ended := false |}] (1920, 1080) true true.

(** A run that leaves a steadiness timeout pending while a call is awaited:
    the call issued at 2250 (in state [locked]) is still out when auto-capture
    is switched off at 2300 and on again at 2400; it comes back with an eye at
    2900, which starts the timeout due at 3400 and leaves the state [idle];
    the next tick, 750 ms after the switch-on, issues a new call at 3150. *)
Definition staleRun : list (Z * Event) :=
  [(0, ToggleAutoCapture); (750, Tick false);
   (1000, Settle (found (boxOfWidth (3 # 10) (1 # 10)))); (2250, Tick false);
   (2300, ToggleAutoCapture); (2400, ToggleAutoCapture);
   (2900, Settle (found (boxOfWidth (3 # 10) (1 # 10)))); (3150, Tick false)].

(** An event that neither disables the feature nor drops the lock. *)
Definition quiet (e : Event) (s : State) : bool :=
  match e with
  | ToggleAutoCapture => false
  | _ => status_eqb (detectionStatus (react e s)) locked
  end.

(** A run in which every event, when it happens, is quiet. *)
Fixpoint quietRun (tr : list (Z * Event)) (s : State) : bool :=
  match tr with
  | [] => true
  | (t, e) :: tr' =>
      quiet e (advance t s) && quietRun tr' (react e (advance t s))
  end.

(** Every event of the run happens in the window from [lo] to [hi], before
    the end [stop] of the countdown. *)
Definition during (lo hi stop : Z) (tr : list (Z * Event)) : Prop :=
  Forall (fun x => lo <= fst x /\ fst x <= hi /\ fst x < stop) tr.

(** The state [tracking] reached at 1000 by the first detection, with the
    steadiness timeout due at 1500. *)
Definition trackingState : State :=
  run [(0, ToggleAutoCapture); (750, Tick false);
       (1000, Settle (found (boxOfWidth (3 # 10) (1 # 10))))] demo.

(** A tick and a successful detection during the countdown. *)
Definition quietTrace : list (Z * Event) :=
  [(2250, Tick false); (2500, Settle (found (boxOfWidth (3 # 10) (1 # 10))))].

(** A countdown started at [T0] is running, the capture triggers so far
    being [base]. *)
Definition Counting (T0 : Z) (base : list (Z * Output)) (s : State) : Prop :=
  wf s /\ triggers s = base /\ T0 <= now s /\
  ((exists h1 h2, timeouts s = [timer1 h1 T0; timer2 h2 T0]) /\
   countdown s = Some 2 /\ now s < T0 + 1000
   \/
   (exists h2, timeouts s = [timer2 h2 T0]) /\
   countdown s = Some 1 /\ T0 + 1000 <= now s < T0 + 2000).

(** The countdown started at 1500 by [trackingState], seen at 2000. *)
Definition countingState : State := advance 2000 trackingState.

(** What the detection callbacks leave alone besides the controls. *)
Definition sameRig (s s' : State) : Prop :=
  audioContextRef s' = audioContextRef s /\
  audioSupported s' = audioSupported s /\
  intervals s' = intervals s /\
  analysisIntervalRef s' = analysisIntervalRef s /\
  video s' = video s /\ context2d s' = context2d s.

Definition isBeep (x : Z * Output) : bool :=
  match snd x with Beep _ _ => true | _ => false end.

Definition beeps (s : State) : list (Z * Output) := filter isBeep (log s).

Definition noToggle (tr : list (Z * Event)) : Prop :=
  Forall (fun x => snd x <> ToggleAutoCapture) tr.

(** The run of [staleRun] up to the switch-off, the call of 2250 still out. *)
Definition switchedOff : State :=
  run [(0, ToggleAutoCapture); (750, Tick false);
       (1000, Settle (found (boxOfWidth (3 # 10) (1 # 10)))); (2250, Tick false);
       (2300, ToggleAutoCapture)] demo.


(** The sampling interval between reactions: while auto-capture is enabled
    and the camera ready, one interval is alive, the ref names it and it
    calls the [analyzeFrame] of the current render; otherwise none is. *)
Definition samplingOk (s : State) : Prop :=
  if autoCaptureEnabled s && cameraReady s
  then exists h, analysisIntervalRef s = Some h /\
                 intervals s = [(h, currentClosure s)]
  else intervals s = [].

(** What a callback leaves for the sampling effect: at most one interval,
    the one the ref names. *)
Definition tidy (s : State) : Prop :=
  intervals s = [] \/
  exists h c, analysisIntervalRef s = Some h /\ intervals s = [(h, c)].

(** The state just after the capture of [lockedRun] was triggered at 3500,
    and what follows while the eye stays in view. *)
Definition afterCapture : State := advance 3500 (run lockedRun demo).

Definition stillLocked : list (Z * Event) :=
  [(3600, Settle (found (boxOfWidth (3 # 10) (1 # 10)))); (4350, Tick false);
   (4700, Settle (found (boxOfWidth (3 # 10) (1 # 10))))].

(** The width of a box, as [analyzeFrame] computes it. *)
Definition boxWidth (b : Box) : Q := (xMax b - xMin b)%Q.

(** The overlay as the screen renders it. *)
Definition overlayOf (f : FacingMode) (s : State) : option Overlay :=
  EyeBoundingBoxOverlay (detectionStatus s) (detectionResult s) f.

(** The cached result is a successful one with a box. *)
Definition hasBox (s : State) : Prop :=
  exists r b, detectionResult s = Some r /\ success r = true /\ box r = Some b.

(** A state other than idle, and a pending steadiness timeout, come with a
    cached box. *)
Definition boxInv (s : State) : Prop :=
  (detectionStatus s <> idle -> hasBox s) /\
  (forall tm, In tm (timeouts s) -> task tm = SteadyLock -> hasBox s).

(** No camera left on: a run of the effect that has been cleaned up holds
    no live track. *)
Definition released (x : Instance) : Prop :=
  isMounted x = false -> allEnded (mediaStream x) = true.

(** The invariant of the camera side. *)
Record camInv (c : Cam) : Prop := {
  ci_released : Forall released (cam_effects c);
  ci_last : forall i x, nth_error (cam_effects c) i = Some x ->
            isMounted x = true ->
            S i = length (cam_effects c) /\ cam_alive c = true;
  ci_handler : forall i, cam_onloadedmetadata c = Some i ->
            exists x, nth_error (cam_effects c) i = Some x /\
                      mediaStream x <> None /\
                      (isMounted x = true ->
                       cam_stream c = Some i /\ cam_srcObject c = Some i);
  ci_ready : cam_cameraReady c = true -> cam_alive c = true ->
            exists i x, nth_error (cam_effects c) i = Some x /\
                        isMounted x = true /\ mediaStream x <> None /\
                        cam_stream c = Some i /\ cam_srcObject c = Some i
}.
Lemma updateAt_length i f l : length (updateAt i f l) = length l.
Proof.
  revert i. induction l as [|x l IH]; intros [|i]; cbn; auto.
Qed.

(** What holds between the cleanup and what follows it. *)
Record camInv0 (c : Cam) : Prop := {
  c0_released : Forall released (cam_effects c);
  c0_none : forall i x, nth_error (cam_effects c) i = Some x -> isMounted x = false;
  c0_handler : forall i, cam_onloadedmetadata c = Some i ->
            exists x, nth_error (cam_effects c) i = Some x /\ mediaStream x <> None
}.

(** The screens whose props carry a non-null assertion. *)
Definition needsOriginal (s : AppScreen) : bool :=
  match s with CROP | PROCESSING => true | _ => false end.

Definition needsResult (s : AppScreen) : bool :=
  match s with ENHANCE_RESULT | EDIT | EXPORT | WATCHFACE => true | _ => false end.

Definition needsHistory (s : AppScreen) : bool :=
  match s with EXPORT | WATCHFACE => true | _ => false end.

(** A destination of the capture flow: none, or the iridology screen. *)
Definition flowDestination (d : option AppScreen) : Prop :=
  d = None \/ d = Some IRIDOLOGY.

Record appInv (a : AppState) : Prop := {
  ai_original : needsOriginal (screen a) = true -> originalImage a <> None;
  ai_crop : screen a = PROCESSING -> cropData a <> None;
  ai_result : needsResult (screen a) = true ->
              croppedImage a <> None /\ enhancedImage a <> None;
  ai_items : forall it, In it (history a) ->
             original it <> None /\ enhanced it <> None;
  ai_history : needsHistory (screen a) = true -> history a <> [];
  ai_credits : 0 <= credits a;
  ai_tab : showHeaderAndNav a = true -> activeTab a = screen a;
  ai_flow : flowDestination (postCaptureDestination a);
  ai_runs : Forall flowDestination (processing a)
}.

(** A capture, crop and enhancement followed by an export. *)
Definition exportFlow : list AppEvent :=
  [OnboardingComplete; CapturedImage "photo"%string;
   CropContinue {| centerX := 1 # 2; centerY := 1 # 2; radius := 1 # 4 |};
   ProcessingComplete 0 "before"%string "after"%string;
   EnhanceContinue; EditExport "edited"%string 1700000000000].

(** A capture started from the iridology screen, up to the processing. *)
Definition iridologyFlow : list AppEvent :=
  [OnboardingComplete; NavTab IRIDOLOGY; IridologyGoToCapture;
   CapturedImage "photo"%string;
   CropContinue {| centerX := 1 # 2; centerY := 1 # 2; radius := 1 # 4 |}].

(** During the countdown started at [T0], with an audio context: the tones
    emitted so far are those of [bb], and the tone of the second step once it
    is due. *)
Definition tonesAt (T0 : Z) (bb : list (Z * Output)) (s : State) : Prop :=
  audioContextRef s = true /\
  beeps s = (if now s <? T0 + 1000 then [] else [(T0 + 1000, Beep 440 100)]) ++ bb.

(* ================================================================== *)
(** * Lemmas and theorems *)
(* ================================================================== *)

Lemma filter_all {A} (l : list A) : filter (fun _ => true) l = l.
Proof. induction l; cbn; congruence. Qed.

Lemma filter_filter {A} (f g : A -> bool) l :
  filter f (filter g l) = filter (fun x => g x && f x) l.
Proof. induction l as [|a l IH]; cbn; auto. destruct (g a); cbn; destruct (f a); cbn; congruence. Qed.

Lemma clearAll_eq hs : forall s,
  fold_left (fun s h => clearTimeout h s) hs s
  = set_timeouts (filter (keep hs) (timeouts s)) s.
Proof.
  induction hs as [|h hs IH]; intros s; cbn [fold_left].
  - unfold keep; cbn. rewrite filter_all. destruct s; reflexivity.
  - rewrite IH. unfold clearTimeout, set_timeouts; cbn. f_equal. rewrite filter_filter.
    apply filter_ext. intros tm. unfold keep; cbn.
    rewrite negb_orb. reflexivity.
Qed.

Lemma clearCountdownTimeouts_eq s :
  clearCountdownTimeouts s
  = set_countdownTimeoutsRef []
      (set_timeouts (filter (keep (countdownTimeoutsRef s)) (timeouts s)) s).
Proof. unfold clearCountdownTimeouts. rewrite clearAll_eq. reflexivity. Qed.

Lemma keep_notin hs tm : ~ In (handle tm) hs -> keep hs tm = true.
Proof.
  unfold keep. intros H. destruct (existsb _ hs) eqn:E; auto.
  apply existsb_exists in E. destruct E as [x [Hx Hx']].
  apply Nat.eqb_eq in Hx'. subst. contradiction.
Qed.

Lemma smooth_bounds t z : (1 <= t <= 4)%Q -> (1 <= z <= 4)%Q -> (1 <= smooth t z <= 4)%Q.
Proof. unfold smooth. intros. lra. Qed.

Lemma Math_max_spec a b : (a <= Math_max a b)%Q /\ (b <= Math_max a b)%Q /\ (Math_max a b == a \/ Math_max a b == b)%Q.
Proof.
  unfold Math_max. destruct (Qle_bool a b) eqn:E.
  - apply Qle_bool_iff in E. repeat split; lra.
  - assert (~ (a <= b)%Q) by (intro H; apply Qle_bool_iff in H; congruence).
    repeat split; lra.
Qed.

Lemma Math_min_spec a b : (Math_min a b <= a)%Q /\ (Math_min a b <= b)%Q /\ (Math_min a b == a \/ Math_min a b == b)%Q.
Proof.
  unfold Math_min. destruct (Qle_bool a b) eqn:E.
  - apply Qle_bool_iff in E. repeat split; lra.
  - assert (~ (a <= b)%Q) by (intro H; apply Qle_bool_iff in H; congruence).
    repeat split; lra.
Qed.

Lemma newZoom_bounds b : (1 <= newZoom b <= 4)%Q.
Proof.
  unfold newZoom. destruct (Qeq_bool _ 0); [lra|].
  set (q := (targetBoxWidth / _)%Q).
  destruct (Math_max_spec 1 q) as (H1 & H2 & H3).
  destruct (Math_min_spec (Math_max 1 q) 4) as (H4 & H5 & [H6|H6]); rewrite H6; lra.
Qed.

Arguments clearCountdownTimeouts : simpl never.
Arguments resetAutoCaptureState : simpl never.
Arguments intervalCleanup : simpl never.
Arguments intervalEffect : simpl never.
Arguments countdownEffect : simpl never.
Arguments handleCapture : simpl never.
Arguments stopStream : simpl never.
Arguments playBeep : simpl never.
Arguments initAudioContext : simpl never.
Arguments commit : simpl never.

Lemma status_eqb_eq a b : status_eqb a b = true <-> a = b.
Proof. destruct a, b; cbn; split; congruence. Qed.

Lemma status_eqb_refl a : status_eqb a a = true.
Proof. destruct a; reflexivity. Qed.

Lemma Shape_ext s s' :
  timeouts s' = timeouts s ->
  countdownInProgress s' = countdownInProgress s ->
  steadyTimeoutRef s' = steadyTimeoutRef s ->
  countdownTimeoutsRef s' = countdownTimeoutsRef s ->
  countdown s' = countdown s ->
  Shape s -> Shape s'.
Proof.
  intros Ht Hp Hs Hc Hd [A B|h d A B C D|T0 h1 h2 A B C D E F G|T0 h1 h2 A B C D E F G].
  - apply Sh_none; congruence.
  - apply (Sh_steady _ h d); congruence.
  - apply (Sh_two _ T0 h1 h2); congruence.
  - apply (Sh_one _ T0 h1 h2); congruence.
Qed.

Ltac keepShape HS := eapply Shape_ext; [..|exact HS]; reflexivity.

Ltac easy_wf HS Ha :=
  repeat split; cbn;
  try solve [ assumption | reflexivity | discriminate | lra | lia
            | keepShape HS | apply Ha; assumption
            | intros; try discriminate; try congruence; auto; apply Ha; auto
            | intuition congruence ].

Lemma analyzeFrame_begin_wf0 c d s :
  wf0 s ->
  let s' := analyzeFrame_begin c d s in
  wf0 s' /\
  cameraReady s' = cameraReady s /\
  autoCaptureEnabled s' = autoCaptureEnabled s /\
  countdownInProgress s' = countdownInProgress s /\
  (detectionStatus s' = locked -> detectionStatus s = locked).
Proof.
  intros [HS Hs Hc Hi Ha Hz]. unfold analyzeFrame_begin.
  destruct (isAnalyzingRef s) eqn:Ean; cbn [orb].
  { easy_wf HS Ha. }
  destruct (cl_enabled c); cbn [negb].
  2:{ easy_wf HS Ha. }
  assert (Hin : inflight s = []) by (apply Ha; reflexivity).
  cbn. destruct (context2d s); cbn [negb].
  2:{ easy_wf HS Ha. }
  destruct d.
  - easy_wf HS Ha.
  - cbn. rewrite Hin. easy_wf HS Ha.
Qed.

Lemma neq_Some_eqb (r : option nat) h h' :
  r = Some h' -> r <> Some h -> (h =? h')%nat = false.
Proof. intros -> H. apply Nat.eqb_neq. congruence. Qed.

(** Splits [wf0] and settles everything but the shape of the pending
    timeouts. *)
Ltac wf0_fields Hs Hc Hin Hz :=
  unfold steadyRefOk, countdownRefOk in Hs, Hc;
  constructor; cbn;
  [ (* shape: left to the caller *)
  | let h0 := fresh "h" in let Hx := fresh in intros h0 Hx;
    first [ discriminate Hx
          | injection Hx as <-; lia
          | match type of Hs with
            | forall h, _ -> (h < ?n)%nat =>
                assert (h0 < n)%nat by (apply Hs; congruence); lia
            end ]
  | let h0 := fresh "h" in let Hx := fresh in intros h0 Hx;
    first [ contradiction
          | match type of Hc with
            | forall h, _ -> (h < ?n)%nat =>
                assert (h0 < n)%nat by (apply Hc; congruence); lia
            end ]
  | rewrite ?Hin; cbn; lia
  | rewrite ?Hin; split; reflexivity
  | first [ assumption | lra ] ].

Lemma analyzeFrame_found_wf0 cl r b s :
  Shape s -> steadyRefOk s -> countdownRefOk s -> (1 <= zoom s <= 4)%Q ->
  inflight s = [] ->
  let s' := analyzeFrame_finally (analyzeFrame_found cl r b s) in
  wf0 s' /\
  cameraReady s' = cameraReady s /\
  autoCaptureEnabled s' = autoCaptureEnabled s /\
  countdownInProgress s' = countdownInProgress s /\
  (detectionStatus s' = locked -> detectionStatus s = locked).
Proof.
  intros HS Hs Hc Hz Hin.
  pose proof (smooth_bounds _ _ (newZoom_bounds b) Hz) as Hz'.
  unfold analyzeFrame_finally, analyzeFrame_found, setTimeout, clearTimeout.
  assert (Hst : forall st, (if negb (status_eqb (cl_status cl) locked)
                 then set_detectionStatus tracking st else st)
          = set_detectionStatus (if negb (status_eqb (cl_status cl) locked)
                 then tracking else detectionStatus st) st).
  { intros st. destruct (negb _); destruct st; reflexivity. }
  rewrite Hst. clear Hst. cbn.
  destruct HS as [A B|h d A B C D|T0 h1 h2 A B C D E F G|T0 h1 h2 A B C D E F G].
  - (* nothing pending *)
    destruct (steadyTimeoutRef s) as [h|] eqn:Er; cbn; rewrite ?A, ?B; cbn.
    all: split; [wf0_fields Hs Hc Hin Hz'|].
    all: try (apply (Sh_steady _ (nextHandle s) (now s + 500)); cbn; rewrite ?B; auto;
              intros Hx; apply Hc in Hx; lia).
    all: repeat split; auto; destruct (negb _); congruence.
  - (* a steadiness timeout pending: cancelled, a new one started *)
    rewrite C; cbn. rewrite A, B; cbn. rewrite Nat.eqb_refl; cbn.
    split; [wf0_fields Hs Hc Hin Hz'|].
    + apply (Sh_steady _ (nextHandle s) (now s + 500)); cbn; auto.
      intros Hx; apply Hc in Hx; lia.
    + repeat split; auto; destruct (negb _); congruence.
  - (* countdown, both timeouts pending *)
    destruct (steadyTimeoutRef s) as [h|] eqn:Er; cbn; rewrite ?A, ?B; cbn.
    1: rewrite (neq_Some_eqb _ h1 h Er), (neq_Some_eqb _ h2 h Er) by congruence; cbn.
    all: split; [wf0_fields Hs Hc Hin Hz'|].
    all: try (apply (Sh_two _ T0 h1 h2); cbn; auto; congruence).
    all: repeat split; auto; destruct (negb _); congruence.
  - (* countdown, the last timeout pending *)
    destruct (steadyTimeoutRef s) as [h|] eqn:Er; cbn; rewrite ?A, ?B; cbn.
    1: rewrite (neq_Some_eqb _ h2 h Er) by congruence; cbn.
    all: split; [wf0_fields Hs Hc Hin Hz'|].
    all: try (apply (Sh_one _ T0 h1 h2); cbn; auto; congruence).
    all: repeat split; auto; destruct (negb _); congruence.
Qed.

Lemma analyzeFrame_missed_wf0 s :
  Shape s -> steadyRefOk s -> countdownRefOk s -> (1 <= zoom s <= 4)%Q ->
  inflight s = [] ->
  let s' := analyzeFrame_finally (analyzeFrame_missed s) in
  wf0 s' /\
  cameraReady s' = cameraReady s /\
  autoCaptureEnabled s' = autoCaptureEnabled s /\
  countdownInProgress s' = countdownInProgress s /\
  (detectionStatus s' = locked -> detectionStatus s = locked).
Proof.
  intros HS Hs Hc Hz Hin.
  assert (Hz' : (1 <= smooth 1 (zoom s) <= 4)%Q) by (apply smooth_bounds; [lra|auto]).
  unfold analyzeFrame_finally, analyzeFrame_missed, clearTimeout.
  destruct HS as [A B|h d A B C D|T0 h1 h2 A B C D E F G|T0 h1 h2 A B C D E F G].
  - destruct (steadyTimeoutRef s) as [h|] eqn:Er; cbn; rewrite ?A, ?B; cbn.
    all: split; [wf0_fields Hs Hc Hin Hz'|repeat split; auto; discriminate].
    all: apply Sh_none; cbn; rewrite ?B; auto.
  - rewrite C; cbn. rewrite B; cbn. rewrite Nat.eqb_refl; cbn.
    split; [wf0_fields Hs Hc Hin Hz'|repeat split; auto; discriminate].
    apply Sh_none; cbn; auto.
  - destruct (steadyTimeoutRef s) as [h|] eqn:Er; cbn; rewrite ?A, ?B; cbn.
    1: rewrite (neq_Some_eqb _ h1 h Er), (neq_Some_eqb _ h2 h Er) by congruence; cbn.
    all: split; [wf0_fields Hs Hc Hin Hz'|repeat split; auto; discriminate].
    all: apply (Sh_two _ T0 h1 h2); cbn; auto; congruence.
  - destruct (steadyTimeoutRef s) as [h|] eqn:Er; cbn; rewrite ?A, ?B; cbn.
    1: rewrite (neq_Some_eqb _ h2 h Er) by congruence; cbn.
    all: split; [wf0_fields Hs Hc Hin Hz'|repeat split; auto; discriminate].
    all: apply (Sh_one _ T0 h1 h2); cbn; auto; congruence.
Qed.

Lemma analyzeFrame_catch_wf0 s :
  Shape s -> steadyRefOk s -> countdownRefOk s -> (1 <= zoom s <= 4)%Q ->
  inflight s = [] ->
  let s' := analyzeFrame_finally (analyzeFrame_catch s) in
  wf0 s' /\
  cameraReady s' = cameraReady s /\
  autoCaptureEnabled s' = autoCaptureEnabled s /\
  countdownInProgress s' = countdownInProgress s /\
  (detectionStatus s' = locked -> detectionStatus s = locked).
Proof.
  intros HS Hs Hc Hz Hin.
  unfold analyzeFrame_finally, analyzeFrame_catch.
  split; [wf0_fields Hs Hc Hin Hz|cbn; repeat split; auto; discriminate].
  keepShape HS.
Qed.

Lemma analyzeFrame_resume_wf0 cl a s :
  Shape s -> steadyRefOk s -> countdownRefOk s -> (1 <= zoom s <= 4)%Q ->
  inflight s = [] ->
  let s' := analyzeFrame_resume cl a s in
  wf0 s' /\
  cameraReady s' = cameraReady s /\
  autoCaptureEnabled s' = autoCaptureEnabled s /\
  countdownInProgress s' = countdownInProgress s /\
  (detectionStatus s' = locked -> detectionStatus s = locked).
Proof.
  intros HS Hs Hc Hz Hin. unfold analyzeFrame_resume.
  destruct a as [r|].
  - destruct (success r); [destruct (box r) as [b|]|].
    + apply analyzeFrame_found_wf0; auto.
    + apply analyzeFrame_missed_wf0; auto.
    + apply analyzeFrame_missed_wf0; auto.
  - apply analyzeFrame_catch_wf0; auto.
Qed.

Lemma etaState_id s : etaState s = s.
Proof. destruct s; reflexivity. Qed.

Lemma initAudioContext_eq s :
  initAudioContext s = set_audioContextRef (audioContextRef s || audioSupported s) s.
Proof.
  unfold initAudioContext.
  destruct (audioContextRef s) eqn:E1; [|destruct (audioSupported s) eqn:E2];
    destruct s; cbn in *; subst; reflexivity.
Qed.

Lemma clearSteady_eq s :
  match steadyTimeoutRef s with Some h => clearTimeout h s | None => s end
  = set_timeouts
      (match steadyTimeoutRef s with
       | Some h => filter (fun tm => negb (Nat.eqb (handle tm) h)) (timeouts s)
       | None => timeouts s
       end) s.
Proof. destruct (steadyTimeoutRef s); [reflexivity|destruct s; reflexivity]. Qed.

Lemma intervalCleanup_eq s :
  intervalCleanup s
  = set_intervals
      (match analysisIntervalRef s with
       | Some h => filter (fun i => negb (Nat.eqb (fst i) h)) (intervals s)
       | None => intervals s
       end) s.
Proof.
  unfold intervalCleanup.
  destruct (analysisIntervalRef s); [reflexivity|destruct s; reflexivity].
Qed.

Lemma keep_two h1 h2 (tm : Timer) l :
  handle tm = h1 \/ handle tm = h2 -> keep (h1 :: h2 :: l) tm = false.
Proof.
  unfold keep; cbn. intros [->| ->]; rewrite Nat.eqb_refl; cbn;
    rewrite ?orb_true_r; reflexivity.
Qed.

Lemma resetAutoCaptureState_eq s :
  resetAutoCaptureState s
  = set_zoom 1%Q (set_countdown None (set_detectionResult None
      (set_detectionStatus idle (set_steadyTimeoutRef None
        (set_analysisIntervalRef None (set_countdownInProgress false
          (set_countdownTimeoutsRef []
            (set_timeouts
               (filter (keep (countdownTimeoutsRef s)) (clearedSteady s))
               (intervalCleanup s))))))))).
Proof.
  unfold resetAutoCaptureState. cbv zeta. fold (intervalCleanup s).
  rewrite clearSteady_eq, clearCountdownTimeouts_eq, intervalCleanup_eq.
  reflexivity.
Qed.

Lemma clearedSteady_keep s :
  Shape s -> filter (keep (countdownTimeoutsRef s)) (clearedSteady s) = [].
Proof.
  unfold clearedSteady.
  intros [A B|h d A B C D|T0 h1 h2 A B C D E F G|T0 h1 h2 A B C D E F G];
    rewrite B.
  - destruct (steadyTimeoutRef s); reflexivity.
  - rewrite C. cbn. rewrite Nat.eqb_refl. reflexivity.
  - rewrite C.
    destruct (steadyTimeoutRef s) as [h|] eqn:Er; cbn.
    1: rewrite (neq_Some_eqb _ h1 h Er), (neq_Some_eqb _ h2 h Er) by congruence; cbn.
    all: rewrite !keep_two by (cbn; auto); reflexivity.
  - rewrite C.
    destruct (steadyTimeoutRef s) as [h|] eqn:Er; cbn.
    1: rewrite (neq_Some_eqb _ h2 h Er) by congruence; cbn.
    all: rewrite !keep_two by (cbn; auto); reflexivity.
Qed.

Lemma handleToggleAutoCapture_wf0 s :
  wf s ->
  let s' := handleToggleAutoCapture s in
  wf0 s' /\
  cameraReady s' = cameraReady s /\
  countdownInProgress s' = false /\
  detectionStatus s' = idle.
Proof.
  intros [[HS Hs Hc Hi Ha Hz] Hp].
  unfold handleToggleAutoCapture. rewrite initAudioContext_eq. cbn.
  destruct (autoCaptureEnabled s) eqn:En; cbn.
  - rewrite resetAutoCaptureState_eq, intervalCleanup_eq. cbn.
    unfold clearedSteady at 1. cbn. fold (clearedSteady s).
    rewrite clearedSteady_keep by assumption.
    split; [|auto].
    constructor; cbn; auto; try lra; try discriminate; try contradiction.
    apply Sh_none; reflexivity.
  - assert (A : countdownInProgress s = false).
    { destruct (countdownInProgress s); auto. destruct Hp; auto; congruence. }
    split; [|auto].
    constructor; cbn; auto. keepShape HS.
Qed.

Lemma handler_Post e s : wf s -> Post s (handler e s).
Proof.
  intros Hwf. pose proof Hwf as [H0 Hp]. pose proof H0 as [HS Hs Hc Hi Ha Hz].
  destruct e as [d|a|]; cbn [handler].
  - destruct (intervals s) as [|[h c] ivs].
    + split; [exact H0|tauto].
    + destruct (analyzeFrame_begin_wf0 c d s) as (W & R & E & P & L); auto.
      split; [exact W|]. repeat split; auto; congruence.
  - destruct (inflight s) as [|c rest] eqn:Ein.
    + split; [exact H0|tauto].
    + destruct (analyzeFrame_resume_wf0 (captured c) a (set_inflight rest s))
        as (W & R & E & P & L); auto.
      * keepShape HS.
      * cbn in Hi. destruct rest; [reflexivity|cbn in Hi; lia].
      * split; [exact W|]. cbn in *. repeat split; auto; congruence.
  - destruct (handleToggleAutoCapture_wf0 s Hwf) as (W & R & P & L).
    split; [exact W|]. repeat split; auto; congruence.
Qed.

Lemma depsChanged_false prev s :
  depsChanged prev s = false <->
  autoCaptureEnabled prev = autoCaptureEnabled s /\
  cameraReady prev = cameraReady s /\
  detectionStatus prev = detectionStatus s.
Proof.
  unfold depsChanged. rewrite negb_false_iff, !andb_true_iff.
  rewrite !Bool.eqb_true_iff, status_eqb_eq. tauto.
Qed.

Lemma playBeep_eq f d s :
  playBeep f d s
  = set_log (if audioContextRef s then (now s, Beep f d) :: log s else log s) s.
Proof.
  unfold playBeep, emit. destruct (audioContextRef s); [reflexivity|].
  destruct s; reflexivity.
Qed.

Lemma intervalEffect_eq s :
  intervalEffect s
  = set_intervals (intervalsAfter s)
      (set_analysisIntervalRef
         (if autoCaptureEnabled s && cameraReady s
          then Some (nextHandle s) else analysisIntervalRef s)
         (set_nextHandle
            (if autoCaptureEnabled s && cameraReady s
             then S (nextHandle s) else nextHandle s) s)).
Proof.
  unfold intervalEffect, intervalsAfter, setInterval, clearInterval.
  destruct (autoCaptureEnabled s && cameraReady s); [reflexivity|].
  destruct (analysisIntervalRef s) eqn:E; destruct s; cbn in *; subst; reflexivity.
Qed.

Lemma filter_keep_idle s :
  Shape s -> countdownInProgress s = false ->
  filter (keep (countdownTimeoutsRef s)) (timeouts s) = timeouts s.
Proof.
  intros [A B|h d A B C D|T0 h1 h2 A B C D E F G|T0 h1 h2 A B C D E F G] P;
    try congruence; rewrite B; cbn; [reflexivity|].
  rewrite keep_notin by exact D. reflexivity.
Qed.

Lemma filter_keep_counting s :
  Shape s -> countdownInProgress s = true ->
  filter (keep (countdownTimeoutsRef s)) (timeouts s) = [].
Proof.
  intros [A B|h d A B C D|T0 h1 h2 A B C D E F G|T0 h1 h2 A B C D E F G] P;
    try congruence; rewrite B, C; cbn;
    rewrite !keep_two by (cbn; auto); reflexivity.
Qed.

Lemma Shape_idle_clean s s' :
  Shape s -> countdownInProgress s = false ->
  timeouts s' = timeouts s ->
  countdownInProgress s' = false ->
  steadyTimeoutRef s' = steadyTimeoutRef s ->
  countdownTimeoutsRef s' = [] ->
  Shape s'.
Proof.
  intros [A B|h d A B C D|T0 h1 h2 A B C D E F G|T0 h1 h2 A B C D E F G] P Ht Hp Hs Hc;
    try congruence.
  - apply Sh_none; congruence.
  - apply (Sh_steady _ h d); try congruence. rewrite Hc. intros [].
Qed.

Lemma commit_changed prev s :
  depsChanged prev s = true ->
  exists s3, cleaned s s3 /\ commit prev s = countdownEffect s3.
Proof.
  intros Hd. unfold commit. rewrite Hd.
  eexists. split; [|reflexivity].
  rewrite intervalEffect_eq, clearCountdownTimeouts_eq, intervalCleanup_eq.
  unfold cleaned. cbn.
  repeat split; try reflexivity.
  destruct (_ && _); lia.
Qed.

Lemma commit_same prev s : depsChanged prev s = false -> commit prev s = s.
Proof. unfold commit. intros ->. reflexivity. Qed.

(** The three branches of the countdown effect. *)
Lemma countdownEffect_start s :
  detectionStatus s = locked -> autoCaptureEnabled s = true ->
  countdownInProgress s = false ->
  let s' := countdownEffect s in
  timeouts s' = timeouts s ++ [timer1 (nextHandle s) (now s);
                               timer2 (S (nextHandle s)) (now s)] /\
  countdownTimeoutsRef s' = [nextHandle s; S (nextHandle s)] /\
  nextHandle s' = S (S (nextHandle s)) /\
  countdown s' = Some 2 /\ countdownInProgress s' = true /\
  log s' = (if audioContextRef s then (now s, Beep 440 100) :: log s else log s) /\
  detectionStatus s' = locked /\ autoCaptureEnabled s' = true /\
  cameraReady s' = cameraReady s /\ steadyTimeoutRef s' = steadyTimeoutRef s /\
  inflight s' = inflight s /\ isAnalyzingRef s' = isAnalyzingRef s /\
  zoom s' = zoom s /\ now s' = now s /\ stream s' = stream s /\
  detectionResult s' = detectionResult s.
Proof.
  intros Hl He Hp. unfold countdownEffect. rewrite Hl, He, Hp. cbn.
  rewrite playBeep_eq. unfold setTimeout. cbn.
  rewrite <- app_assoc. cbn. repeat split; auto.
Qed.

Lemma countdownEffect_cancel s :
  detectionStatus s <> locked -> countdownInProgress s = true ->
  let s' := countdownEffect s in
  timeouts s' = filter (keep (countdownTimeoutsRef s)) (timeouts s) /\
  countdownTimeoutsRef s' = [] /\
  nextHandle s' = nextHandle s /\
  countdown s' = None /\ countdownInProgress s' = false /\
  log s' = log s /\
  detectionStatus s' = detectionStatus s /\
  autoCaptureEnabled s' = autoCaptureEnabled s /\
  cameraReady s' = cameraReady s /\ steadyTimeoutRef s' = steadyTimeoutRef s /\
  inflight s' = inflight s /\ isAnalyzingRef s' = isAnalyzingRef s /\
  zoom s' = zoom s /\ now s' = now s /\ stream s' = stream s /\
  detectionResult s' = detectionResult s.
Proof.
  intros Hl Hp. unfold countdownEffect. rewrite Hp.
  assert (status_eqb (detectionStatus s) locked = false) as ->.
  { destruct (status_eqb _ _) eqn:E; auto. apply status_eqb_eq in E. congruence. }
  cbn. rewrite clearCountdownTimeouts_eq. cbn. repeat split; auto.
Qed.

Lemma countdownEffect_skip s :
  (detectionStatus s = locked ->
   autoCaptureEnabled s = false \/ countdownInProgress s = true) ->
  (detectionStatus s <> locked -> countdownInProgress s = false) ->
  countdownEffect s = s.
Proof.
  intros H1 H2. unfold countdownEffect.
  destruct (status_eqb (detectionStatus s) locked) eqn:E; cbn.
  - apply status_eqb_eq in E. destruct (H1 E) as [-> | ->]; cbn; auto.
    rewrite andb_false_r. reflexivity.
  - assert (detectionStatus s <> locked) as N
      by (intros C; rewrite C in E; discriminate).
    rewrite (H2 N). reflexivity.
Qed.

Ltac fields H :=
  repeat match type of H with
         | _ /\ _ => let A := fresh "F" in destruct H as [A H]
         end.

Ltac rw_fields :=
  repeat match goal with
         | H : ?p ?x = _ |- context [?p ?x] => rewrite H
         end.

Lemma commit_wf prev s :
  wf0 s ->
  cameraReady s = cameraReady prev ->
  (countdownInProgress s = true ->
   detectionStatus prev = locked /\ autoCaptureEnabled prev = true
   /\ autoCaptureEnabled s = true) ->
  (detectionStatus s = locked -> autoCaptureEnabled s = true ->
   countdownInProgress s = false -> depsChanged prev s = true ->
   timeouts s = []) ->
  wf (commit prev s).
Proof.
  intros [HS Hs Hc Hi Ha Hz] Hr H1 H2.
  destruct (depsChanged prev s) eqn:Ed.
  2:{ rewrite commit_same by assumption.
      apply depsChanged_false in Ed. destruct Ed as (E1 & E2 & E3).
      split; [constructor; auto|]. intros P. destruct (H1 P) as (L & E & _).
      split; congruence. }
  destruct (commit_changed prev s Ed) as (s3 & C & ->).
  destruct C as (Ct & Cr & Cn & Cst & Cen & Crd & Cip & Csr & Ccd & Cin & Can & Cz & Cnow & Clog & Cau & Cstr & Cdr).
  destruct (status_eqb (detectionStatus s) locked) eqn:El.
  - apply status_eqb_eq in El.
    destruct (autoCaptureEnabled s) eqn:En.
    + destruct (countdownInProgress s) eqn:Ep.
      * (* still counting: the dependencies cannot have changed *)
        exfalso. destruct (H1 eq_refl) as (L & E & _).
        assert (depsChanged prev s = false); [|congruence].
        apply depsChanged_false. repeat split; congruence.
      * (* a countdown starts *)
        destruct (countdownEffect_start s3)
          as (Kt & Kr & Kn & Kcd & Kip & Klog & Kst & Ken & Krd & Ksr & Kin & Kan
              & Kz & Know & Kstr & Kdr); try congruence.
        rewrite (H2 El eq_refl eq_refl eq_refl) in Ct. cbn in Ct.
        rewrite Ct in Kt. cbn in Kt.
        split; [|rw_fields; auto].
        constructor; rw_fields; auto.
        -- apply (Sh_two _ (now s3) (nextHandle s3) (S (nextHandle s3)));
             rw_fields; auto.
           ++ intros E. apply Hs in E. lia.
           ++ intros E. apply Hs in E. lia.
        -- intros h E. apply Hs in E. lia.
        -- intros h [<-|[<-|[]]]; lia.
    + (* locked but disabled: nothing to start, nothing counting *)
      assert (Ep : countdownInProgress s = false).
      { destruct (countdownInProgress s); auto. destruct H1 as (_ & _ & ?); auto. }
      rewrite countdownEffect_skip by (rw_fields; intros; auto; congruence).
      split; [|rw_fields; congruence].
      constructor; rw_fields; auto.
      * eapply Shape_idle_clean; [exact HS|exact Ep|..]; rw_fields; auto.
        apply filter_keep_idle; auto.
      * intros h E. apply Hs in E. lia.
      * intros h [].
  - assert (Nl : detectionStatus s <> locked)
      by (intros E; rewrite E in El; discriminate).
    destruct (countdownInProgress s) eqn:Ep.
    + (* the lock was lost during a countdown: it is cancelled *)
      destruct (countdownEffect_cancel s3)
        as (Kt & Kr & Kn & Kcd & Kip & Klog & Kst & Ken & Krd & Ksr & Kin & Kan
            & Kz & Know & Kstr & Kdr); try congruence.
      rewrite Cr in Kt. cbn in Kt.
      rewrite Ct, filter_keep_counting in Kt by assumption. cbn in Kt.
      split; [|rw_fields; congruence].
      constructor; rw_fields; auto.
      * apply Sh_none; rw_fields; auto.
      * intros h E. apply Hs in E. lia.
      * intros h [].
    + rewrite countdownEffect_skip by (rw_fields; intros; auto; congruence).
      split; [|rw_fields; congruence].
      constructor; rw_fields; auto.
      * eapply Shape_idle_clean; [exact HS|exact Ep|..]; rw_fields; auto.
        apply filter_keep_idle; auto.
      * intros h E. apply Hs in E. lia.
      * intros h [].
Qed.

Lemma countdownEffect_view s : sameView s (countdownEffect s).
Proof.
  unfold countdownEffect, sameView.
  destruct (_ && negb (countdownInProgress s)).
  - rewrite playBeep_eq. unfold setTimeout. cbn. tauto.
  - destruct (_ && countdownInProgress s); [|tauto].
    rewrite clearCountdownTimeouts_eq. cbn. tauto.
Qed.

Lemma commit_view prev s : sameView s (commit prev s).
Proof.
  destruct (depsChanged prev s) eqn:Ed.
  - destruct (commit_changed prev s Ed) as (s3 & C & ->).
    destruct C as (Ct & Cr & Cn & Cst & Cen & Crd & Cip & Csr & Ccd & Cin & Can
                   & Cz & Cnow & Clog & Cau & Cstr & Cdr).
    destruct (countdownEffect_view s3) as (A1 & A2 & A3 & A4 & A5 & A6 & A7 & A8 & A9 & A10).
    unfold sameView. repeat split; congruence.
  - rewrite commit_same by assumption. unfold sameView. tauto.
Qed.

Lemma commit_status prev s : detectionStatus (commit prev s) = detectionStatus s.
Proof. apply commit_view. Qed.

Lemma commit_enabled prev s :
  autoCaptureEnabled (commit prev s) = autoCaptureEnabled s.
Proof. apply commit_view. Qed.

Lemma commit_now prev s : now (commit prev s) = now s.
Proof. apply commit_view. Qed.

Lemma wf_react e s : wf s -> wf (react e s).
Proof.
  intros Hwf. destruct (handler_Post e s Hwf) as (W & R & P & L).
  unfold react. apply commit_wf; auto.
  - intros E. destruct (P E) as (E1 & E2). destruct Hwf as [_ Hp].
    destruct (Hp E1). repeat split; congruence.
  - intros E1 E2 E3 Ed. exfalso.
    destruct (L E1) as (E4 & E5).
    assert (depsChanged s (handler e s) = false); [|congruence].
    apply depsChanged_false. repeat split; congruence.
Qed.

(* ---------- handleCapture ---------- *)

Lemma stopStream_fold tracks : forall s,
  fold_left (fun s t => emit (TrackStopped (trackId t)) s) tracks s
  = set_log (rev (map (fun t => (now s, TrackStopped (trackId t))) tracks) ++ log s) s.
Proof.
  induction tracks as [|t ts IH]; intros s; cbn [fold_left map rev].
  - cbn. destruct s; reflexivity.
  - rewrite IH. unfold emit. cbn. rewrite <- app_assoc. reflexivity.
Qed.

Lemma stopStream_eq s :
  stopStream s
  = match stream s with
    | Some tracks =>
        set_stream (Some (map stopped tracks))
          (set_log (rev (map (fun t => (now s, TrackStopped (trackId t))) tracks)
                    ++ log s) s)
    | None => s
    end.
Proof.
  unfold stopStream. destruct (stream s); [|reflexivity].
  rewrite stopStream_fold. reflexivity.
Qed.

Lemma handleCapture_eq s :
  handleCapture s
  = if cameraReady s && context2d s then
      set_stream (option_map (map stopped) (stream s))
        (set_log (stopLog s ++ (now s, ImageCaptured (fullFrame s))
                    :: (now s, CaptureTrigger) :: log s)
           (set_canvas (video s)
              (set_audioContextRef (audioContextRef s || audioSupported s) s)))
    else
      set_log ((now s, CaptureTrigger) :: log s)
        (set_canvas (if cameraReady s then video s else canvas s)
           (set_audioContextRef (audioContextRef s || audioSupported s) s)).
Proof.
  unfold handleCapture. cbv zeta. rewrite initAudioContext_eq. unfold emit. cbn.
  destruct (cameraReady s) eqn:Er; cbn.
  - destruct (context2d s) eqn:Ec; cbn; [|reflexivity].
    rewrite stopStream_eq. unfold stopLog, fullFrame. cbn.
    destruct (stream s) eqn:Es; cbn; [reflexivity|].
    destruct s; cbn in *; subst; reflexivity.
  - destruct s; cbn in *; subst; reflexivity.
Qed.

(* ---------- enough fuel ---------- *)

Lemma weights_app l l' : weights (l ++ l') = (weights l + weights l')%nat.
Proof. unfold weights. rewrite map_app, list_sum_app. reflexivity. Qed.

Lemma weights_filter f l : (weights (filter f l) <= weights l)%nat.
Proof.
  unfold weights, list_sum. induction l as [|a l IH]; cbn; [lia|].
  destruct (f a); cbn; lia.
Qed.

Lemma weights_remove tm l :
  In tm l ->
  (weights (filter (fun x => negb (Nat.eqb (handle x) (handle tm))) l) + weight tm
   <= weights l)%nat.
Proof.
  induction l as [|a l IH]; intros H; [destruct H|].
  destruct H as [->|H].
  - pose proof (weights_filter (fun x => negb (Nat.eqb (handle x) (handle tm))) l) as W.
    unfold weights, list_sum in *. cbn. rewrite Nat.eqb_refl. cbn. lia.
  - specialize (IH H). unfold weights, list_sum in *. cbn.
    destruct (negb _); cbn; lia.
Qed.

Lemma runTask_timeouts k s : timeouts (runTask k s) = timeouts s.
Proof.
  destruct k; cbn; rewrite ?playBeep_eq; try reflexivity.
  rewrite handleCapture_eq. destruct (_ && _); reflexivity.
Qed.

Lemma runTask_deps k s :
  k <> SteadyLock ->
  autoCaptureEnabled (runTask k s) = autoCaptureEnabled s /\
  cameraReady (runTask k s) = cameraReady s /\
  detectionStatus (runTask k s) = detectionStatus s.
Proof.
  destruct k; intros H; [congruence| |]; cbn; rewrite ?playBeep_eq; cbn; auto.
  rewrite handleCapture_eq. cbn. destruct (_ && _); cbn; auto.
Qed.

Arguments weights : simpl never.

Lemma countdownEffect_weights s :
  (weights (timeouts (countdownEffect s)) <= weights (timeouts s) + 2)%nat.
Proof.
  unfold countdownEffect.
  destruct (_ && negb (countdownInProgress s)).
  - rewrite playBeep_eq. unfold setTimeout. cbn.
    rewrite <- app_assoc, weights_app. unfold weights, list_sum. cbn. lia.
  - destruct (_ && countdownInProgress s); [|lia].
    rewrite clearCountdownTimeouts_eq. cbn.
    pose proof (weights_filter (keep (countdownTimeoutsRef s)) (timeouts s)). lia.
Qed.

Lemma commit_weights prev s :
  (weights (timeouts (commit prev s))
   <= weights (timeouts s) + (if depsChanged prev s then 2 else 0))%nat.
Proof.
  destruct (depsChanged prev s) eqn:Ed.
  - destruct (commit_changed prev s Ed) as (s3 & C & ->).
    destruct C as (Ct & _).
    pose proof (countdownEffect_weights s3) as W. rewrite Ct in W.
    pose proof (weights_filter (keep (countdownTimeoutsRef s)) (timeouts s)). lia.
  - rewrite commit_same by assumption. lia.
Qed.

Lemma fire_weight tm s :
  In tm (timeouts s) ->
  (weights (timeouts (fire tm s)) < weights (timeouts s))%nat.
Proof.
  intros Hin. unfold fire.
  set (s0 := set_now _ _).
  pose proof (commit_weights s (runTask (task tm) s0)) as Hc.
  rewrite runTask_timeouts in Hc.
  assert (H0 : (weights (timeouts s0) + weight tm <= weights (timeouts s))%nat).
  { subst s0. cbn. apply weights_remove; auto. }
  destruct (task tm) eqn:Ek.
  - unfold weight in H0. rewrite Ek in H0.
    destruct (depsChanged _ _); lia.
  - assert (depsChanged s (runTask CountdownOne s0) = false) as Hd.
    { apply depsChanged_false.
      destruct (runTask_deps CountdownOne s0) as (A & B & C); [congruence|].
      rewrite A, B, C. subst s0. cbn. auto. }
    rewrite Hd in Hc. unfold weight in H0. rewrite Ek in H0. lia.
  - assert (depsChanged s (runTask CountdownFire s0) = false) as Hd.
    { apply depsChanged_false.
      destruct (runTask_deps CountdownFire s0) as (A & B & C); [congruence|].
      rewrite A, B, C. subst s0. cbn. auto. }
    rewrite Hd in Hc. unfold weight in H0. rewrite Ek in H0. lia.
Qed.

Lemma earliest_In l tm : earliest l = Some tm -> In tm l.
Proof.
  revert tm. induction l as [|a l IH]; cbn; intros tm H; [discriminate|].
  destruct (earliest l) as [tm'|].
  - destruct (due tm' <? due a); injection H as <-; auto.
  - injection H as <-; auto.
Qed.

Lemma earliest_le l tm :
  earliest l = Some tm -> forall x, In x l -> due tm <= due x.
Proof.
  revert tm. induction l as [|a l IH]; cbn; intros tm H x Hx; [destruct Hx|].
  destruct (earliest l) as [tm'|] eqn:E.
  - specialize (IH tm' eq_refl).
    destruct (Z.ltb_spec (due tm') (due a)); injection H as <-;
      destruct Hx as [<-|Hx]; try lia.
    + apply IH; auto.
    + specialize (IH x Hx). lia.
  - injection H as <-. destruct Hx as [<-|Hx]; [lia|].
    destruct l; [destruct Hx|]. cbn in E. destruct (earliest l); [destruct (_ <? _)|]; discriminate.
Qed.

Lemma earliest_None l : earliest l = None -> l = [].
Proof.
  destruct l; cbn; auto. destruct (earliest l); [destruct (_ <? _)|]; discriminate.
Qed.

Lemma nextDue_Some t s tm :
  nextDue t s = Some tm ->
  earliest (timeouts s) = Some tm /\ In tm (timeouts s) /\ due tm <= t.
Proof.
  unfold nextDue. destruct (earliest (timeouts s)) as [tm'|] eqn:E; [|discriminate].
  destruct (Z.leb_spec (due tm') t); [|discriminate].
  intros [= <-]. repeat split; auto. apply earliest_In; auto.
Qed.

Lemma nextDue_None t s :
  nextDue t s = None -> forall tm, In tm (timeouts s) -> t < due tm.
Proof.
  unfold nextDue. destruct (earliest (timeouts s)) as [tm'|] eqn:E.
  - destruct (Z.leb_spec (due tm') t); [discriminate|].
    intros _ tm Hin. pose proof (earliest_le _ _ E tm Hin). lia.
  - intros _ tm Hin. apply earliest_None in E. rewrite E in Hin. destruct Hin.
Qed.

Lemma advanceFuel_enough t : forall n m s,
  (weights (timeouts s) < n)%nat -> (weights (timeouts s) < m)%nat ->
  advanceFuel n t s = advanceFuel m t s.
Proof.
  induction n as [|n IH]; intros m s Hn Hm; [lia|].
  destruct m as [|m]; [lia|]. cbn.
  destruct (nextDue t s) as [tm|] eqn:E; [|reflexivity].
  apply nextDue_Some in E. destruct E as (_ & Hin & _).
  pose proof (fire_weight tm s Hin). apply IH; lia.
Qed.

(** The equation [advance] satisfies: the fuel never runs out. *)
Lemma advance_step t s :
  advance t s = match nextDue t s with
                | Some tm => advance t (fire tm s)
                | None => set_now (Z.max (now s) t) s
                end.
Proof.
  unfold advance at 1. cbn [advanceFuel].
  destruct (nextDue t s) as [tm|] eqn:E; [|reflexivity].
  apply nextDue_Some in E. destruct E as (_ & Hin & _).
  pose proof (fire_weight tm s Hin).
  unfold advance. apply advanceFuel_enough; lia.
Qed.

(** Induction along the firings of [advance]. *)
Lemma advance_ind (t : Z) (P : State -> State -> Prop) :
  (forall s, nextDue t s = None -> P s (set_now (Z.max (now s) t) s)) ->
  (forall s tm s', nextDue t s = Some tm -> P (fire tm s) s' -> P s s') ->
  forall s, P s (advance t s).
Proof.
  intros Hnone Hsome.
  assert (H : forall n s, (weights (timeouts s) < n)%nat -> P s (advance t s)).
  { induction n as [|n IH]; intros s Hn; [lia|].
    rewrite advance_step.
    destruct (nextDue t s) as [tm|] eqn:E.
    - apply (Hsome s tm _ E). apply IH.
      apply nextDue_Some in E. destruct E as (_ & Hin & _).
      pose proof (fire_weight tm s Hin). lia.
    - apply Hnone; auto. }
  intros s. apply (H (S (weights (timeouts s)))). lia.
Qed.

Lemma runTask_now k s : now (runTask k s) = now s.
Proof.
  destruct k; cbn; rewrite ?playBeep_eq; try reflexivity.
  rewrite handleCapture_eq. destruct (_ && _); reflexivity.
Qed.

Lemma fire_now tm s : now (fire tm s) = Z.max (now s) (due tm).
Proof. unfold fire. rewrite commit_now, runTask_now. reflexivity. Qed.

(** [advance] is total: it ends at time [t] with nothing overdue. *)
Lemma advance_settled t s :
  now (advance t s) = Z.max (now s) t /\
  forall tm, In tm (timeouts (advance t s)) -> t < due tm.
Proof.
  apply (advance_ind t (fun s s' =>
           now s' = Z.max (now s) t /\
           forall tm, In tm (timeouts s') -> t < due tm)); clear s.
  - intros s E. split; [reflexivity|]. cbn. apply nextDue_None; auto.
  - intros s tm s' E [IH1 IH2]. split; auto.
    rewrite IH1, fire_now. apply nextDue_Some in E. lia.
Qed.

Lemma wf_set_now t s : wf s -> wf (set_now t s).
Proof.
  intros [[HS Hs Hc Hi Ha Hz] Hp]. split; [|exact Hp].
  constructor; auto. keepShape HS.
Qed.

Lemma wf_fire tm s :
  wf s -> earliest (timeouts s) = Some tm -> wf (fire tm s).
Proof.
  intros [[HS Hs Hc Hi Ha Hz] Hp] He. unfold fire.
  destruct HS as [A B|h d A B C D|T0 h1 h2 A B C D E F G|T0 h1 h2 A B C D E F G];
    rewrite B in He; cbn in He.
  - discriminate.
  - (* the steadiness timeout fires *)
    injection He as <-. cbn [handle due task steadyTimer runTask].
    apply commit_wf; cbn; auto.
    + constructor; cbn; auto. apply Sh_none; cbn; auto.
      rewrite B. cbn. rewrite Nat.eqb_refl. reflexivity.
    + rewrite A. discriminate.
    + intros. rewrite B. cbn. rewrite Nat.eqb_refl. reflexivity.
  - (* the first countdown timeout fires *)
    destruct (Z.ltb_spec (T0 + 2000) (T0 + 1000)); [lia|].
    injection He as <-. cbn [handle due task timer1 runTask].
    rewrite playBeep_eq.
    destruct (Hp A) as (L & En).
    apply commit_wf; cbn; auto.
    + constructor; cbn; auto. apply (Sh_one _ T0 h1 h2); cbn; auto.
      rewrite B. cbn. rewrite Nat.eqb_refl.
      assert ((h2 =? h1)%nat = false) as -> by (apply Nat.eqb_neq; congruence).
      reflexivity.
    + rewrite A. intros. discriminate.
  - (* the second countdown timeout fires *)
    injection He as <-. cbn [handle due task timer2 runTask].
    rewrite playBeep_eq, handleCapture_eq. cbn.
    destruct (Hp A) as (L & En).
    assert (Ht : filter (fun tm => negb (handle tm =? h2)%nat) (timeouts s) = []).
    { rewrite B. cbn. rewrite Nat.eqb_refl. reflexivity. }
    destruct (cameraReady s && context2d s); apply commit_wf; cbn; auto;
      try discriminate.
    all: constructor; cbn; auto; apply Sh_none; cbn; auto.
Qed.

Lemma wf_advance t s : wf s -> wf (advance t s).
Proof.
  apply (advance_ind t (fun s s' => wf s -> wf s')); clear s.
  - intros s E H. apply wf_set_now; auto.
  - intros s tm s' E IH H. apply IH. apply wf_fire; auto.
    apply nextDue_Some in E. tauto.
Qed.

Lemma wf_run tr : forall s, wf s -> wf (run tr s).
Proof.
  induction tr as [|[t e] tr IH]; intros s H; cbn; auto.
  apply IH, wf_react, wf_advance, H.
Qed.

Lemma wf_mounted tracks v ctx audio : wf (mounted tracks v ctx audio).
Proof.
  split; [|cbn; discriminate].
  constructor; cbn; auto; try discriminate; try contradiction; try tauto; try lra.
  apply Sh_none; reflexivity.
Qed.

(* ---------- the outputs ---------- *)

(** The effects when a lock has just been reached: the countdown starts. *)
Lemma commit_start prev s :
  depsChanged prev s = true ->
  detectionStatus s = locked -> autoCaptureEnabled s = true ->
  countdownInProgress s = false -> timeouts s = [] ->
  let s' := commit prev s in
  (exists h1 h2, timeouts s' = [timer1 h1 (now s); timer2 h2 (now s)]) /\
  countdown s' = Some 2 /\ countdownInProgress s' = true /\
  triggers s' = triggers s.
Proof.
  intros Hd Hl He Hp Ht.
  destruct (commit_changed prev s Hd) as (s3 & C & E). cbv zeta. rewrite E.
  destruct C as (Ct & Cr & Cn & Cst & Cen & Crd & Cip & Csr & Ccd & Cin & Can
                 & Cz & Cnow & Clog & Cau & Cstr & Cdr).
  destruct (countdownEffect_start s3)
    as (Kt & Kr & Kn & Kcd & Kip & Klog & _); try congruence.
  rewrite Ht in Ct. cbn in Ct. rewrite Ct, Cnow in Kt. cbn in Kt.
  repeat split; eauto.
  unfold triggers. rewrite Klog, Clog. destruct (audioContextRef s3); reflexivity.
Qed.

(** The effects when the lock is lost, or the feature disabled: a countdown
    in progress is cancelled, and nothing else is touched. *)
Lemma commit_cancel prev s :
  Shape s -> depsChanged prev s = true ->
  detectionStatus s <> locked ->
  let s' := commit prev s in
  timeouts s' = (if countdownInProgress s then [] else timeouts s) /\
  countdown s' = (if countdownInProgress s then None else countdown s) /\
  countdownInProgress s' = false /\
  log s' = log s.
Proof.
  intros HS Hd Hl.
  destruct (commit_changed prev s Hd) as (s3 & C & E). cbv zeta. rewrite E.
  destruct C as (Ct & Cr & Cn & Cst & Cen & Crd & Cip & Csr & Ccd & Cin & Can
                 & Cz & Cnow & Clog & Cau & Cstr & Cdr).
  destruct (countdownInProgress s) eqn:Ep.
  - destruct (countdownEffect_cancel s3)
      as (Kt & Kr & Kn & Kcd & Kip & Klog & _); try congruence.
    rewrite Cr in Kt. cbn in Kt.
    rewrite Ct, filter_keep_counting in Kt by assumption. cbn in Kt.
    repeat split; congruence.
  - rewrite countdownEffect_skip by (intros; congruence).
    rewrite Ct, filter_keep_idle by assumption.
    repeat split; congruence.
Qed.

Lemma analyzeFrame_begin_controls c d s : sameControls s (analyzeFrame_begin c d s).
Proof.
  unfold analyzeFrame_begin, sameControls.
  destruct (isAnalyzingRef s || negb (cl_enabled c)); [tauto|]. cbn.
  destruct (context2d s); cbn; [destruct d|]; cbn; tauto.
Qed.

Lemma analyzeFrame_resume_controls c a s : sameControls s (analyzeFrame_resume c a s).
Proof.
  unfold analyzeFrame_resume, sameControls, analyzeFrame_finally.
  destruct a as [r|]; [|cbn; tauto].
  assert (M : sameControls s (analyzeFrame_missed s)).
  { unfold analyzeFrame_missed, sameControls. rewrite clearSteady_eq. cbn. tauto. }
  destruct (success r); [destruct (box r) as [b|]|]; try exact M.
  unfold analyzeFrame_found. cbv zeta.
  assert (Hst : forall st, (if negb (status_eqb (cl_status c) locked)
                 then set_detectionStatus tracking st else st)
          = set_detectionStatus (if negb (status_eqb (cl_status c) locked)
                 then tracking else detectionStatus st) st).
  { intros st. destruct (negb _); destruct st; reflexivity. }
  rewrite Hst. rewrite (clearSteady_eq (set_zoom _ _)). cbn.
  destruct (countdownInProgress s) eqn:Ep; cbn; rewrite ?Ep; repeat split; reflexivity.
Qed.

Lemma handler_controls e s :
  e <> ToggleAutoCapture -> sameControls s (handler e s).
Proof.
  destruct e as [d|a|]; intros He; [| |congruence]; cbn.
  - destruct (intervals s) as [|[h c] l]; [unfold sameControls; tauto|].
    apply analyzeFrame_begin_controls.
  - destruct (inflight s) as [|c l]; [unfold sameControls; tauto|].
    destruct (analyzeFrame_resume_controls (captured c) a (set_inflight l s))
      as (A & B & C & D & E & F & G & H).
    repeat split; assumption.
Qed.

Lemma handleToggleAutoCapture_off s :
  Shape s -> autoCaptureEnabled s = true ->
  let s' := handleToggleAutoCapture s in
  timeouts s' = [] /\ countdown s' = None /\ countdownInProgress s' = false /\
  detectionStatus s' = idle /\ autoCaptureEnabled s' = false /\ log s' = log s.
Proof.
  intros HS En. unfold handleToggleAutoCapture. rewrite initAudioContext_eq. cbn.
  rewrite En. cbn. rewrite resetAutoCaptureState_eq, intervalCleanup_eq. cbn.
  unfold clearedSteady at 1. cbn. fold (clearedSteady s).
  rewrite clearedSteady_keep by assumption. repeat split; reflexivity.
Qed.

Lemma advance_idle t s : timeouts s = [] -> advance t s = set_now (Z.max (now s) t) s.
Proof. intros H. rewrite advance_step. unfold nextDue. rewrite H. reflexivity. Qed.

(* ---------- C8: the target zoom ---------- *)

Lemma clamp_inside x lo hi v :
  (lo <= v <= hi)%Q -> (x == v)%Q -> (clamp x lo hi == v)%Q.
Proof.
  intros Hv Hx. unfold clamp.
  destruct (Qle_bool lo x) eqn:E1.
  - destruct (Qle_bool x hi) eqn:E2; [exact Hx|].
    assert (~ (x <= hi)%Q) by (intros C; apply Qle_bool_iff in C; congruence). lra.
  - assert (~ (lo <= x)%Q) by (intros C; apply Qle_bool_iff in C; congruence). lra.
Qed.

Lemma newZoom_clamp b :
  (0 < xMax b - xMin b)%Q ->
  (newZoom b == clamp ((40 # 100) / (xMax b - xMin b)) 1 4)%Q.
Proof.
  intros Hw. unfold newZoom, clamp, Math_min, Math_max, targetBoxWidth.
  set (w := (xMax b - xMin b)%Q) in *.
  destruct (Qeq_bool w 0) eqn:E0.
  { apply Qeq_bool_iff in E0. lra. }
  set (q := ((40 # 100) / w)%Q).
  destruct (Qle_bool 1 q) eqn:E1; [|reflexivity].
  destruct (Qle_bool q 4) eqn:E2; reflexivity.
Qed.

Lemma analyzeFrame_found_zoom c r b s :
  zoom (analyzeFrame_found c r b s) = smooth (newZoom b) (zoom s).
Proof.
  unfold analyzeFrame_found. cbv zeta.
  rewrite (clearSteady_eq (set_zoom _ _)).
  destruct (negb (countdownInProgress _)); [unfold setTimeout; cbn|cbn].
  all: destruct (negb (status_eqb (cl_status c) locked)); reflexivity.
Qed.

Lemma smooth_compat t t' z : (t == t')%Q -> (smooth t z == smooth t' z)%Q.
Proof. unfold smooth. intros H. rewrite H. reflexivity. Qed.

(** C8. For every successful detection whose box has width
    [w = xMax - xMin > 0], the zoom target is [clamp (0.40 / w) 1 4], and it
    is the target the zoom is moved toward; a width of 0.40 gives the target
    1, a width of 0.10 the target 4. *)
Theorem C8_target_zoom (c : Closure) (r : IrisDetectionResult) (b : Box) (s : State) :
  success r = true -> box r = Some b -> (0 < xMax b - xMin b)%Q ->
  (newZoom b == clamp ((40 # 100) / (xMax b - xMin b)) 1 4)%Q /\
  (zoom (analyzeFrame_resume c (Resolved r) s)
   == smooth (clamp ((40 # 100) / (xMax b - xMin b)) 1 4) (zoom s))%Q /\
  ((xMax b - xMin b == 40 # 100)%Q -> (newZoom b == 1)%Q) /\
  ((xMax b - xMin b == 10 # 100)%Q -> (newZoom b == 4)%Q).
Proof.
  intros Hs Hb Hw. pose proof (newZoom_clamp b Hw) as Hc.
  split; [exact Hc|]. split.
  - unfold analyzeFrame_resume, analyzeFrame_finally. rewrite Hs, Hb. cbn.
    rewrite analyzeFrame_found_zoom. apply smooth_compat, Hc.
  - assert (Hq : ((40 # 100) / (xMax b - xMin b) * (xMax b - xMin b) == 40 # 100)%Q).
    { rewrite Qmult_comm. apply Qmult_div_r. lra. }
    set (q := ((40 # 100) / (xMax b - xMin b))%Q) in *.
    set (w := (xMax b - xMin b)%Q) in *.
    split; intros E; rewrite Hc; rewrite E in Hq.
    + assert (q == 1)%Q by lra. apply clamp_inside; lra.
    + assert (q == 4)%Q by lra. apply clamp_inside; lra.
Qed.

Lemma C8_target_zoom_witness :
  let b := boxOfWidth (3 # 10) (1 # 10) in
  let s := mounted [] (1920, 1080) true true in
  (newZoom b == 4)%Q /\
  (zoom (analyzeFrame_resume (currentClosure s)
           (Resolved {| success := true; box := Some b |}) s) == 16 # 10)%Q.
Proof.
  intros b s.
  destruct (C8_target_zoom (currentClosure s) {| success := true; box := Some b |}
              b s eq_refl eq_refl) as (H1 & H2 & H3 & H4).
  - reflexivity.
  - split.
    + apply H4. reflexivity.
    + rewrite H2. reflexivity.
Defined.

(* ---------- C9: the frame sent to the detection service ---------- *)

Lemma analysisHeight_div (vw vh : Z) :
  0 < vw -> analysisHeight (vw, vh) = (vh * 640) / vw.
Proof.
  intros Hw. unfold analysisHeight. cbn [fst snd].
  assert (E : (inject_Z vh / inject_Z vw * 640 == (vh * 640) # (Z.to_pos vw))%Q).
  { unfold Qeq, Qdiv, Qmult, Qinv, inject_Z. cbn.
    destruct vw as [|p|p]; try lia. cbn. lia. }
  rewrite E. unfold Qfloor. rewrite Z2Pos.id by lia. reflexivity.
Qed.

(** C9, as the code has it.  The frame handed to the detection call is 640
    pixels wide whatever the video is, its height follows the aspect ratio,
    and it is encoded at quality 0.8; so its longer edge is 640 for a
    landscape or square video, and is the height, at least 640, for a
    portrait one. *)
Theorem C9_frame_sent (c : Closure) (s : State) :
  isAnalyzingRef s = false -> cl_enabled c = true -> context2d s = true ->
  let f := {| jpegWidth := 640; jpegHeight := analysisHeight (video s);
              jpegQuality := 8 # 10 |} in
  inflight (analyzeFrame_begin c false s)
  = inflight s ++ [{| sent := f; captured := c |}] /\
  (0 < fst (video s) -> 0 <= snd (video s) <= fst (video s) ->
   Z.max (jpegWidth f) (jpegHeight f) = 640) /\
  (0 < fst (video s) <= snd (video s) ->
   Z.max (jpegWidth f) (jpegHeight f) = (snd (video s) * 640) / fst (video s)
   /\ 640 <= jpegHeight f).
Proof.
  intros Ha Hc Hx f. split; [|split].
  - unfold analyzeFrame_begin. rewrite Ha, Hc. cbn. rewrite Hx. reflexivity.
  - intros Hw Hh. subst f. cbn [jpegWidth jpegHeight].
    destruct (video s) as [vw vh]. cbn [fst snd] in *.
    rewrite analysisHeight_div by assumption.
    assert (vh * 640 / vw <= 640).
    { apply Z.div_le_upper_bound; lia. }
    lia.
  - intros Hw. subst f. cbn [jpegWidth jpegHeight].
    destruct (video s) as [vw vh]. cbn [fst snd] in *.
    rewrite analysisHeight_div by lia.
    assert (640 <= vh * 640 / vw).
    { apply Z.div_le_lower_bound; lia. }
    lia.
Qed.

Lemma C9_frame_sent_witness :
  let s := react ToggleAutoCapture (mounted [] (1920, 1080) true true) in
  map sent (inflight (analyzeFrame_begin (currentClosure s) false s))
  = [{| jpegWidth := 640; jpegHeight := 360; jpegQuality := 8 # 10 |}].
Proof.
  intros s.
  destruct (C9_frame_sent (currentClosure s) s eq_refl eq_refl eq_refl) as (H & _).
  rewrite H. reflexivity.
Defined.

(** C9 as stated fails for a portrait video: for a 1080 x 1920 camera the
    frame sent is 640 x 1137, longer edge 1137. *)
Lemma C9_counterexample :
  let s := run [(0, ToggleAutoCapture); (750, Tick false)]
               (mounted [] (1080, 1920) true true) in
  map sent (inflight s)
  = [{| jpegWidth := 640; jpegHeight := 1137; jpegQuality := 8 # 10 |}] /\
  ~ (Z.max 640 1137 <= 640).
Proof. split; [reflexivity|cbn; lia]. Qed.

(* ---------- C10: a capture ends the live preview ---------- *)

Lemma allEnded_stopped st : allEnded (option_map (map stopped) st) = true.
Proof.
  destruct st as [l|]; cbn; [|reflexivity].
  induction l; cbn; auto.
Qed.

Lemma trackId_stopped st :
  option_map (map trackId) (option_map (map stopped) st)
  = option_map (map trackId) st.
Proof.
  destruct st as [l|]; cbn; [|reflexivity].
  rewrite map_map. reflexivity.
Qed.

Lemma handleCapture_done s :
  cameraReady s = true -> context2d s = true ->
  captureDone s (handleCapture s) (now s) (log s).
Proof.
  intros Hr Hc. unfold captureDone. rewrite handleCapture_eq, Hr, Hc. cbn.
  repeat split; auto using allEnded_stopped, trackId_stopped.
Qed.

Lemma fire_CountdownFire tm s :
  task tm = CountdownFire ->
  fire tm s
  = set_countdownInProgress false
      (handleCapture
         (playBeep 880 200
            (set_countdown None
               (set_now (Z.max (now s) (due tm)) (clearTimeout (handle tm) s))))).
Proof.
  intros Hk. unfold fire. rewrite Hk. cbn [runTask].
  apply commit_same. apply depsChanged_false.
  rewrite handleCapture_eq, playBeep_eq. cbn.
  destruct (cameraReady s && context2d s); cbn; auto.
Qed.

(** C10. Every capture, from the shutter button ([handleCapture]) or from
    the last timeout of the countdown, hands the full-resolution frame to
    the callback and then stops every track of the camera stream. *)
Theorem C10_capture_stops_stream (s : State) :
  cameraReady s = true -> context2d s = true ->
  captureDone s (handleCapture s) (now s) (log s) /\
  forall tm, task tm = CountdownFire ->
    captureDone s (fire tm s) (Z.max (now s) (due tm))
      ((if audioContextRef s
        then [(Z.max (now s) (due tm), Beep 880 200)] else []) ++ log s).
Proof.
  intros Hr Hc. split; [apply handleCapture_done; auto|].
  intros tm Hk. rewrite (fire_CountdownFire tm s Hk).
  unfold captureDone. rewrite handleCapture_eq, playBeep_eq. cbn.
  rewrite Hr, Hc. cbn.
  repeat split; auto using allEnded_stopped, trackId_stopped.
  destruct (audioContextRef s); reflexivity.
Qed.

Lemma C10_capture_stops_stream_witness :
  stream (handleCapture
            (mounted [{| trackId := 7; ended := false |}] (1920, 1080) true true))
  = Some [{| trackId := 7; ended := true |}] /\
  allEnded (stream (handleCapture
            (mounted [{| trackId := 7; ended := false |}] (1920, 1080) true true)))
  = true.
Proof.
  split; [reflexivity|].
  apply (C10_capture_stops_stream
           (mounted [{| trackId := 7; ended := false |}] (1920, 1080) true true)
           eq_refl eq_refl).
Defined.

(* ---------- C6: one detection call at a time ---------- *)

Lemma depsChanged_same s : depsChanged s s = false.
Proof. apply depsChanged_false; auto. Qed.

Lemma react_Tick_busy d s : isAnalyzingRef s = true -> react (Tick d) s = s.
Proof.
  intros H. unfold react. cbn [handler].
  assert (E : match intervals s with
              | [] => s
              | (_, c) :: _ => analyzeFrame_begin c d s
              end = s).
  { destruct (intervals s) as [|[h c] l]; [reflexivity|].
    unfold analyzeFrame_begin. rewrite H. reflexivity. }
  rewrite E. apply commit_same, depsChanged_same.
Qed.

Lemma wf_flag s :
  wf s -> (length (inflight s) <= 1)%nat /\
          (isAnalyzingRef s = true <-> inflight s <> []).
Proof.
  intros [[_ _ _ Hi Ha _] _]. split; [exact Hi|].
  destruct (isAnalyzingRef s); split; intros H; try congruence.
  - intros E. apply Ha in E. discriminate.
  - exfalso. apply H, Ha. reflexivity.
Qed.

Lemma react_Settle_done a s :
  wf s -> isAnalyzingRef s = true ->
  isAnalyzingRef (react (Settle a) s) = false /\ inflight (react (Settle a) s) = [].
Proof.
  intros Hwf Hb.
  assert (E : isAnalyzingRef (react (Settle a) s) = false).
  { unfold react. destruct (commit_view s (handler (Settle a) s))
      as (_ & _ & _ & _ & _ & -> & _).
    cbn [handler]. destruct (inflight s) as [|c l] eqn:Ei.
    - apply wf_flag in Hwf. destruct Hwf as (_ & H). apply H in Hb. congruence.
    - reflexivity. }
  split; [exact E|].
  pose proof (wf_react (Settle a) s Hwf) as [[_ _ _ _ Ha _] _].
  apply Ha, E.
Qed.

(** C6. At most one detection call is outstanding: a tick that finds the
    in-flight flag set changes nothing and issues no call; the flag is set
    exactly while a call is awaited; and when the awaited call settles,
    however it settles, the flag is cleared and no call is left. *)
Theorem C6_single_flight :
  (forall s d, isAnalyzingRef s = true -> react (Tick d) s = s) /\
  (forall s a, wf s -> isAnalyzingRef s = true ->
     isAnalyzingRef (react (Settle a) s) = false /\
     inflight (react (Settle a) s) = []) /\
  (forall tr tracks v ctx audio,
     let s := run tr (mounted tracks v ctx audio) in
     (length (inflight s) <= 1)%nat /\
     (isAnalyzingRef s = true <-> inflight s <> [])).
Proof.
  split; [|split].
  - intros s d. apply react_Tick_busy.
  - intros s a. apply react_Settle_done.
  - intros tr tracks v ctx audio s. apply wf_flag, wf_run, wf_mounted.
Qed.

Lemma C6_single_flight_witness :
  let s := run [(0, ToggleAutoCapture); (750, Tick false)]
               (mounted [] (1920, 1080) true true) in
  isAnalyzingRef s = true /\ react (Tick false) s = s /\
  isAnalyzingRef (react (Settle Rejected) s) = false.
Proof.
  intros s. split; [reflexivity|]. split.
  - apply (proj1 C6_single_flight s false). reflexivity.
  - apply (proj1 (proj2 C6_single_flight) s Rejected).
    + apply wf_run, wf_mounted.
    + reflexivity.
Defined.

(* ---------- C7: zoom updates ---------- *)

Lemma zoomTarget_bounds r : (1 <= zoomTarget r <= 4)%Q.
Proof.
  unfold zoomTarget. destruct (success r); [destruct (box r)|]; try lra.
  apply newZoom_bounds.
Qed.

Lemma analyzeFrame_missed_zoom s : zoom (analyzeFrame_missed s) = smooth 1 (zoom s).
Proof. unfold analyzeFrame_missed. rewrite clearSteady_eq. reflexivity. Qed.

Lemma analyzeFrame_resume_zoom c r s :
  zoom (analyzeFrame_resume c (Resolved r) s) = smooth (zoomTarget r) (zoom s).
Proof.
  unfold analyzeFrame_resume, analyzeFrame_finally, zoomTarget.
  destruct (success r); [destruct (box r)|]; cbn [zoom set_isAnalyzingRef];
    rewrite ?analyzeFrame_found_zoom, ?analyzeFrame_missed_zoom; reflexivity.
Qed.

Lemma commit_zoom prev s : zoom (commit prev s) = zoom s.
Proof. apply commit_view. Qed.

Lemma react_Settle_unfold a s c l :
  inflight s = c :: l ->
  react (Settle a) s
  = commit s (analyzeFrame_resume (captured c) a (set_inflight l s)).
Proof. intros H. unfold react. cbn [handler]. rewrite H. reflexivity. Qed.

(** C7.  Starting from zoom 1, the zoom stays within [1, 4] along every
    run.  Every detection response, successful or failed (which is how an
    error of the detection call comes back), sets the zoom to
    [z + (target - z) * 0.2], where the target is [newZoom] of the box for a
    successful response with a box and 1 otherwise, itself within [1, 4]; the
    new zoom lies between the old zoom and the target, so that no update
    jumps. *)
Theorem C7_zoom_updates :
  (forall tr tracks v ctx audio,
     (1 <= zoom (run tr (mounted tracks v ctx audio)) <= 4)%Q) /\
  (forall s r, inflight s <> [] ->
     let z := zoom s in
     let z' := zoom (react (Settle (Resolved r)) s) in
     let target := match success r, box r with
                   | true, Some b => newZoom b
                   | _, _ => 1%Q
                   end in
     (1 <= target <= 4)%Q /\
     z' = (z + (target - z) * (2 # 10))%Q /\
     ((z <= target)%Q -> (z <= z' <= target)%Q) /\
     ((target <= z)%Q -> (target <= z' <= z)%Q)).
Proof.
  split.
  - intros tr tracks v ctx audio.
    pose proof (wf_run tr _ (wf_mounted tracks v ctx audio)) as [[_ _ _ _ _ Hz] _].
    exact Hz.
  - intros s r Hi z z' target.
    assert (Ht : target = zoomTarget r) by reflexivity.
    assert (Hz : z' = (z + (target - z) * (2 # 10))%Q).
    { subst z' z. destruct (inflight s) as [|c l] eqn:E; [congruence|].
      rewrite (react_Settle_unfold _ s c l E), commit_zoom.
      rewrite analyzeFrame_resume_zoom, Ht. reflexivity. }
    pose proof (zoomTarget_bounds r) as Hb. rewrite <- Ht in Hb.
    split; [exact Hb|]. split; [exact Hz|].
    rewrite Hz. split; intros H; lra.
Qed.

Lemma C7_zoom_updates_witness :
  (zoom (run lockedRun demo) == 16 # 10)%Q /\
  (zoom (react (Settle (Resolved (findEyeInFrame ApiRejects))) (run lockedRun demo))
   == 148 # 100)%Q /\
  (zoom (react (Settle (found (boxOfWidth (3 # 10) (1 # 10)))) (run lockedRun demo))
   == 208 # 100)%Q.
Proof.
  assert (Hi : inflight (run lockedRun demo) <> []) by (vm_compute; discriminate).
  assert (Z0 : (zoom (run lockedRun demo) == 16 # 10)%Q) by (vm_compute; reflexivity).
  split; [exact Z0|]. split.
  - destruct (proj2 C7_zoom_updates (run lockedRun demo)
                (findEyeInFrame ApiRejects) Hi) as (_ & H & _).
    rewrite H. cbn [findEyeInFrame success box]. rewrite Z0. reflexivity.
  - destruct (proj2 C7_zoom_updates (run lockedRun demo)
                {| success := true; box := Some (boxOfWidth (3 # 10) (1 # 10)) |}
                Hi) as (_ & H & _).
    unfold found. rewrite H. cbn [success box]. rewrite Z0.
    assert (N : (newZoom (boxOfWidth (3 # 10) (1 # 10)) == 4)%Q)
      by (vm_compute; reflexivity).
    rewrite N. reflexivity.
Defined.

(* ---------- C3, C2: responses without a usable box ---------- *)

Lemma findEyeInFrame_usable api :
  usable (findEyeInFrame api) = true <-> exists b, api = ApiJson true (Some b).
Proof.
  destruct api as [| |[|] [b|]]; cbn; split; intros H;
    try discriminate; try reflexivity; eauto;
    destruct H as (b' & H); discriminate.
Qed.

Lemma analyzeFrame_resume_unusable c r s :
  usable r = false ->
  analyzeFrame_resume c (Resolved r) s
  = analyzeFrame_finally (analyzeFrame_missed s).
Proof.
  unfold usable, analyzeFrame_resume.
  destruct (success r); [destruct (box r)|]; intros H; try discriminate; reflexivity.
Qed.

Lemma analyzeFrame_missed_status s : detectionStatus (analyzeFrame_missed s) = idle.
Proof. reflexivity. Qed.

(* ---------- reading the shape off the pending timeouts ---------- *)

Lemma shape_steady s h d :
  Shape s -> timeouts s = [steadyTimer h d] ->
  countdownInProgress s = false /\ steadyTimeoutRef s = Some h /\
  ~ In h (countdownTimeoutsRef s).
Proof.
  intros [A B|h' d' A B C D|T0 h1 h2 A B C D E F G|T0 h1 h2 A B C D E F G] H;
    rewrite B in H; try discriminate.
  injection H as <- <-. auto.
Qed.

Lemma shape_two s h1 h2 T0 :
  Shape s -> timeouts s = [timer1 h1 T0; timer2 h2 T0] ->
  countdownInProgress s = true /\ countdownTimeoutsRef s = [h1; h2] /\
  h1 <> h2 /\ steadyTimeoutRef s <> Some h1 /\ steadyTimeoutRef s <> Some h2.
Proof.
  intros [A B|h' d' A B C D|T0' a b A B C D E F G|T0' a b A B C D E F G] H;
    rewrite B in H; try discriminate.
  injection H as <- _ <-. auto.
Qed.

Lemma shape_one s h2 T0 :
  Shape s -> timeouts s = [timer2 h2 T0] ->
  countdownInProgress s = true /\
  (exists h1, countdownTimeoutsRef s = [h1; h2]) /\
  steadyTimeoutRef s <> Some h2.
Proof.
  intros [A B|h' d' A B C D|T0' a b A B C D E F G|T0' a b A B C D E F G] H;
    rewrite B in H; try discriminate.
  injection H as <- _. eauto.
Qed.

Lemma shape_counting s :
  Shape s -> countdownInProgress s = true ->
  forall h, steadyTimeoutRef s = Some h ->
  filter (fun tm => negb (Nat.eqb (handle tm) h)) (timeouts s) = timeouts s.
Proof.
  intros [A B|h' d' A B C D|T0' a b A B C D E F G|T0' a b A B C D E F G] P h Hr;
    try congruence; rewrite B; cbn.
  - rewrite (neq_Some_eqb _ a h Hr), (neq_Some_eqb _ b h Hr) by congruence.
    reflexivity.
  - rewrite (neq_Some_eqb _ b h Hr) by congruence. reflexivity.
Qed.

Lemma if_tracking (b : bool) st :
  (if b then set_detectionStatus tracking st else st)
  = set_detectionStatus (if b then tracking else detectionStatus st) st.
Proof. destruct b; destruct st; reflexivity. Qed.

(** During a countdown no sampling step touches the pending timeouts. *)
Lemma handler_timeouts_counting e s :
  Shape s -> countdownInProgress s = true -> e <> ToggleAutoCapture ->
  timeouts (handler e s) = timeouts s.
Proof.
  intros HS Hp He. destruct e as [d|a|]; [| |congruence]; cbn [handler].
  - destruct (intervals s) as [|[h c] l]; [reflexivity|].
    unfold analyzeFrame_begin.
    destruct (isAnalyzingRef s || negb (cl_enabled c)); [reflexivity|]. cbn.
    destruct (context2d s); cbn; [destruct d|]; reflexivity.
  - destruct (inflight s) as [|c l]; [reflexivity|].
    assert (K : clearedSteady s = timeouts s).
    { unfold clearedSteady. destruct (steadyTimeoutRef s) eqn:Er; [|reflexivity].
      apply shape_counting; auto. }
    unfold analyzeFrame_resume, analyzeFrame_finally.
    destruct a as [r|]; [|reflexivity].
    assert (M : timeouts (analyzeFrame_missed (set_inflight l s)) = timeouts s).
    { unfold analyzeFrame_missed. rewrite clearSteady_eq. exact K. }
    destruct (success r); [destruct (box r) as [b|]|]; cbn [timeouts set_isAnalyzingRef];
      try exact M.
    unfold analyzeFrame_found. cbv zeta.
    rewrite if_tracking, (clearSteady_eq (set_zoom _ _)). cbn.
    rewrite Hp. cbn. exact K.
Qed.

Lemma fire_status tm s :
  detectionStatus (fire tm s)
  = match task tm with SteadyLock => locked | _ => detectionStatus s end.
Proof.
  unfold fire. rewrite commit_status.
  destruct (task tm); cbn; rewrite ?playBeep_eq; try reflexivity.
  rewrite handleCapture_eq. destruct (_ && _); reflexivity.
Qed.

(** Time passing never takes the lock away. *)
Lemma advance_keeps_locked t s :
  detectionStatus s = locked -> detectionStatus (advance t s) = locked.
Proof.
  apply (advance_ind t (fun s s' =>
           detectionStatus s = locked -> detectionStatus s' = locked)); clear s.
  - intros s _ H. exact H.
  - intros s tm s' _ IH H. apply IH. rewrite fire_status, H.
    destruct (task tm); reflexivity.
Qed.

Lemma nextDue_single t s tm :
  timeouts s = [tm] ->
  nextDue t s = if due tm <=? t then Some tm else None.
Proof. intros H. unfold nextDue. rewrite H. reflexivity. Qed.

Lemma nextDue_two t s h1 h2 T0 :
  timeouts s = [timer1 h1 T0; timer2 h2 T0] ->
  nextDue t s = if T0 + 1000 <=? t then Some (timer1 h1 T0) else None.
Proof.
  intros H. unfold nextDue. rewrite H. cbn.
  destruct (Z.ltb_spec (T0 + 2000) (T0 + 1000)); [lia|]. reflexivity.
Qed.

(** The steadiness timeout fires in a state that is not locked, with
    auto-capture enabled: the countdown starts at that moment. *)
Lemma fire_steady_start s h d :
  wf s -> timeouts s = [steadyTimer h d] ->
  detectionStatus s <> locked -> autoCaptureEnabled s = true ->
  let s1 := fire (steadyTimer h d) s in
  let T := Z.max (now s) d in
  (exists h1 h2, timeouts s1 = [timer1 h1 T; timer2 h2 T]) /\
  countdown s1 = Some 2 /\ countdownInProgress s1 = true /\
  triggers s1 = triggers s /\ now s1 = T /\ detectionStatus s1 = locked.
Proof.
  intros [[HS _ _ _ _ _] _] Ht Hl He s1 T.
  destruct (shape_steady s h d HS Ht) as (Hp & Hr & _).
  subst s1. unfold fire. cbn [task steadyTimer handle due runTask].
  set (x := set_detectionStatus locked _).
  destruct (commit_start s x) as (A & B & C & D); subst x; cbn; auto.
  - destruct (depsChanged _ _) eqn:Ed; auto.
    apply depsChanged_false in Ed. cbn in Ed. destruct Ed as (_ & _ & Ed).
    congruence.
  - rewrite Ht. cbn. rewrite Nat.eqb_refl. reflexivity.
  - cbn in A. repeat split; auto.
    + rewrite commit_now. reflexivity.
    + rewrite commit_status. reflexivity.
Qed.

Lemma fire_timer1 s h1 h2 T0 :
  wf s -> timeouts s = [timer1 h1 T0; timer2 h2 T0] ->
  let s1 := fire (timer1 h1 T0) s in
  timeouts s1 = [timer2 h2 T0] /\ countdown s1 = Some 1 /\
  triggers s1 = triggers s /\ now s1 = Z.max (now s) (T0 + 1000).
Proof.
  intros [[HS _ _ _ _ _] _] Ht s1.
  destruct (shape_two s h1 h2 T0 HS Ht) as (Hp & Hc & Hn & _).
  subst s1. unfold fire. cbn [task timer1 handle due runTask].
  rewrite commit_same.
  2:{ apply depsChanged_false. rewrite playBeep_eq. cbn. auto. }
  rewrite playBeep_eq. cbn. rewrite Ht. cbn. rewrite Nat.eqb_refl.
  assert ((h2 =? h1)%nat = false) as -> by (apply Nat.eqb_neq; congruence).
  cbn. repeat split; auto.
  unfold triggers. cbn. destruct (audioContextRef s); reflexivity.
Qed.

Lemma fire_timer2 s h2 T0 :
  timeouts s = [timer2 h2 T0] ->
  let s1 := fire (timer2 h2 T0) s in
  let T := Z.max (now s) (T0 + 2000) in
  timeouts s1 = [] /\ countdown s1 = None /\ countdownInProgress s1 = false /\
  triggers s1 = (T, CaptureTrigger) :: triggers s /\ now s1 = T.
Proof.
  intros Ht s1 T. subst s1.
  rewrite fire_CountdownFire by reflexivity.
  rewrite handleCapture_eq, playBeep_eq. cbn.
  destruct (cameraReady s && context2d s); cbn; rewrite Ht; cbn;
    rewrite Nat.eqb_refl; cbn; repeat split; auto.
  - unfold triggers, stopLog. cbn. rewrite filter_app.
    assert (E : forall l : list Track,
              filter isTrigger
                (rev (map (fun t => (T, TrackStopped (trackId t))) l)) = []).
    { induction l as [|a l IH]; cbn; auto. rewrite filter_app, IH. reflexivity. }
    destruct (stream s); cbn; rewrite ?E; cbn;
      destruct (audioContextRef s); reflexivity.
  - unfold triggers. cbn. destruct (audioContextRef s); reflexivity.
Qed.

(* ---------- C1: a detection while the steadiness timeout is pending ---------- *)

Lemma analyzeFrame_found_restart c r b s h d :
  timeouts s = [steadyTimer h d] -> steadyTimeoutRef s = Some h ->
  countdownInProgress s = false ->
  let s1 := analyzeFrame_found c r b s in
  timeouts s1 = [steadyTimer (nextHandle s) (now s + 500)] /\
  steadyTimeoutRef s1 = Some (nextHandle s) /\
  countdownInProgress s1 = false /\
  (detectionStatus s1 = locked -> detectionStatus s = locked).
Proof.
  intros Ht Hr Hp. unfold analyzeFrame_found. cbv zeta.
  rewrite if_tracking, (clearSteady_eq (set_zoom _ _)). cbn.
  rewrite Hp, Hr, Ht. cbn. rewrite Nat.eqb_refl. cbn.
  repeat split; auto.
  destruct (negb _); [discriminate|auto].
Qed.

(** C1, as the code has it.  A successful detection that arrives while a
    steadiness timeout is pending cancels that timeout and starts a new one,
    due 500 ms after the arrival; the state is locked from then on if no
    further event comes in between. *)
Theorem C1_timer_restarted (s : State) (c : Call) (l : list Call)
    (r : IrisDetectionResult) (h : nat) (d : Z) :
  wf s -> inflight s = c :: l -> usable r = true ->
  timeouts s = [steadyTimer h d] ->
  let s' := react (Settle (Resolved r)) s in
  timeouts s' = [steadyTimer (nextHandle s) (now s + 500)] /\
  nextHandle s <> h /\
  steadyTimeoutRef s' = Some (nextHandle s) /\
  forall t, now s + 500 <= t -> detectionStatus (advance t s') = locked.
Proof.
  intros Hwf Hi Hu Ht s'.
  pose proof Hwf as [[HS Hs _ _ _ _] _].
  destruct (shape_steady s h d HS Ht) as (Hp & Hr & _).
  assert (Hb : exists b, analyzeFrame_resume (captured c) (Resolved r) (set_inflight l s)
                 = analyzeFrame_finally
                     (analyzeFrame_found (captured c) r b (set_inflight l s))).
  { unfold usable in Hu. unfold analyzeFrame_resume.
    destruct (success r); [destruct (box r) as [b|]|]; try discriminate. eauto. }
  destruct Hb as (b & Hb).
  destruct (analyzeFrame_found_restart (captured c) r b (set_inflight l s) h d)
    as (F1 & F2 & F3 & F4); auto.
  cbn in F1, F2, F4.
  set (X := set_isAnalyzingRef false
              (analyzeFrame_found (captured c) r b (set_inflight l s))) in *.
  assert (HX : handler (Settle (Resolved r)) s = X).
  { cbn [handler]. rewrite Hi, Hb. reflexivity. }
  destruct (handler_Post (Settle (Resolved r)) s Hwf) as ([HS1 _ _ _ _ _] & _).
  destruct (handler_controls (Settle (Resolved r)) s) as (_ & C2 & C3 & _);
    [discriminate|].
  rewrite HX in HS1, C2, C3.
  assert (E : timeouts s' = [steadyTimer (nextHandle s) (now s + 500)]
              /\ steadyTimeoutRef s' = Some (nextHandle s)).
  { subst s'. unfold react. rewrite HX. split.
    - destruct (depsChanged s X) eqn:Ed.
      + destruct (commit_cancel s X HS1 Ed) as (T & _).
        * intros Hl. assert (depsChanged s X = false); [|congruence].
          apply depsChanged_false. repeat split; auto.
          rewrite Hl. apply F4. exact Hl.
        * rewrite T. subst X. cbn. rewrite F3. exact F1.
      + rewrite commit_same by assumption. exact F1.
    - destruct (commit_view s X) as (_ & _ & _ & V & _).
      rewrite V. exact F2. }
  destruct E as (E1 & E2). repeat split; auto.
  - apply Hs in Hr. lia.
  - intros t Hle. rewrite advance_step, (nextDue_single t s' _ E1). cbn [due steadyTimer].
    destruct (Z.leb_spec (now s + 500) t); [|lia].
    apply advance_keeps_locked. rewrite fire_status. reflexivity.
Qed.

Lemma C1_timer_restarted_witness :
  timeouts (react (Settle (found (boxOfWidth (3 # 10) (1 # 10))))
              (advance 3200 (run staleRun demo)))
  = [steadyTimer 9 3700] /\
  detectionStatus
    (advance 3700 (react (Settle (found (boxOfWidth (3 # 10) (1 # 10))))
                     (advance 3200 (run staleRun demo)))) = locked.
Proof.
  destruct (C1_timer_restarted (advance 3200 (run staleRun demo))
              {| sent := {| jpegWidth := 640; jpegHeight := 360;
                            jpegQuality := 8 # 10 |};
                 captured := {| cl_enabled := true; cl_status := idle |} |}
              [] {| success := true; box := Some (boxOfWidth (3 # 10) (1 # 10)) |}
              8%nat 3400)
    as (H1 & _ & _ & H4).
  - apply wf_advance, wf_run, wf_mounted.
  - reflexivity.
  - reflexivity.
  - reflexivity.
  - split; [exact H1|]. apply H4. vm_compute. discriminate.
Defined.

(** C1 as stated fails: after [staleRun] the timeout due at 3400 is pending
    when an eye is found at 3200; that timeout is cancelled and replaced by
    one due at 3700, so at 3400 the state is still tracking; the lock comes at
    3700. *)
Lemma C1_counterexample :
  In (steadyTimer 8 3400) (timeouts (advance 3200 (run staleRun demo))) /\
  ~ In (steadyTimer 8 3400)
       (timeouts (react (Settle (found (boxOfWidth (3 # 10) (1 # 10))))
                    (advance 3200 (run staleRun demo)))) /\
  detectionStatus
    (advance 3400 (react (Settle (found (boxOfWidth (3 # 10) (1 # 10))))
                     (advance 3200 (run staleRun demo)))) = tracking /\
  detectionStatus
    (advance 3700 (react (Settle (found (boxOfWidth (3 # 10) (1 # 10))))
                     (advance 3200 (run staleRun demo)))) = locked.
Proof.
  split; [vm_compute; auto|].
  split; [vm_compute; intros [H|[]]; discriminate|].
  split; vm_compute; reflexivity.
Qed.

(* ---------- C5: cancelling a countdown ---------- *)



(* ---------- C4: the countdown ---------- *)

Arguments advance : simpl never.
Arguments react : simpl never.
Arguments fire : simpl never.

Lemma Counting_in_progress T0 base s :
  Counting T0 base s -> countdownInProgress s = true.
Proof.
  intros ([[HS _ _ _ _ _] _] & _ & _ & [((h1 & h2 & Ht) & _)|((h2 & Ht) & _)]).
  - apply (shape_two s h1 h2 T0 HS Ht).
  - apply (shape_one s h2 T0 HS Ht).
Qed.

Lemma Counting_advance T0 base s t :
  Counting T0 base s -> t < T0 + 2000 ->
  Counting T0 base (advance t s) /\ now (advance t s) = Z.max (now s) t.
Proof.
  intros (Hwf & Hb & Hn & H) Ht.
  destruct H as [((h1 & h2 & Hq) & Hc & Hlt)|((h2 & Hq) & Hc & Hlt)].
  - rewrite advance_step, (nextDue_two t s h1 h2 T0 Hq).
    destruct (Z.leb_spec (T0 + 1000) t).
    + destruct (fire_timer1 s h1 h2 T0 Hwf Hq) as (F1 & F2 & F3 & F4).
      pose proof (wf_fire (timer1 h1 T0) s Hwf) as Hwf1.
      rewrite Hq in Hwf1. cbn in Hwf1.
      destruct (Z.ltb_spec (T0 + 2000) (T0 + 1000)); [lia|].
      specialize (Hwf1 eq_refl).
      rewrite advance_step, (nextDue_single t _ _ F1). cbn [due timer2].
      destruct (Z.leb_spec (T0 + 2000) t); [lia|].
      split; [|cbn; rewrite F4; lia].
      split; [apply wf_set_now; auto|].
      split; [unfold triggers in *; cbn; congruence|].
      cbn. rewrite F4. split; [lia|].
      right. split; [eauto|]. split; [auto|lia].
    + split; [|reflexivity].
      split; [apply wf_set_now; auto|].
      split; [unfold triggers in *; cbn; congruence|].
      cbn. split; [lia|].
      left. split; [eauto|]. split; [auto|lia].
  - rewrite advance_step, (nextDue_single t s _ Hq). cbn [due timer2].
    destruct (Z.leb_spec (T0 + 2000) t); [lia|].
    split; [|reflexivity].
    split; [apply wf_set_now; auto|].
    split; [unfold triggers in *; cbn; congruence|].
    cbn. split; [lia|].
    right. split; [eauto|]. split; [auto|lia].
Qed.

Lemma Counting_react T0 base s e :
  Counting T0 base s -> quiet e s = true -> Counting T0 base (react e s).
Proof.
  intros HC Hq. pose proof (Counting_in_progress _ _ _ HC) as Hp.
  destruct HC as (Hwf & Hb & Hn & H).
  assert (He : e <> ToggleAutoCapture) by (intros ->; discriminate).
  assert (Hl : detectionStatus (react e s) = locked).
  { destruct e; try congruence; apply status_eqb_eq; exact Hq. }
  pose proof Hwf as [[HS _ _ _ _ _] Hlk]. destruct (Hlk Hp) as (Lk & En).
  destruct (handler_controls e s He) as (A & B & C & D & E & F & G & _).
  pose proof (handler_timeouts_counting e s HS Hp He) as Tq.
  assert (R : react e s = handler e s).
  { unfold react in *. rewrite commit_status in Hl.
    apply commit_same, depsChanged_false. repeat split; congruence. }
  split; [apply wf_react; auto|]. rewrite R.
  split; [unfold triggers in *; congruence|].
  split; [lia|]. rewrite Tq, D, G. exact H.
Qed.

Lemma Counting_finish T0 base s :
  Counting T0 base s ->
  let s' := advance (T0 + 2000) s in
  countdown s' = None /\ countdownInProgress s' = false /\
  triggers s' = (T0 + 2000, CaptureTrigger) :: base /\ timeouts s' = [].
Proof.
  intros (Hwf & Hb & Hn & H) s'. subst s'.
  assert (Fin : forall x h2, timeouts x = [timer2 h2 T0] -> now x < T0 + 2000 ->
            triggers x = base ->
            let x' := advance (T0 + 2000) x in
            countdown x' = None /\ countdownInProgress x' = false /\
            triggers x' = (T0 + 2000, CaptureTrigger) :: base /\ timeouts x' = []).
  { intros x h2 Hq Hx Hbx.
    cbv zeta. rewrite advance_step, (nextDue_single _ x _ Hq). cbn [due timer2].
    rewrite Z.leb_refl.
    destruct (fire_timer2 x h2 T0 Hq) as (F1 & F2 & F3 & F4 & F5).
    rewrite advance_idle by assumption. cbn.
    replace (Z.max (now x) (T0 + 2000)) with (T0 + 2000) in F4 by lia.
    unfold triggers in *. cbn. repeat split; congruence. }
  destruct H as [((h1 & h2 & Hq) & Hc & Hlt)|((h2 & Hq) & Hc & Hlt)].
  - rewrite advance_step, (nextDue_two _ s h1 h2 T0 Hq).
    destruct (Z.leb_spec (T0 + 1000) (T0 + 2000)); [|lia].
    destruct (fire_timer1 s h1 h2 T0 Hwf Hq) as (F1 & F2 & F3 & F4).
    apply (Fin _ h2 F1); [lia|congruence].
  - apply (Fin _ h2 Hq); [lia|congruence].
Qed.

(** The state reached when the steadiness timeout of [s] fires. *)
Lemma Counting_enter s h T0 :
  wf s -> timeouts s = [steadyTimer h T0] ->
  detectionStatus s <> locked -> autoCaptureEnabled s = true -> now s <= T0 ->
  Counting T0 (triggers s) (fire (steadyTimer h T0) s) /\
  now (fire (steadyTimer h T0) s) = T0 /\
  forall t, T0 <= t -> advance t s = advance t (fire (steadyTimer h T0) s).
Proof.
  intros Hwf Hq Hl He Hn.
  destruct (fire_steady_start s h T0 Hwf Hq Hl He) as (F1 & F2 & F3 & F4 & F5 & F6).
  replace (Z.max (now s) T0) with T0 in * by lia.
  split; [|split; [exact F5|]].
  - split.
    + apply wf_fire; auto. rewrite Hq. reflexivity.
    + split; [exact F4|]. split; [lia|]. left. split; [exact F1|]. split; [auto|lia].
  - intros t Ht. rewrite (advance_step t s), (nextDue_single t s _ Hq).
    cbn [due steadyTimer]. destruct (Z.leb_spec T0 t); [reflexivity|lia].
Qed.

Lemma react_now e s : e <> ToggleAutoCapture -> now (react e s) = now s.
Proof.
  intros He. unfold react. rewrite commit_now.
  destruct (handler_controls e s He) as (_ & _ & _ & _ & _ & _ & G & _). exact G.
Qed.

Lemma run_Counting T0 base tr : forall s hi,
  Counting T0 base s -> now s <= hi ->
  during T0 hi (T0 + 2000) tr -> quietRun tr s = true ->
  Counting T0 base (run tr s) /\ now (run tr s) <= hi.
Proof.
  induction tr as [|[t e] tr IH]; intros s hi HC Hn Hd Hq;
    cbn [run quietRun] in *; auto.
  apply andb_true_iff in Hq. destruct Hq as (Q1 & Q2).
  inversion Hd as [|x l (D1 & D2 & D3) Dl]; subst. cbn [fst] in *.
  destruct (Counting_advance T0 base s t HC D3) as (HA & Hnow).
  apply IH; auto.
  - apply Counting_react; auto.
  - rewrite react_now by (intros ->; discriminate). rewrite Hnow. lia.
Qed.

Lemma run_enter s s1 T0 hi tr t :
  (forall u, T0 <= u -> advance u s = advance u s1) ->
  during T0 hi (T0 + 2000) tr -> T0 <= t ->
  advance t (run tr s) = advance t (run tr s1) /\
  quietRun tr s = quietRun tr s1.
Proof.
  intros H Hd Ht. destruct tr as [|[u e] tr]; cbn.
  - auto.
  - inversion Hd as [|x l (D1 & D2 & D3) Dl]; subst. cbn in D1.
    rewrite (H u D1). auto.
Qed.

(** X23.  The countdown with the camera left alone.  When the steadiness
    timeout fires at [T0] in a state that is not locked, with auto-capture
    enabled, and every event before [T0 + 2000] is a tick or a detection
    result that neither drops the lock nor disables the feature, the
    countdown shows 2 from [T0], 1 from [T0 + 1000], and at [T0 + 2000] the
    capture is triggered, once, the display cleared and the in-progress guard
    released. *)
Theorem X23_countdown_undisturbed (s : State) (h : nat) (T0 : Z) (tr : list (Z * Event)) (t : Z) :
  wf s -> timeouts s = [steadyTimer h T0] ->
  detectionStatus s <> locked -> autoCaptureEnabled s = true -> now s <= T0 ->
  during T0 t (T0 + 2000) tr -> quietRun tr s = true -> T0 <= t ->
  let obs := advance t (run tr s) in
  (t < T0 + 1000 -> countdown obs = Some 2 /\ triggers obs = triggers s) /\
  (T0 + 1000 <= t < T0 + 2000 ->
   countdown obs = Some 1 /\ triggers obs = triggers s) /\
  (t = T0 + 2000 ->
   countdown obs = None /\ countdownInProgress obs = false /\
   triggers obs = (T0 + 2000, CaptureTrigger) :: triggers s).
Proof.
  intros Hwf Hq Hl He Hn Hd Hqr Ht obs.
  destruct (Counting_enter s h T0 Hwf Hq Hl He Hn) as (HC & Hnow & Hadv).
  destruct (run_enter s _ T0 t tr t Hadv Hd Ht) as (E1 & E2).
  subst obs. rewrite E1. rewrite E2 in Hqr.
  destruct (run_Counting T0 (triggers s) tr _ t HC ltac:(lia) Hd Hqr) as (HR & HnR).
  split; [|split].
  - intros Hlt.
    destruct (Counting_advance T0 _ _ t HR ltac:(lia)) as ((_ & Hb & _ & H) & Hm).
    split; [|exact Hb].
    destruct H as [(_ & Hc & _)|(_ & _ & Hx)]; [exact Hc|lia].
  - intros Hlt.
    destruct (Counting_advance T0 _ _ t HR ltac:(lia)) as ((_ & Hb & _ & H) & Hm).
    split; [|exact Hb].
    destruct H as [(_ & _ & Hx)|(_ & Hc & _)]; [lia|exact Hc].
  - intros ->.
    destruct (Counting_finish T0 _ _ HR) as (A & B & C & _). auto.
Qed.

Lemma X23_countdown_undisturbed_witness :
  countdown (advance 1500 (run [] trackingState)) = Some 2 /\
  countdown (advance 2600 (run quietTrace trackingState)) = Some 1 /\
  triggers (advance 3500 (run quietTrace trackingState))
  = (1500 + 2000, CaptureTrigger) :: triggers trackingState.
Proof.
  assert (Hwf : wf trackingState) by apply wf_run, wf_mounted.
  assert (H1 : timeouts trackingState = [steadyTimer 2 1500])
    by (vm_compute; reflexivity).
  assert (H2 : detectionStatus trackingState <> locked)
    by (vm_compute; discriminate).
  assert (H3 : autoCaptureEnabled trackingState = true)
    by (vm_compute; reflexivity).
  assert (H4 : now trackingState <= 1500) by (vm_compute; discriminate).
  assert (D : forall hi, 2500 <= hi -> during 1500 hi (1500 + 2000) quietTrace).
  { intros hi Hhi. repeat constructor; cbn [fst]; lia. }
  assert (D0 : during 1500 1500 (1500 + 2000) []) by constructor.
  assert (Q : quietRun quietTrace trackingState = true)
    by (vm_compute; reflexivity).
  destruct (X23_countdown_undisturbed trackingState 2%nat 1500 [] 1500 Hwf H1 H2 H3 H4 D0
              eq_refl ltac:(lia)) as (A & _).
  destruct (X23_countdown_undisturbed trackingState 2%nat 1500 quietTrace 2600 Hwf H1 H2 H3 H4
              (D 2600 ltac:(lia)) Q ltac:(lia)) as (_ & B & _).
  destruct (X23_countdown_undisturbed trackingState 2%nat 1500 quietTrace 3500 Hwf H1 H2 H3 H4
              (D 3500 ltac:(lia)) Q ltac:(lia)) as (_ & _ & C).
  split; [exact (proj1 (A ltac:(lia)))|].
  split; [exact (proj1 (B ltac:(lia)))|].
  exact (proj2 (proj2 (C eq_refl))).
Defined.

(* ---------- C4: a camera restart during the countdown ---------- *)

Lemma triggers_stopLog (T : Z) (l : list Track) (rest : list (Z * Output)) :
  filter isTrigger (rev (map (fun t => (T, TrackStopped (trackId t))) l) ++ rest)
  = filter isTrigger rest.
Proof.
  rewrite filter_app.
  replace (filter isTrigger (rev _)) with (@nil (Z * Output)); [reflexivity|].
  symmetry. induction l as [|x l IH]; [reflexivity|].
  cbn. rewrite filter_app, IH. reflexivity.
Qed.

Lemma cameraRestarted_counting (s : State) :
  wf s -> countdownInProgress s = true -> cameraReady s = true ->
  let s1 := cameraRestarted s in
  detectionStatus s1 = locked /\ autoCaptureEnabled s1 = true /\
  cameraReady s1 = false /\
  countdownInProgress s1 = true /\ countdown s1 = countdown s /\
  timeouts s1 = [] /\ triggers s1 = triggers s.
Proof.
  intros [[HS _ _ _ _ _] Hlk] Hp Hr s1. destruct (Hlk Hp) as (Lk & En).
  subst s1. unfold cameraRestarted.
  set (x := set_cameraReady false (stopStream s)).
  assert (X : timeouts x = timeouts s /\
              countdownTimeoutsRef x = countdownTimeoutsRef s /\
              detectionStatus x = detectionStatus s /\
              autoCaptureEnabled x = autoCaptureEnabled s /\
              countdownInProgress x = countdownInProgress s /\
              countdown x = countdown s /\ cameraReady x = false /\
              triggers x = triggers s).
  { subst x. rewrite stopStream_eq. unfold triggers.
    destruct (stream s) as [tracks|]; cbn; rewrite ?triggers_stopLog;
      repeat split; reflexivity. }
  destruct X as (Xt & Xc & Xs & Xe & Xp & Xd & Xr & Xg).
  assert (Ed : depsChanged s x = true).
  { destruct (depsChanged s x) eqn:Ed; [reflexivity|].
    apply depsChanged_false in Ed. destruct Ed as (_ & Ed & _). congruence. }
  destruct (commit_changed s x Ed) as (s3 & C & ->).
  destruct C as (Ct & Cr & Cn & Cst & Cen & Crd & Cip & Csr & Ccd & Cin & Can
                 & Cz & Cnow & Clog & Cau & Cstr & Cdr).
  rewrite countdownEffect_skip.
  - rewrite Cst, Cen, Crd, Cip, Ccd, Ct, Xt, Xc, Xs, Xe, Xp, Xd, Xr.
    unfold triggers in *. rewrite Clog, Xg.
    rewrite (filter_keep_counting s HS Hp). repeat split; assumption.
  - intros _. right. congruence.
  - intros H. congruence.
Qed.

(** C4 at the failing input.  A camera restart while a countdown is in
    progress (the camera is switched, or the language changes) re-creates
    [handleCapture]: the cleanup of the countdown effect cancels both
    countdown timeouts, and the effect starts none again because the
    in-progress guard is still set.  The state stays locked with the feature
    enabled, the display keeps its number, the guard stays set, no timeout is
    pending, and from then on the mere passing of time triggers no capture
    and changes nothing. *)
Theorem C4_camera_restart_stalls_countdown (s : State) :
  wf s -> countdownInProgress s = true -> cameraReady s = true ->
  let s1 := cameraRestarted s in
  detectionStatus s1 = locked /\ autoCaptureEnabled s1 = true /\
  countdownInProgress s1 = true /\ countdown s1 = countdown s /\
  timeouts s1 = [] /\
  forall t, triggers (advance t s1) = triggers s /\
            countdown (advance t s1) = countdown s /\
            countdownInProgress (advance t s1) = true.
Proof.
  intros Hwf Hp Hr s1.
  destruct (cameraRestarted_counting s Hwf Hp Hr) as (A & B & _ & C & D & E & F).
  fold s1 in A, B, C, D, E, F.
  repeat split; try assumption;
    rewrite (advance_idle t s1 E); cbn; assumption.
Qed.

Lemma C4_camera_restart_stalls_countdown_witness :
  detectionStatus countingState = locked /\
  countdown countingState = Some 2 /\
  triggers (advance 3500 countingState) = [(3500, CaptureTrigger)] /\
  countdown (advance 3500 (cameraRestarted countingState)) = Some 2 /\
  triggers (advance 3500 (cameraRestarted countingState)) = [] /\
  countdownInProgress
    (cameraLoaded (cameraGranted [{| trackId := 9; ended := false |}]
                     (advance 2600 (cameraRestarted countingState)))) = true /\
  timeouts
    (cameraLoaded (cameraGranted [{| trackId := 9; ended := false |}]
                     (advance 2600 (cameraRestarted countingState)))) = [] /\
  triggers
    (advance 60000
       (cameraLoaded (cameraGranted [{| trackId := 9; ended := false |}]
                        (advance 2600 (cameraRestarted countingState))))) = [].
Proof.
  destruct (C4_camera_restart_stalls_countdown countingState)
    as (_ & _ & _ & _ & _ & H).
  - apply wf_advance, wf_run, wf_mounted.
  - vm_compute. reflexivity.
  - vm_compute. reflexivity.
  - destruct (H 3500) as (T & C & _).
    split; [vm_compute; reflexivity|]. split; [vm_compute; reflexivity|].
    split; [vm_compute; reflexivity|].
    split; [rewrite C; vm_compute; reflexivity|].
    split; [rewrite T; vm_compute; reflexivity|].
    vm_compute. repeat split; reflexivity.
Defined.

Lemma clearedSteady_idle s :
  Shape s -> countdownInProgress s = false -> clearedSteady s = [].
Proof.
  unfold clearedSteady.
  intros [A B|h d A B C D|T0 h1 h2 A B C D E F G|T0 h1 h2 A B C D E F G] P;
    try congruence; rewrite B.
  - destruct (steadyTimeoutRef s); reflexivity.
  - rewrite C. cbn. rewrite Nat.eqb_refl. reflexivity.
Qed.

(** What a response without a usable box leaves. *)
Lemma react_unusable (s : State) (c : Call) (l : list Call)
    (r : IrisDetectionResult) :
  wf s -> inflight s = c :: l -> usable r = false ->
  react (Settle (Resolved r)) s
  = commit s (analyzeFrame_finally (analyzeFrame_missed (set_inflight l s))) /\
  detectionStatus (react (Settle (Resolved r)) s) = idle /\
  detectionResult (react (Settle (Resolved r)) s) = None /\
  countdownInProgress (react (Settle (Resolved r)) s) = false /\
  timeouts (react (Settle (Resolved r)) s) = [] /\
  isAnalyzingRef (react (Settle (Resolved r)) s) = false /\
  zoom (react (Settle (Resolved r)) s) = (zoom s + (1 - zoom s) * (2 # 10))%Q /\
  log (react (Settle (Resolved r)) s) = log s.
Proof.
  intros Hwf Hi Hu.
  pose proof Hwf as [[HS _ _ _ _ _] Hp].
  rewrite (react_Settle_unfold _ s c l Hi).
  rewrite analyzeFrame_resume_unusable by assumption.
  split; [reflexivity|].
  set (X := analyzeFrame_finally (analyzeFrame_missed (set_inflight l s))).
  assert (HX : handler (Settle (Resolved r)) s = X).
  { cbn [handler]. rewrite Hi, analyzeFrame_resume_unusable by assumption.
    reflexivity. }
  destruct (handler_Post (Settle (Resolved r)) s Hwf) as ([HS1 _ _ _ _ _] & _).
  rewrite HX in HS1.
  assert (Xs : detectionStatus X = idle) by reflexivity.
  assert (Xr : detectionResult X = None) by reflexivity.
  assert (Xa : isAnalyzingRef X = false) by reflexivity.
  assert (Xz : zoom X = (zoom s + (1 - zoom s) * (2 # 10))%Q).
  { subst X. unfold analyzeFrame_finally. cbn [zoom set_isAnalyzingRef].
    rewrite analyzeFrame_missed_zoom. reflexivity. }
  assert (Xp : countdownInProgress X = countdownInProgress s /\
               timeouts X = clearedSteady s /\ log X = log s).
  { subst X. unfold analyzeFrame_finally, analyzeFrame_missed.
    rewrite clearSteady_eq. repeat split; reflexivity. }
  destruct Xp as (Xp & Xt & Xl).
  destruct (commit_view s X) as (V1 & _ & _ & _ & _ & V6 & V7 & _ & _ & V10).
  rewrite V1, V6, V7, V10, Xs, Xr, Xa, Xz.
  destruct (depsChanged s X) eqn:Ed.
  - destruct (commit_cancel s X HS1 Ed) as (T & _ & I & L); [congruence|].
    repeat split; auto; [|congruence]. rewrite T, Xp.
    destruct (countdownInProgress s) eqn:P; [reflexivity|].
    rewrite Xt. apply clearedSteady_idle; auto.
  - rewrite commit_same by assumption.
    apply depsChanged_false in Ed. destruct Ed as (_ & _ & Ed).
    assert (P : countdownInProgress s = false).
    { destruct (countdownInProgress s) eqn:P; auto.
      destruct (Hp eq_refl). congruence. }
    repeat split; auto; [congruence|].
    rewrite Xt. apply clearedSteady_idle; auto.
Qed.

(** C3.  An error of the detection call (the request is rejected, or the
    reply is not JSON) comes back from [findEyeInFrame] as a failed response,
    and the sampling step handles it as it handles any response without a
    usable box: the state it leaves is the same state, with the tracking
    state idle, the cached result dropped, the zoom moved by the same rule
    (toward 1), every pending timeout cancelled and the in-flight flag
    cleared. *)
Theorem C3_error_handling (s : State) (c : Call) (l : list Call)
    (api : ApiReply) (r : IrisDetectionResult) :
  wf s -> inflight s = c :: l ->
  api = ApiRejects \/ api = ApiBadJson -> usable r = false ->
  let err := react (Settle (Resolved (findEyeInFrame api))) s in
  let nobox := react (Settle (Resolved r)) s in
  success (findEyeInFrame api) = false /\
  err = nobox /\
  detectionStatus err = idle /\ detectionResult err = None /\
  zoom err = (zoom s + (1 - zoom s) * (2 # 10))%Q /\
  timeouts err = [] /\ isAnalyzingRef err = false.
Proof.
  intros Hwf Hi Ha Hu err nobox.
  assert (He : usable (findEyeInFrame api) = false)
    by (destruct Ha as [-> | ->]; reflexivity).
  destruct (react_unusable s c l (findEyeInFrame api) Hwf Hi He)
    as (E1 & S1 & R1 & _ & T1 & A1 & Z1 & _).
  destruct (react_unusable s c l r Hwf Hi Hu) as (E2 & _).
  subst err nobox.
  split; [destruct Ha as [-> | ->]; reflexivity|].
  split; [congruence|]. repeat split; assumption.
Qed.

Lemma C3_error_handling_witness :
  react (Settle (Resolved (findEyeInFrame ApiRejects))) (run lockedRun demo)
  = react (Settle (Resolved (findEyeInFrame (ApiJson false None))))
      (run lockedRun demo) /\
  detectionStatus
    (react (Settle (Resolved (findEyeInFrame ApiRejects))) (run lockedRun demo))
  = idle.
Proof.
  destruct (C3_error_handling (run lockedRun demo)
              {| sent := {| jpegWidth := 640; jpegHeight := 360;
                            jpegQuality := 8 # 10 |};
                 captured := {| cl_enabled := true; cl_status := locked |} |} []
              ApiRejects (findEyeInFrame (ApiJson false None)))
    as (_ & E & S & _).
  - apply wf_run, wf_mounted.
  - vm_compute. reflexivity.
  - left. reflexivity.
  - reflexivity.
  - split; [exact E|exact S].
Defined.

(** C2.  Every detection outcome without a usable box, that is a response
    with no box, a failed response, or an error of the detection call (which
    comes back as a failed response), cancels the pending steadiness timeout
    and sets the state to idle whatever the state was, locked included: no
    steadiness timeout and no other timeout is left pending, and the state is
    idle from then on, with no capture, for as long as nothing else
    happens. *)
Theorem C2_no_box_drops_to_idle :
  (forall api, (forall b, api <> ApiJson true (Some b)) ->
     usable (findEyeInFrame api) = false) /\
  (forall s c l r, wf s -> inflight s = c :: l -> usable r = false ->
     let s' := react (Settle (Resolved r)) s in
     detectionStatus s' = idle /\
     (forall tm, In tm (timeouts s') -> task tm <> SteadyLock) /\
     timeouts s' = [] /\
     forall t, detectionStatus (advance t s') = idle /\
               triggers (advance t s') = triggers s).
Proof.
  split.
  - intros api H. destruct (usable (findEyeInFrame api)) eqn:E; [|reflexivity].
    apply findEyeInFrame_usable in E. destruct E as (b & E). destruct (H b E).
  - intros s c l r Hwf Hi Hu s'.
    destruct (react_unusable s c l r Hwf Hi Hu) as (_ & S & _ & _ & T & _ & _ & L).
    fold s' in S, T, L.
    split; [exact S|]. split; [rewrite T; intros tm []|]. split; [exact T|].
    intros t. rewrite (advance_idle t s' T). unfold triggers. cbn.
    rewrite L. auto.
Qed.

Lemma C2_no_box_drops_to_idle_witness :
  timeouts (advance 3200 (run staleRun demo)) = [steadyTimer 8 3400] /\
  timeouts (react (Settle (Resolved (findEyeInFrame ApiRejects)))
              (advance 3200 (run staleRun demo))) = [] /\
  detectionStatus (run lockedRun demo) = locked /\
  detectionStatus (react (Settle (Resolved (findEyeInFrame ApiBadJson)))
                     (run lockedRun demo)) = idle.
Proof.
  destruct C2_no_box_drops_to_idle as [U H].
  split; [vm_compute; reflexivity|]. split; [|split; [vm_compute; reflexivity|]].
  - destruct (H (advance 3200 (run staleRun demo))
                {| sent := {| jpegWidth := 640; jpegHeight := 360;
                              jpegQuality := 8 # 10 |};
                   captured := {| cl_enabled := true; cl_status := idle |} |} []
                (findEyeInFrame ApiRejects)) as (_ & _ & T & _).
    + apply wf_advance, wf_run, wf_mounted.
    + vm_compute. reflexivity.
    + apply U. discriminate.
    + exact T.
  - destruct (H (run lockedRun demo)
                {| sent := {| jpegWidth := 640; jpegHeight := 360;
                              jpegQuality := 8 # 10 |};
                   captured := {| cl_enabled := true; cl_status := locked |} |} []
                (findEyeInFrame ApiBadJson)) as (S & _).
    + apply wf_run, wf_mounted.
    + vm_compute. reflexivity.
    + apply U. discriminate.
    + exact S.
Defined.

(* ================================================================== *)
(** * Further properties of the auto-capture logic *)
(* ================================================================== *)

Lemma Shape_facts s :
  Shape s ->
  (length (timeouts s) <= 2)%nat /\
  (forall tm, In tm (timeouts s) -> task tm = SteadyLock ->
     steadyTimeoutRef s = Some (handle tm) /\ timeouts s = [tm]
     /\ countdownInProgress s = false) /\
  (forall tm, In tm (timeouts s) -> task tm <> SteadyLock ->
     countdownInProgress s = true /\ In (handle tm) (countdownTimeoutsRef s)) /\
  (countdownInProgress s = true -> countdown s <> None /\ timeouts s <> []).
Proof.
  intros [A B|h d A B C D|T0 h1 h2 A B C D E F G|T0 h1 h2 A B C D E F G];
    rewrite B; (split; [cbn; lia|]); (split; [|split]);
    try (intros tm Hin Hk; cbn in Hin;
         repeat (destruct Hin as [<-|Hin]); try destruct Hin; cbn in *;
         try congruence; try rewrite C; cbn; auto);
    try (intros P; split; congruence).
Qed.

(** X1. The timer bookkeeping along every run, at any later time: at most
    two timeouts are pending; a pending steadiness timeout is the only
    pending timeout, is the one [steadyTimeoutRef] names, and none is pending
    during a countdown; a pending countdown timeout is listed in
    [countdownTimeoutsRef]; and a countdown is in progress only while the
    state is locked and auto-capture enabled, with a number displayed. *)
Theorem X1_timer_bookkeeping (tr : list (Z * Event)) (t : Z)
    (tracks : list Track) (v : Z * Z) (ctx audio : bool) :
  let s := advance t (run tr (mounted tracks v ctx audio)) in
  (length (timeouts s) <= 2)%nat /\
  (forall tm, In tm (timeouts s) -> task tm = SteadyLock ->
     steadyTimeoutRef s = Some (handle tm) /\ timeouts s = [tm]
     /\ countdownInProgress s = false) /\
  (forall tm, In tm (timeouts s) -> task tm <> SteadyLock ->
     countdownInProgress s = true /\ In (handle tm) (countdownTimeoutsRef s)) /\
  (countdownInProgress s = true ->
     detectionStatus s = locked /\ autoCaptureEnabled s = true /\
     countdown s <> None /\ timeouts s <> []).
Proof.
  intros s.
  assert (Hwf : wf s) by apply wf_advance, wf_run, wf_mounted.
  destruct Hwf as [[HS _ _ _ _ _] Hp].
  destruct (Shape_facts s HS) as (A & B & C & D).
  split; [exact A|]. split; [exact B|]. split; [exact C|].
  intros P. destruct (Hp P). destruct (D P). auto.
Qed.

Lemma X1_timer_bookkeeping_witness :
  steadyTimeoutRef (advance 1200 trackingState) = Some 2%nat /\
  timeouts (advance 1200 trackingState) = [steadyTimer 2 1500].
Proof.
  destruct (X1_timer_bookkeeping
              [(0, ToggleAutoCapture); (750, Tick false);
               (1000, Settle (found (boxOfWidth (3 # 10) (1 # 10))))]
              1200 [{| trackId := 7; ended := false |}] (1920, 1080) true true)
    as (_ & B & _).
  destruct (B (steadyTimer 2 1500)) as (B1 & B2 & _).
  - vm_compute. auto.
  - reflexivity.
  - split; [exact B1|exact B2].
Defined.

(** X2. Only the steadiness timeout locks: no tick, settled call or toggle
    takes the state to locked from another state. *)
Theorem X2_events_never_lock (e : Event) (s : State) :
  wf s -> detectionStatus (react e s) = locked -> detectionStatus s = locked.
Proof.
  intros Hwf H. destruct (handler_Post e s Hwf) as (_ & _ & _ & L).
  unfold react in H. rewrite commit_status in H. apply L, H.
Qed.

Lemma X2_events_never_lock_witness :
  detectionStatus (run lockedRun demo) = locked.
Proof.
  apply (X2_events_never_lock (Tick false) (run lockedRun demo)).
  - apply wf_run, wf_mounted.
  - vm_compute. reflexivity.
Defined.

(** X3. A response without a usable box drops everything: whatever the state
    was, the state is idle afterwards, the cached result is gone, no
    countdown is in progress and no timeout at all is left pending. *)
Theorem X3_no_box_clears_everything (s : State) (c : Call) (l : list Call)
    (r : IrisDetectionResult) :
  wf s -> inflight s = c :: l -> usable r = false ->
  let s' := react (Settle (Resolved r)) s in
  detectionStatus s' = idle /\ detectionResult s' = None /\
  countdownInProgress s' = false /\ timeouts s' = [].
Proof.
  intros Hwf Hi Hu s'. subst s'.
  pose proof Hwf as [[HS _ _ _ _ _] Hp].
  rewrite (react_Settle_unfold _ s c l Hi).
  rewrite analyzeFrame_resume_unusable by assumption.
  set (X := analyzeFrame_finally (analyzeFrame_missed (set_inflight l s))).
  assert (HX : handler (Settle (Resolved r)) s = X).
  { cbn [handler]. rewrite Hi, analyzeFrame_resume_unusable by assumption.
    reflexivity. }
  destruct (handler_Post (Settle (Resolved r)) s Hwf) as ([HS1 _ _ _ _ _] & _).
  rewrite HX in HS1.
  assert (Xs : detectionStatus X = idle) by reflexivity.
  assert (Xr : detectionResult X = None) by reflexivity.
  assert (Xp : countdownInProgress X = countdownInProgress s).
  { subst X. unfold analyzeFrame_finally, analyzeFrame_missed.
    rewrite clearSteady_eq. reflexivity. }
  assert (Xt : timeouts X = clearedSteady s).
  { subst X. unfold analyzeFrame_finally, analyzeFrame_missed.
    rewrite clearSteady_eq. reflexivity. }
  destruct (commit_view s X) as (V1 & _ & _ & _ & _ & _ & _ & _ & _ & V10).
  rewrite V1, V10, Xs, Xr.
  destruct (depsChanged s X) eqn:Ed.
  - destruct (commit_cancel s X HS1 Ed) as (T & _ & I & _); [congruence|].
    repeat split; auto. rewrite T, Xp.
    destruct (countdownInProgress s) eqn:P; [reflexivity|].
    rewrite Xt. apply clearedSteady_idle; auto.
  - rewrite commit_same by assumption.
    apply depsChanged_false in Ed. destruct Ed as (_ & _ & Ed).
    assert (P : countdownInProgress s = false).
    { destruct (countdownInProgress s) eqn:P; auto.
      destruct (Hp eq_refl). congruence. }
    repeat split; auto; [congruence|].
    rewrite Xt. apply clearedSteady_idle; auto.
Qed.

Lemma X3_no_box_clears_everything_witness :
  timeouts (react (Settle (Resolved (findEyeInFrame ApiRejects)))
              (advance 3200 (run staleRun demo))) = [].
Proof.
  apply (X3_no_box_clears_everything (advance 3200 (run staleRun demo))
           {| sent := {| jpegWidth := 640; jpegHeight := 360;
                         jpegQuality := 8 # 10 |};
              captured := {| cl_enabled := true; cl_status := idle |} |} []
           (findEyeInFrame ApiRejects)).
  - apply wf_advance, wf_run, wf_mounted.
  - vm_compute. reflexivity.
  - reflexivity.
Defined.

Lemma sameRig_refl s : sameRig s s.
Proof. unfold sameRig. tauto. Qed.

Lemma analyzeFrame_begin_rig c d s : sameRig s (analyzeFrame_begin c d s).
Proof.
  unfold analyzeFrame_begin, sameRig.
  destruct (isAnalyzingRef s || negb (cl_enabled c)); [tauto|]. cbn.
  destruct (context2d s) eqn:Ec; cbn; [destruct d|]; cbn; rewrite ?Ec; tauto.
Qed.

Lemma analyzeFrame_resume_rig c a s : sameRig s (analyzeFrame_resume c a s).
Proof.
  unfold analyzeFrame_resume, sameRig, analyzeFrame_finally.
  destruct a as [r|]; [|cbn; tauto].
  assert (M : sameRig s (analyzeFrame_missed s)).
  { unfold analyzeFrame_missed, sameRig. rewrite clearSteady_eq. cbn. tauto. }
  destruct (success r); [destruct (box r) as [b|]|]; try exact M.
  unfold analyzeFrame_found. cbv zeta.
  rewrite if_tracking. rewrite (clearSteady_eq (set_zoom _ _)). cbn.
  destruct (countdownInProgress s) eqn:Ep; cbn; rewrite ?Ep; repeat split; reflexivity.
Qed.

Lemma handler_rig e s : e <> ToggleAutoCapture -> sameRig s (handler e s).
Proof.
  destruct e as [d|a|]; intros He; [| |congruence]; cbn.
  - destruct (intervals s) as [|[h c] l]; [apply sameRig_refl|].
    apply analyzeFrame_begin_rig.
  - destruct (inflight s) as [|c l]; [apply sameRig_refl|].
    destruct (analyzeFrame_resume_rig (captured c) a (set_inflight l s))
      as (A & B & C & D & E & F).
    repeat split; assumption.
Qed.

Lemma handleToggleAutoCapture_audio s :
  let s' := handleToggleAutoCapture s in
  log s' = log s /\
  audioContextRef s' = (audioContextRef s || audioSupported s) /\
  audioSupported s' = audioSupported s /\
  autoCaptureEnabled s' = negb (autoCaptureEnabled s) /\
  stream s' = stream s.
Proof.
  unfold handleToggleAutoCapture. cbv zeta. rewrite initAudioContext_eq. cbn.
  destruct (autoCaptureEnabled s); cbn; [|tauto].
  rewrite resetAutoCaptureState_eq. cbn. rewrite intervalCleanup_eq. cbn. tauto.
Qed.

Lemma countdownEffect_audio s :
  audioContextRef (countdownEffect s) = audioContextRef s /\
  audioSupported (countdownEffect s) = audioSupported s.
Proof.
  unfold countdownEffect.
  destruct (_ && _ && _); [rewrite playBeep_eq; cbn; tauto|].
  destruct (_ && _); [rewrite clearCountdownTimeouts_eq; cbn; tauto|tauto].
Qed.

Lemma commit_audio prev s :
  audioContextRef (commit prev s) = audioContextRef s /\
  audioSupported (commit prev s) = audioSupported s.
Proof.
  unfold commit. destruct (depsChanged prev s); [|tauto].
  destruct (countdownEffect_audio
              (intervalEffect (clearCountdownTimeouts (intervalCleanup s))))
    as [-> ->].
  rewrite intervalEffect_eq. cbn. rewrite clearCountdownTimeouts_eq. cbn.
  rewrite intervalCleanup_eq. cbn. tauto.
Qed.

(** What the effects add to the outputs: nothing, or the first tone of a
    countdown that starts. *)
Lemma commit_log prev s :
  log (commit prev s) = log s \/
  (audioContextRef s = true /\ detectionStatus s = locked /\
   autoCaptureEnabled s = true /\
   log (commit prev s) = (now s, Beep 440 100) :: log s).
Proof.
  destruct (depsChanged prev s) eqn:Ed; [|rewrite commit_same; auto].
  destruct (commit_changed prev s Ed) as (s3 & C & ->).
  destruct C as (_ & _ & _ & Cs & Ce & _ & Cp & _ & _ & _ & _ & _ & Cn & Cl & Ca & _).
  destruct (status_eqb (detectionStatus s3) locked) eqn:Es.
  - apply status_eqb_eq in Es.
    destruct (autoCaptureEnabled s3) eqn:Ee; [destruct (countdownInProgress s3) eqn:Ep|].
    + left. rewrite countdownEffect_skip; auto; congruence.
    + destruct (countdownEffect_start s3 Es Ee Ep)
        as (_ & _ & _ & _ & _ & L & _).
      rewrite L, Ca, Cn, Cl.
      destruct (audioContextRef s) eqn:Ea; [right|left; reflexivity].
      repeat split; congruence.
    + left. rewrite countdownEffect_skip; auto; congruence.
  - assert (Hn : detectionStatus s3 <> locked).
    { intros H. rewrite H in Es. discriminate. }
    left. destruct (countdownInProgress s3) eqn:Ep.
    + destruct (countdownEffect_cancel s3 Hn Ep) as (_ & _ & _ & _ & _ & L & _).
      congruence.
    + rewrite countdownEffect_skip; auto; congruence.
Qed.

Lemma commit_triggers prev s : triggers (commit prev s) = triggers s.
Proof.
  unfold triggers.
  destruct (commit_log prev s) as [->|(_ & _ & _ & ->)]; reflexivity.
Qed.

Lemma commit_log_disabled prev s :
  autoCaptureEnabled s = false -> log (commit prev s) = log s.
Proof.
  intros H. destruct (commit_log prev s) as [L|(_ & _ & E & _)]; congruence.
Qed.

Lemma react_log_disabled e s :
  e <> ToggleAutoCapture -> autoCaptureEnabled s = false ->
  log (react e s) = log s /\ autoCaptureEnabled (react e s) = false
  /\ stream (react e s) = stream s.
Proof.
  intros He Hd. unfold react.
  destruct (handler_controls e s He) as (_ & E & _ & _ & _ & L & _ & S).
  destruct (commit_view s (handler e s)) as (_ & V & _ & _ & _ & _ & _ & _ & VS & _).
  rewrite commit_log_disabled by congruence.
  repeat split; congruence.
Qed.

Lemma fire_steady_log tm s :
  task tm = SteadyLock ->
  log (fire tm s) = log s \/
  (audioContextRef s = true /\ autoCaptureEnabled s = true /\
   log (fire tm s) = (Z.max (now s) (due tm), Beep 440 100) :: log s).
Proof.
  intros Hk. unfold fire. rewrite Hk. cbn [runTask].
  set (s1 := set_detectionStatus locked _).
  destruct (commit_log s s1) as [L|(A & _ & E & L)]; [left|right]; rewrite L; auto.
Qed.

Lemma fire_enabled tm s : autoCaptureEnabled (fire tm s) = autoCaptureEnabled s.
Proof.
  unfold fire. rewrite commit_enabled.
  destruct (task tm); cbn; rewrite ?playBeep_eq; cbn; auto.
  rewrite handleCapture_eq. cbn. destruct (_ && _); reflexivity.
Qed.

Lemma fire_stream tm s : task tm <> CountdownFire -> stream (fire tm s) = stream s.
Proof.
  intros Hk. unfold fire.
  destruct (commit_view s (runTask (task tm)
      (set_now (Z.max (now s) (due tm)) (clearTimeout (handle tm) s))))
    as (_ & _ & _ & _ & _ & _ & _ & _ & -> & _).
  destruct (task tm); [| |congruence]; cbn; rewrite ?playBeep_eq; reflexivity.
Qed.

Lemma wf_disabled s :
  wf s -> autoCaptureEnabled s = false ->
  forall tm, In tm (timeouts s) -> task tm = SteadyLock.
Proof.
  intros [[HS _ _ _ _ _] Hp] Hd tm Hin.
  destruct (Shape_facts s HS) as (_ & _ & C & _).
  destruct (task tm) eqn:Ek; auto;
    (destruct (C tm Hin) as [P _]; [congruence|]; destruct (Hp P); congruence).
Qed.

Lemma advance_disabled t s :
  wf s -> autoCaptureEnabled s = false ->
  log (advance t s) = log s /\ autoCaptureEnabled (advance t s) = false /\
  stream (advance t s) = stream s.
Proof.
  revert s. apply (advance_ind t (fun s s' =>
    wf s -> autoCaptureEnabled s = false ->
    log s' = log s /\ autoCaptureEnabled s' = false /\ stream s' = stream s)).
  - intros s _ _ Hd. cbn. auto.
  - intros s tm s' Hn IH Hwf Hd.
    destruct (nextDue_Some t s tm Hn) as (He & Hin & _).
    pose proof (wf_disabled s Hwf Hd tm Hin) as Hk.
    destruct IH as (L & E & S).
    + apply wf_fire; assumption.
    + rewrite fire_enabled. assumption.
    + rewrite L, E, S. rewrite fire_stream by congruence.
      destruct (fire_steady_log tm s Hk) as [->|(_ & E' & _)]; [auto|congruence].
Qed.

(** X4. While auto-capture is switched off nothing comes out of the screen:
    no tick, no detection result (also one of a call issued before the
    switch-off, which still moves the state) and no pending timeout emits a
    tone, triggers a capture or stops the camera, however long it lasts. *)
Theorem X4_disabled_is_silent (s : State) (tr : list (Z * Event)) (t : Z) :
  wf s -> autoCaptureEnabled s = false -> noToggle tr ->
  let s' := advance t (run tr s) in
  log s' = log s /\ stream s' = stream s /\ autoCaptureEnabled s' = false.
Proof.
  intros Hwf Hd Htr. cbv zeta.
  assert (R : wf (run tr s) /\ log (run tr s) = log s /\
              stream (run tr s) = stream s /\
              autoCaptureEnabled (run tr s) = false).
  { revert s Hwf Hd. induction Htr as [|[t0 e] tr He Htr IH]; intros s Hwf Hd.
    - cbn. auto.
    - cbn [run]. cbn in He.
      destruct (advance_disabled t0 s Hwf Hd) as (L1 & E1 & S1).
      destruct (react_log_disabled e (advance t0 s) He E1) as (L2 & E2 & S2).
      destruct (IH (react e (advance t0 s))) as (W & L & S & E); auto.
      { apply wf_react, wf_advance, Hwf. }
      split; [exact W|]. repeat split; congruence. }
  destruct R as (W & L & S & E).
  destruct (advance_disabled t (run tr s) W E) as (L1 & E1 & S1).
  repeat split; congruence.
Qed.

Lemma X4_disabled_is_silent_witness :
  detectionStatus
    (advance 9000 (run [(2900, Settle (found (boxOfWidth (3 # 10) (1 # 10))))]
                     switchedOff)) = locked /\
  log (advance 9000 (run [(2900, Settle (found (boxOfWidth (3 # 10) (1 # 10))))]
                       switchedOff)) = log switchedOff.
Proof.
  split; [vm_compute; reflexivity|].
  apply (X4_disabled_is_silent switchedOff
           [(2900, Settle (found (boxOfWidth (3 # 10) (1 # 10))))] 9000).
  - apply wf_run, wf_mounted.
  - vm_compute. reflexivity.
  - repeat constructor; discriminate.
Defined.

Lemma handleToggleAutoCapture_triggers s :
  triggers (handleToggleAutoCapture s) = triggers s.
Proof.
  unfold triggers.
  destruct (handleToggleAutoCapture_audio s) as (-> & _). reflexivity.
Qed.

Lemma react_triggers e s : triggers (react e s) = triggers s.
Proof.
  unfold react. rewrite commit_triggers.
  destruct e as [d|a|]; [| |apply handleToggleAutoCapture_triggers];
    unfold triggers.
  - destruct (handler_controls (Tick d) s) as (_ & _ & _ & _ & _ & -> & _);
      [discriminate|reflexivity].
  - destruct (handler_controls (Settle a) s) as (_ & _ & _ & _ & _ & -> & _);
      [discriminate|reflexivity].
Qed.

Lemma fire_triggers_other tm s :
  task tm <> CountdownFire -> triggers (fire tm s) = triggers s.
Proof.
  intros Hk. unfold fire. rewrite commit_triggers. unfold triggers.
  destruct (task tm); [| |congruence]; cbn; rewrite ?playBeep_eq; cbn; auto.
  destruct (audioContextRef s); reflexivity.
Qed.

(** X5. Auto-capture reaches [handleCapture] in one way only.  No tick, no
    settled detection call and no toggle triggers a capture; a timeout that
    does is the last one of a countdown, and it fires in a state that is
    locked, with auto-capture enabled and the countdown in progress. *)
Theorem X5_capture_only_from_countdown (s : State) :
  wf s ->
  (forall e, triggers (react e s) = triggers s) /\
  (forall tm, In tm (timeouts s) -> triggers (fire tm s) <> triggers s ->
     task tm = CountdownFire /\ detectionStatus s = locked /\
     autoCaptureEnabled s = true /\ countdownInProgress s = true).
Proof.
  intros [[HS _ _ _ _ _] Hp]. split; [intros e; apply react_triggers|].
  intros tm Hin Hne.
  assert (Hk : task tm = CountdownFire).
  { destruct (task tm) eqn:Ek; auto;
      exfalso; apply Hne, fire_triggers_other; congruence. }
  destruct (Shape_facts s HS) as (_ & _ & C & _).
  destruct (C tm Hin) as [P _]; [congruence|].
  destruct (Hp P). auto.
Qed.

Lemma X5_capture_only_from_countdown_witness :
  detectionStatus (advance 3499 (run lockedRun demo)) = locked /\
  autoCaptureEnabled (advance 3499 (run lockedRun demo)) = true.
Proof.
  destruct (X5_capture_only_from_countdown (advance 3499 (run lockedRun demo)))
    as [_ H].
  - apply wf_advance, wf_run, wf_mounted.
  - destruct (H (timer2 6 1500)) as (_ & A & B & _).
    + vm_compute. auto.
    + vm_compute. discriminate.
    + split; [exact A|exact B].
Defined.



Lemma beeps_stopLog s l : filter isBeep (stopLog s ++ l) = filter isBeep l.
Proof.
  unfold stopLog. destruct (stream s) as [tracks|]; [|reflexivity].
  rewrite filter_app.
  replace (filter isBeep _) with (@nil (Z * Output)); [reflexivity|].
  symmetry. induction tracks as [|x tracks IH]; [reflexivity|].
  cbn. rewrite filter_app, IH. reflexivity.
Qed.





Lemma samplingOk_tidy s : samplingOk s -> tidy s.
Proof.
  unfold samplingOk, tidy. destruct (_ && _); [|auto].
  intros (h & A & B). right. eauto.
Qed.

Lemma countdownEffect_rig s :
  intervals (countdownEffect s) = intervals s /\
  analysisIntervalRef (countdownEffect s) = analysisIntervalRef s.
Proof.
  unfold countdownEffect.
  destruct (_ && _ && _); [rewrite playBeep_eq; cbn; tauto|].
  destruct (_ && _); [rewrite clearCountdownTimeouts_eq; cbn; tauto|tauto].
Qed.

Lemma commit_sampling prev s :
  tidy s -> (depsChanged prev s = false -> samplingOk s) ->
  samplingOk (commit prev s).
Proof.
  intros Ht Hs. destruct (depsChanged prev s) eqn:Ed;
    [|rewrite commit_same; auto].
  unfold samplingOk.
  destruct (commit_view prev s) as (Vs & Ve & Vc & _).
  unfold currentClosure. rewrite Vs, Ve, Vc.
  unfold commit. rewrite Ed.
  destruct (countdownEffect_rig
              (intervalEffect (clearCountdownTimeouts (intervalCleanup s))))
    as [-> ->].
  rewrite intervalEffect_eq. cbn. unfold intervalsAfter, currentClosure.
  rewrite clearCountdownTimeouts_eq. cbn. rewrite intervalCleanup_eq. cbn.
  assert (Hc : match analysisIntervalRef s with
               | Some h => filter (fun i => negb (Nat.eqb (fst i) h)) (intervals s)
               | None => intervals s
               end = []).
  { destruct Ht as [->|(h & c & -> & ->)].
    - destruct (analysisIntervalRef s); reflexivity.
    - cbn. rewrite Nat.eqb_refl. reflexivity. }
  rewrite Hc.
  destruct (autoCaptureEnabled s && cameraReady s).
  - eexists. split; reflexivity.
  - destruct (analysisIntervalRef s); reflexivity.
Qed.

Lemma samplingOk_ext s s' :
  autoCaptureEnabled s' = autoCaptureEnabled s ->
  cameraReady s' = cameraReady s ->
  detectionStatus s' = detectionStatus s ->
  intervals s' = intervals s ->
  analysisIntervalRef s' = analysisIntervalRef s ->
  samplingOk s -> samplingOk s'.
Proof.
  unfold samplingOk, currentClosure. intros -> -> -> -> ->. auto.
Qed.

Lemma tidy_ext s s' :
  intervals s' = intervals s ->
  analysisIntervalRef s' = analysisIntervalRef s ->
  tidy s -> tidy s'.
Proof. unfold tidy. intros -> ->. auto. Qed.

Lemma handleToggleAutoCapture_tidy s :
  tidy s -> tidy (handleToggleAutoCapture s).
Proof.
  intros Ht. unfold handleToggleAutoCapture. cbv zeta.
  rewrite initAudioContext_eq. cbn.
  destruct (autoCaptureEnabled s); cbn.
  - left. rewrite resetAutoCaptureState_eq. cbn. rewrite intervalCleanup_eq. cbn.
    destruct Ht as [->|(h & c & -> & ->)].
    + destruct (analysisIntervalRef s); reflexivity.
    + cbn. rewrite Nat.eqb_refl. reflexivity.
  - exact Ht.
Qed.

Lemma samplingOk_react e s : samplingOk s -> samplingOk (react e s).
Proof.
  intros Hs. unfold react. apply commit_sampling.
  - destruct e as [d|a|].
    + destruct (handler_rig (Tick d) s) as (_ & _ & I & R & _); [discriminate|].
      apply (tidy_ext s); auto using samplingOk_tidy.
    + destruct (handler_rig (Settle a) s) as (_ & _ & I & R & _); [discriminate|].
      apply (tidy_ext s); auto using samplingOk_tidy.
    + apply handleToggleAutoCapture_tidy, samplingOk_tidy, Hs.
  - intros Ed. apply depsChanged_false in Ed. destruct Ed as (E1 & E2 & E3).
    destruct e as [d|a|].
    + destruct (handler_rig (Tick d) s) as (_ & _ & I & R & _); [discriminate|].
      apply (samplingOk_ext s); auto.
    + destruct (handler_rig (Settle a) s) as (_ & _ & I & R & _); [discriminate|].
      apply (samplingOk_ext s); auto.
    + exfalso. cbn [handler] in E1.
      destruct (handleToggleAutoCapture_audio s) as (_ & _ & _ & E & _).
      rewrite E in E1. destruct (autoCaptureEnabled s); discriminate.
Qed.

Lemma runTask_rig k s :
  intervals (runTask k s) = intervals s /\
  analysisIntervalRef (runTask k s) = analysisIntervalRef s.
Proof.
  destruct k; cbn; rewrite ?playBeep_eq; cbn; auto.
  rewrite handleCapture_eq. cbn. destruct (_ && _); cbn; auto.
Qed.

Lemma samplingOk_fire tm s : samplingOk s -> samplingOk (fire tm s).
Proof.
  intros Hs. unfold fire.
  set (s0 := set_now _ _).
  destruct (runTask_rig (task tm) s0) as [I R].
  apply commit_sampling.
  - apply (tidy_ext s); auto using samplingOk_tidy.
  - intros Ed. apply depsChanged_false in Ed. destruct Ed as (E1 & E2 & E3).
    apply (samplingOk_ext s); auto.
Qed.

Lemma samplingOk_advance t s : samplingOk s -> samplingOk (advance t s).
Proof.
  revert s. apply (advance_ind t (fun s s' => samplingOk s -> samplingOk s')).
  - intros s _ H. exact H.
  - intros s tm s' _ IH H. apply IH, samplingOk_fire, H.
Qed.

Lemma samplingOk_run tr : forall s, samplingOk s -> samplingOk (run tr s).
Proof.
  induction tr as [|[t e] tr IH]; intros s H; [exact H|].
  cbn [run]. apply IH, samplingOk_react, samplingOk_advance, H.
Qed.







Lemma react_quiet_locked e s :
  wf s -> detectionStatus s = locked -> countdownInProgress s = false ->
  quiet e s = true ->
  detectionStatus (react e s) = locked /\ countdownInProgress (react e s) = false.
Proof.
  intros Hwf Hl Hp Hq.
  assert (He : e <> ToggleAutoCapture) by (destruct e; cbn in Hq; congruence).
  assert (Hs : detectionStatus (react e s) = locked).
  { destruct e; cbn in Hq; try congruence; apply status_eqb_eq, Hq. }
  split; [exact Hs|].
  unfold react in *. rewrite commit_status in Hs.
  destruct (handler_controls e s He) as (P & E & C & _).
  rewrite commit_same; [congruence|].
  apply depsChanged_false. repeat split; congruence.
Qed.

Lemma fire_locked_idle tm s :
  wf s -> detectionStatus s = locked -> countdownInProgress s = false ->
  In tm (timeouts s) ->
  detectionStatus (fire tm s) = locked /\ countdownInProgress (fire tm s) = false
  /\ triggers (fire tm s) = triggers s.
Proof.
  intros [[HS _ _ _ _ _] _] Hl Hp Hin.
  destruct (Shape_facts s HS) as (_ & _ & C & _).
  assert (Hk : task tm = SteadyLock).
  { destruct (task tm) eqn:Ek; auto; destruct (C tm Hin); congruence. }
  split; [rewrite fire_status, Hk; reflexivity|].
  split; [|apply fire_triggers_other; congruence].
  unfold fire. rewrite Hk. cbn [runTask].
  rewrite commit_same; [exact Hp|].
  apply depsChanged_false. cbn. auto.
Qed.

Lemma advance_locked_idle t s :
  wf s -> detectionStatus s = locked -> countdownInProgress s = false ->
  detectionStatus (advance t s) = locked /\
  countdownInProgress (advance t s) = false /\
  triggers (advance t s) = triggers s.
Proof.
  revert s. apply (advance_ind t (fun s s' =>
    wf s -> detectionStatus s = locked -> countdownInProgress s = false ->
    detectionStatus s' = locked /\ countdownInProgress s' = false /\
    triggers s' = triggers s)).
  - intros s _ _ Hl Hp. cbn. auto.
  - intros s tm s' Hn IH Hwf Hl Hp.
    destruct (nextDue_Some t s tm Hn) as (He & Hin & _).
    destruct (fire_locked_idle tm s Hwf Hl Hp Hin) as (L1 & P1 & T1).
    destruct IH as (L & P & T); auto using wf_fire.
    repeat split; congruence.
Qed.

(** X8. One capture per lock.  Once a countdown is over and the state is
    still locked, no further countdown starts and no capture is triggered for
    as long as the state stays locked and nothing is toggled, whatever ticks
    and detections follow and however long it lasts: the countdown starts on
    the change to locked, not on the state being locked. *)
Theorem X8_one_capture_per_lock (s : State) (tr : list (Z * Event)) (t : Z) :
  wf s -> detectionStatus s = locked -> countdownInProgress s = false ->
  quietRun tr s = true ->
  let s' := advance t (run tr s) in
  triggers s' = triggers s /\ countdownInProgress s' = false /\
  detectionStatus s' = locked.
Proof.
  intros Hwf Hl Hp Hq. cbv zeta.
  assert (R : wf (run tr s) /\ detectionStatus (run tr s) = locked /\
              countdownInProgress (run tr s) = false /\
              triggers (run tr s) = triggers s).
  { revert s Hwf Hl Hp Hq. induction tr as [|[t0 e] tr IH]; intros s Hwf Hl Hp Hq.
    - cbn. auto.
    - cbn [run]. cbn [quietRun] in Hq. apply andb_prop in Hq. destruct Hq as [Q1 Q2].
      destruct (advance_locked_idle t0 s Hwf Hl Hp) as (L1 & P1 & T1).
      pose proof (wf_advance t0 s Hwf) as W1.
      destruct (react_quiet_locked e (advance t0 s) W1 L1 P1 Q1) as (L2 & P2).
      destruct (IH (react e (advance t0 s))) as (W & L & P & T); auto using wf_react.
      split; [exact W|]. rewrite T, react_triggers. auto. }
  destruct R as (W & L & P & T).
  destruct (advance_locked_idle t (run tr s) W L P) as (L1 & P1 & T1).
  repeat split; congruence.
Qed.

Lemma X8_one_capture_per_lock_witness :
  triggers (advance 60000 (run stillLocked afterCapture)) = triggers afterCapture /\
  triggers afterCapture = [(3500, CaptureTrigger)].
Proof.
  split; [|vm_compute; reflexivity].
  apply (X8_one_capture_per_lock afterCapture stillLocked 60000).
  - apply wf_advance, wf_run, wf_mounted.
  - vm_compute. reflexivity.
  - vm_compute. reflexivity.
  - vm_compute. reflexivity.
Defined.

(** X9.  The smoothing never overshoots.  Along any number of detection
    responses with the same zoom target, the zoom moves toward the target
    step by step, never away from it and never past it. *)
Theorem X9_zoom_no_overshoot (c : Closure) (r : IrisDetectionResult) (s : State)
    (n : nat) :
  let target := match success r, box r with
                | true, Some b => newZoom b
                | _, _ => 1%Q
                end in
  let z k := zoom (Nat.iter k (analyzeFrame_resume c (Resolved r)) s) in
  ((zoom s <= target)%Q -> (zoom s <= z n)%Q /\ (z n <= z (S n) <= target)%Q) /\
  ((target <= zoom s)%Q -> (z n <= zoom s)%Q /\ (target <= z (S n) <= z n)%Q).
Proof.
  intros target z.
  assert (Hs : forall k, z (S k) = (z k + (target - z k) * (2 # 10))%Q).
  { intros k. unfold z. rewrite Nat.iter_succ, analyzeFrame_resume_zoom.
    reflexivity. }
  assert (Up : (zoom s <= target)%Q -> forall k, (zoom s <= z k <= target)%Q).
  { intros H k. induction k as [|k IH]; [unfold z; cbn; lra|].
    rewrite (Hs k). lra. }
  assert (Dn : (target <= zoom s)%Q -> forall k, (target <= z k <= zoom s)%Q).
  { intros H k. induction k as [|k IH]; [unfold z; cbn; lra|].
    rewrite (Hs k). lra. }
  split; intros H.
  - pose proof (Up H n). rewrite (Hs n). split; lra.
  - pose proof (Dn H n). rewrite (Hs n). split; lra.
Qed.

Lemma X9_zoom_no_overshoot_witness :
  (1 <= zoom (Nat.iter 3 (analyzeFrame_resume (currentClosure demo)
                            (Resolved {| success := true;
                                         box := Some (boxOfWidth (3 # 10) (1 # 10)) |})) demo)
   <= zoom (Nat.iter 4 (analyzeFrame_resume (currentClosure demo)
                          (Resolved {| success := true;
                                         box := Some (boxOfWidth (3 # 10) (1 # 10)) |})) demo))%Q.
Proof.
  destruct (X9_zoom_no_overshoot (currentClosure demo)
              {| success := true; box := Some (boxOfWidth (3 # 10) (1 # 10)) |}
              demo 3) as [H _].
  cbv zeta in H. cbn [success box] in H.
  destruct H as (A & B & _).
  - assert (N : (newZoom (boxOfWidth (3 # 10) (1 # 10)) == 4)%Q)
      by (vm_compute; reflexivity).
    rewrite N. cbn. lra.
  - split; [exact A|exact B].
Defined.

Lemma clamp_mono x y lo hi :
  (lo <= hi)%Q -> (x <= y)%Q -> (clamp x lo hi <= clamp y lo hi)%Q.
Proof.
  intros Hb Hxy. unfold clamp.
  destruct (Qle_bool lo x) eqn:E1; destruct (Qle_bool lo y) eqn:E2;
    destruct (Qle_bool x hi) eqn:E3; destruct (Qle_bool y hi) eqn:E4;
    repeat match goal with
    | H : Qle_bool _ _ = true |- _ => apply Qle_bool_iff in H
    | H : Qle_bool ?a ?b = false |- _ =>
        assert (~ (a <= b)%Q) by (intro X; apply Qle_bool_iff in X; congruence);
        clear H
    end; lra.
Qed.

Lemma clamp_spec x lo hi :
  (lo <= hi)%Q ->
  (lo <= clamp x lo hi <= hi)%Q /\
  ((x <= lo)%Q -> (clamp x lo hi == lo)%Q) /\
  ((hi <= x)%Q -> (clamp x lo hi == hi)%Q).
Proof.
  intros Hb. unfold clamp.
  destruct (Qle_bool lo x) eqn:E1; destruct (Qle_bool x hi) eqn:E3;
    repeat match goal with
    | H : Qle_bool _ _ = true |- _ => apply Qle_bool_iff in H
    | H : Qle_bool ?a ?b = false |- _ =>
        assert (~ (a <= b)%Q) by (intro X; apply Qle_bool_iff in X; congruence);
        clear H
    end; repeat split; intros; lra.
Qed.

Lemma quotient_spec (w : Q) :
  ~ (w == 0)%Q -> ((40 # 100) / w * w == 40 # 100)%Q.
Proof. intros Hw. field. exact Hw. Qed.

(** X10.  The zoom target over the boxes of width other than zero.  It
    never grows with the width of the box; a box at least 0.40 wide asks for
    no zoom and a box at most 0.10 wide for the full zoom 4; a box whose
    [xMax] is below its [xMin] asks for none (the quotient is negative). *)
Theorem X10_zoom_target_shape (b b' : Box) :
  ((0 < boxWidth b)%Q -> (boxWidth b <= boxWidth b')%Q ->
   (newZoom b' <= newZoom b)%Q) /\
  ((40 # 100 <= boxWidth b)%Q -> (newZoom b == 1)%Q) /\
  ((0 < boxWidth b <= 10 # 100)%Q -> (newZoom b == 4)%Q) /\
  ((boxWidth b < 0)%Q -> (newZoom b == 1)%Q).
Proof.
  unfold boxWidth.
  assert (Hc : forall x : Box, (0 < xMax x - xMin x)%Q ->
             (newZoom x == clamp ((40 # 100) / (xMax x - xMin x)) 1 4)%Q)
    by (intros; apply newZoom_clamp; assumption).
  assert (B14 : (1 <= 4)%Q) by lra.
  repeat split.
  - intros Hw Hle. rewrite (Hc b Hw), (Hc b') by lra.
    apply clamp_mono; [lra|].
    set (w := (xMax b - xMin b)%Q) in *. set (w' := (xMax b' - xMin b')%Q) in *.
    pose proof (quotient_spec w) as Q1. pose proof (quotient_spec w') as Q2.
    assert (N1 : ~ (w == 0)%Q) by lra. assert (N2 : ~ (w' == 0)%Q) by lra.
    specialize (Q1 N1). specialize (Q2 N2).
    set (q := ((40 # 100) / w)%Q) in *. set (q' := ((40 # 100) / w')%Q) in *.
    assert (P1 : (0 < q)%Q) by nra. assert (P2 : (0 < q')%Q) by nra.
    nra.
  - intros Hw. rewrite (Hc b) by lra.
    apply (clamp_spec _ 1 4 B14).
    set (w := (xMax b - xMin b)%Q) in *.
    pose proof (quotient_spec w) as Q1. assert (N1 : ~ (w == 0)%Q) by lra.
    specialize (Q1 N1). set (q := ((40 # 100) / w)%Q) in *. nra.
  - intros Hw. rewrite (Hc b) by lra.
    apply (clamp_spec _ 1 4 B14).
    set (w := (xMax b - xMin b)%Q) in *.
    pose proof (quotient_spec w) as Q1. assert (N1 : ~ (w == 0)%Q) by lra.
    specialize (Q1 N1). set (q := ((40 # 100) / w)%Q) in *. nra.
  - intros Hw. unfold newZoom.
    destruct (Qeq_bool (xMax b - xMin b) 0) eqn:E.
    { apply Qeq_bool_iff in E. lra. }
    set (w := (xMax b - xMin b)%Q) in *.
    pose proof (quotient_spec w) as Q1. assert (N1 : ~ (w == 0)%Q) by lra.
    specialize (Q1 N1). unfold targetBoxWidth.
    set (q := ((40 # 100) / w)%Q) in *.
    assert (Hq : (q < 0)%Q) by nra.
    destruct (Math_max_spec 1 q) as (A1 & A2 & A3).
    destruct (Math_min_spec (Math_max 1 q) 4) as (M1 & M2 & M3).
    destruct A3, M3; lra.
Qed.

Lemma X10_zoom_target_shape_witness :
  (newZoom (boxOfWidth (3 # 10) (2 # 10)) <= newZoom (boxOfWidth (3 # 10) (1 # 10)))%Q
  /\ (newZoom (boxOfWidth (3 # 10) (5 # 10)) == 1)%Q
  /\ (newZoom (boxOfWidth (3 # 10) (- (1 # 10))) == 1)%Q.
Proof.
  split; [|split].
  - apply (proj1 (X10_zoom_target_shape (boxOfWidth (3 # 10) (1 # 10))
                    (boxOfWidth (3 # 10) (2 # 10))));
      unfold boxWidth; cbn; lra.
  - apply (proj1 (proj2 (X10_zoom_target_shape (boxOfWidth (3 # 10) (5 # 10))
                           (boxOfWidth (3 # 10) (5 # 10))))).
    unfold boxWidth; cbn; lra.
  - apply (proj2 (proj2 (proj2 (X10_zoom_target_shape
                                  (boxOfWidth (3 # 10) (- (1 # 10)))
                                  (boxOfWidth (3 # 10) (1 # 10)))))).
    unfold boxWidth; cbn; lra.
Defined.

Lemma hasBox_ext s s' : detectionResult s' = detectionResult s -> hasBox s -> hasBox s'.
Proof. unfold hasBox. intros ->. auto. Qed.

Lemma boxInv_weaken s s' :
  detectionResult s' = detectionResult s ->
  (detectionStatus s' = detectionStatus s \/ detectionStatus s' = idle) ->
  (forall tm, In tm (timeouts s') -> task tm = SteadyLock -> In tm (timeouts s)) ->
  boxInv s -> boxInv s'.
Proof.
  intros Hr Hs Ht [I1 I2]. split.
  - intros Hn. apply (hasBox_ext s); auto. apply I1. destruct Hs; congruence.
  - intros tm Hin Hk. apply (hasBox_ext s); auto. apply (I2 tm); auto.
Qed.

Lemma commit_steady prev s tm :
  In tm (timeouts (commit prev s)) -> task tm = SteadyLock -> In tm (timeouts s).
Proof.
  destruct (depsChanged prev s) eqn:Ed; [|rewrite commit_same; auto].
  destruct (commit_changed prev s Ed) as (s3 & C & ->).
  destruct C as (Ct & _).
  assert (H3 : In tm (timeouts s3) -> In tm (timeouts s)).
  { rewrite Ct. intros H. apply filter_In in H. tauto. }
  intros Hin Hk. apply H3. clear H3 Ct.
  destruct (status_eqb (detectionStatus s3) locked) eqn:Es.
  - apply status_eqb_eq in Es.
    destruct (autoCaptureEnabled s3) eqn:Ee; [destruct (countdownInProgress s3) eqn:Ep|].
    + rewrite countdownEffect_skip in Hin; auto; congruence.
    + destruct (countdownEffect_start s3 Es Ee Ep) as (T & _).
      rewrite T in Hin. apply in_app_or in Hin. destruct Hin as [Hin|Hin]; auto.
      cbn in Hin. destruct Hin as [<-|[<-|[]]]; discriminate Hk.
    + rewrite countdownEffect_skip in Hin; auto; congruence.
  - assert (Hn : detectionStatus s3 <> locked).
    { intros H. rewrite H in Es. discriminate. }
    destruct (countdownInProgress s3) eqn:Ep.
    + destruct (countdownEffect_cancel s3 Hn Ep) as (T & _).
      rewrite T in Hin. apply filter_In in Hin. tauto.
    + rewrite countdownEffect_skip in Hin; auto; congruence.
Qed.

Lemma boxInv_commit prev s : boxInv s -> boxInv (commit prev s).
Proof.
  destruct (commit_view prev s) as (Vs & _ & _ & _ & _ & _ & _ & _ & _ & Vr).
  apply boxInv_weaken; auto. intros tm. apply commit_steady.
Qed.

Lemma clearedSteady_tasks s tm :
  Shape s -> In tm (clearedSteady s) -> task tm <> SteadyLock.
Proof.
  unfold clearedSteady.
  intros [A B|h d A B C D|T0 h1 h2 A B C D E F G|T0 h1 h2 A B C D E F G];
    rewrite B.
  - destruct (steadyTimeoutRef s); cbn; tauto.
  - rewrite C. cbn. rewrite Nat.eqb_refl. cbn. tauto.
  - intros Hin.
    assert (H : In tm [timer1 h1 T0; timer2 h2 T0]).
    { destruct (steadyTimeoutRef s); [apply filter_In in Hin; tauto|exact Hin]. }
    cbn in H. destruct H as [<-|[<-|[]]]; discriminate.
  - intros Hin.
    assert (H : In tm [timer2 h2 T0]).
    { destruct (steadyTimeoutRef s); [apply filter_In in Hin; tauto|exact Hin]. }
    cbn in H. destruct H as [<-|[]]; discriminate.
Qed.

Lemma analyzeFrame_begin_box c d s : boxInv s -> boxInv (analyzeFrame_begin c d s).
Proof.
  unfold analyzeFrame_begin.
  destruct (isAnalyzingRef s || negb (cl_enabled c)); [auto|]. cbn.
  destruct (context2d s) eqn:Ec; cbn; [destruct d|];
    apply boxInv_weaken; cbn; auto.
Qed.

Lemma analyzeFrame_resume_box c a s :
  Shape s -> boxInv s -> boxInv (analyzeFrame_resume c a s).
Proof.
  intros HS HI. unfold analyzeFrame_resume, analyzeFrame_finally.
  destruct a as [r|]; [|apply (boxInv_weaken s); cbn; auto].
  assert (M : boxInv (set_isAnalyzingRef false (analyzeFrame_missed s))).
  { unfold analyzeFrame_missed. rewrite clearSteady_eq. cbn. split; cbn.
    - congruence.
    - intros tm Hin Hk. exfalso.
      apply (clearedSteady_tasks s tm HS); assumption. }
  destruct (success r) eqn:Es; [destruct (box r) as [b|] eqn:Eb|]; try exact M.
  assert (H : hasBox (set_isAnalyzingRef false (analyzeFrame_found c r b s))).
  { exists r, b. split; [|auto].
    unfold analyzeFrame_found. cbv zeta.
    rewrite if_tracking. rewrite (clearSteady_eq (set_zoom _ _)). cbn.
    destruct (countdownInProgress s); reflexivity. }
  split; intros; exact H.
Qed.

Lemma handleToggleAutoCapture_box s :
  Shape s -> boxInv s -> boxInv (handleToggleAutoCapture s).
Proof.
  intros HS HI. unfold handleToggleAutoCapture. cbv zeta.
  rewrite initAudioContext_eq. cbn.
  destruct (autoCaptureEnabled s); cbn.
  - rewrite resetAutoCaptureState_eq. cbn. rewrite intervalCleanup_eq. cbn.
    split; cbn; [congruence|].
    intros tm Hin Hk. exfalso. apply filter_In in Hin. destruct Hin as [Hin _].
    apply (clearedSteady_tasks s tm HS); assumption.
  - apply (boxInv_weaken s); cbn; auto.
Qed.

Lemma boxInv_react e s : wf s -> boxInv s -> boxInv (react e s).
Proof.
  intros [[HS _ _ _ _ _] _] HI. unfold react. apply boxInv_commit.
  destruct e as [d|a|]; cbn [handler].
  - destruct (intervals s) as [|[h c] l]; [exact HI|].
    apply analyzeFrame_begin_box, HI.
  - destruct (inflight s) as [|c l]; [exact HI|].
    apply analyzeFrame_resume_box.
    + apply (Shape_ext s); auto.
    + apply (boxInv_weaken s); auto.
  - apply handleToggleAutoCapture_box; assumption.
Qed.

Lemma boxInv_fire tm s : In tm (timeouts s) -> boxInv s -> boxInv (fire tm s).
Proof.
  intros Hin [I1 I2]. unfold fire. apply boxInv_commit.
  set (s0 := set_now _ _).
  assert (T0 : forall x, In x (timeouts s0) -> In x (timeouts s)).
  { intros x Hx. cbn in Hx. apply filter_In in Hx. tauto. }
  assert (R0 : detectionResult s0 = detectionResult s) by reflexivity.
  destruct (task tm) eqn:Ek; cbn [runTask].
  - assert (H : hasBox s) by (apply (I2 tm); assumption).
    split; intros; apply (hasBox_ext s); auto.
  - rewrite playBeep_eq. apply (boxInv_weaken s); cbn; auto. split; assumption.
  - rewrite playBeep_eq, handleCapture_eq. cbn.
    destruct (_ && _); apply (boxInv_weaken s); cbn; auto; split; assumption.
Qed.

Lemma boxInv_advance t s : wf s -> boxInv s -> boxInv (advance t s).
Proof.
  revert s. apply (advance_ind t (fun s s' => wf s -> boxInv s -> boxInv s')).
  - intros s _ _ H. apply (boxInv_weaken s); cbn; auto.
  - intros s tm s' Hn IH Hwf HI.
    destruct (nextDue_Some t s tm Hn) as (He & Hin & _).
    apply IH; [apply wf_fire; assumption|apply boxInv_fire; assumption].
Qed.

Lemma boxInv_run tr : forall s, wf s -> boxInv s -> boxInv (run tr s).
Proof.
  induction tr as [|[t e] tr IH]; intros s Hwf HI; [exact HI|].
  cbn [run]. apply IH.
  - apply wf_react, wf_advance, Hwf.
  - apply boxInv_react; [apply wf_advance, Hwf|apply boxInv_advance; assumption].
Qed.

(** X11. Along every run the detection state and the cached result agree:
    whenever the state is tracking or locked, the cached result is a
    successful one with a box.  So the overlay is drawn exactly when the
    state is not idle, in both camera orientations, with the lock styling
    exactly in state locked. *)
Theorem X11_overlay_follows_status (tr : list (Z * Event)) (t : Z)
    (tracks : list Track) (v : Z * Z) (ctx audio : bool) (f : FacingMode) :
  let s := advance t (run tr (mounted tracks v ctx audio)) in
  (overlayOf f s = None <-> detectionStatus s = idle) /\
  (forall o, overlayOf f s = Some o ->
     (isLocked o = true <-> detectionStatus s = locked)).
Proof.
  intros s.
  assert (HI : boxInv s).
  { apply boxInv_advance; [apply wf_run, wf_mounted|].
    apply boxInv_run; [apply wf_mounted|].
    split; cbn; [congruence|tauto]. }
  destruct HI as [I1 _]. unfold overlayOf, EyeBoundingBoxOverlay.
  split.
  - split.
    + intros H. destruct (detectionStatus s) eqn:Es; [reflexivity| |];
        (destruct I1 as (r & b & Hr & Hs & Hb); [congruence|];
         rewrite Hr, Hs, Hb in H; discriminate H).
    + intros ->. destruct (detectionResult s); reflexivity.
  - intros o. destruct (detectionResult s) as [r|]; [|discriminate].
    destruct (negb _ && _); [|discriminate].
    destruct (box r); [|discriminate].
    intros [= <-]. cbn. apply status_eqb_eq.
Qed.

Lemma X11_overlay_follows_status_witness :
  overlayOf user (advance 60000 (run staleRun demo)) <> None.
Proof.
  intros H.
  destruct (X11_overlay_follows_status staleRun 60000
              [{| trackId := 7; ended := false |}] (1920, 1080) true true user)
    as [[A _] _].
  specialize (A H). vm_compute in A. discriminate A.
Defined.

Lemma updateAt_same i f l x :
  nth_error l i = Some x -> nth_error (updateAt i f l) i = Some (f x).
Proof.
  revert i. induction l as [|y l IH]; intros [|i]; cbn; try discriminate.
  - intros [= ->]. reflexivity.
  - apply IH.
Qed.

Lemma updateAt_other i j f l :
  i <> j -> nth_error (updateAt i f l) j = nth_error l j.
Proof.
  revert i j. induction l as [|y l IH]; intros [|i] [|j] H; cbn; auto;
    congruence.
Qed.

Lemma updateAt_nth i j f l y :
  nth_error (updateAt i f l) j = Some y ->
  (i = j /\ exists x, nth_error l i = Some x /\ y = f x) \/
  (i <> j /\ nth_error l j = Some y).
Proof.
  intros H. destruct (Nat.eq_dec i j) as [<-|Hn].
  - left. split; [reflexivity|].
    destruct (nth_error l i) as [x|] eqn:E.
    + rewrite (updateAt_same i f l x E) in H. injection H as <-. eauto.
    + exfalso. apply nth_error_None in E.
      assert (Hl : (i < length (updateAt i f l))%nat).
      { apply nth_error_Some. congruence. }
      rewrite updateAt_length in Hl. lia.
  - right. rewrite updateAt_other in H by assumption. auto.
Qed.

Lemma updateAt_Forall (P : Instance -> Prop) i f l :
  Forall P l -> (forall x, nth_error l i = Some x -> P (f x)) ->
  Forall P (updateAt i f l).
Proof.
  intros Hl Hf. apply Forall_forall. intros y Hy.
  apply In_nth_error in Hy. destruct Hy as [j Hj].
  destruct (updateAt_nth i j f l y Hj) as [(-> & x & Hx & ->)|(_ & Hx)].
  - apply Hf, Hx.
  - apply nth_error_In in Hx. rewrite Forall_forall in Hl. apply Hl, Hx.
Qed.

Lemma allEnded_stop st : allEnded (option_map (map stopped) st) = true.
Proof. apply allEnded_stopped. Qed.

Lemma camInv_startCamera_resolved i tracks c :
  unsettled i c = true -> camInv c -> camInv (startCamera_resolved i tracks c).
Proof.
  unfold unsettled, startCamera_resolved.
  destruct (nth_error (cam_effects c) i) as [x|] eqn:Ex; [|discriminate].
  intros _ [R L H Rd]. cbn [isMounted].
  destruct (isMounted x) eqn:Em; cbn [negb].
  - (* the run is still mounted *)
    destruct (L i x Ex Em) as [Li La].
    constructor; cbn.
    + apply updateAt_Forall; auto. intros y _ Hm. cbn in Hm. congruence.
    + intros j y Hj Hm. rewrite updateAt_length.
      destruct (updateAt_nth _ _ _ _ _ Hj) as [(<- & _)|(_ & Hy)]; auto.
      apply (L j y); assumption.
    + intros j [= <-]. eexists. split; [apply updateAt_same; eassumption|].
      cbn. split; [discriminate|auto].
    + intros _ _. exists i. eexists. split; [apply updateAt_same; eassumption|].
      cbn. repeat split; auto. discriminate.
  - (* the run was cleaned up while the promise was pending *)
    constructor; cbn.
    + apply updateAt_Forall; auto. intros y _ _.
      apply (allEnded_stop (Some tracks)).
    + intros j y Hj Hm. rewrite updateAt_length.
      destruct (updateAt_nth _ _ _ _ _ Hj) as [(<- & z & _ & ->)|(_ & Hy)].
      * cbn in Hm. congruence.
      * apply (L j y); assumption.
    + intros j Hj. destruct (H j Hj) as (y & Hy & Hs & Hst).
      destruct (Nat.eq_dec i j) as [<-|Hn].
      * eexists. split; [apply updateAt_same; eassumption|]. cbn.
        split; [discriminate|congruence].
      * exists y. rewrite updateAt_other by assumption. auto.
    + intros Hr Ha. destruct (Rd Hr Ha) as (j & y & Hy & Hm & Hs & Hst).
      exists j, y. rewrite updateAt_other; [auto|]. congruence.
Qed.

Lemma camInv_startCamera_rejected i c :
  camInv c -> camInv (startCamera_rejected i c).
Proof.
  unfold startCamera_rejected.
  destruct (nth_error (cam_effects c) i) as [x|] eqn:Ex; [|auto].
  intros [R L H Rd].
  assert (Same : forall j y,
            nth_error (updateAt i (fun _ => {| isMounted := isMounted x;
                                               mediaStream := mediaStream x;
                                               settled := true |})
                         (cam_effects c)) j = Some y ->
            exists y', nth_error (cam_effects c) j = Some y' /\
                       isMounted y = isMounted y' /\
                       mediaStream y = mediaStream y').
  { intros j y Hj.
    destruct (updateAt_nth _ _ _ _ _ Hj) as [(<- & z & _ & ->)|(_ & Hy)]; eauto. }
  assert (Back : forall j y', nth_error (cam_effects c) j = Some y' ->
            exists y,
              nth_error (updateAt i (fun _ => {| isMounted := isMounted x;
                                                 mediaStream := mediaStream x;
                                                 settled := true |})
                           (cam_effects c)) j = Some y /\
              isMounted y = isMounted y' /\ mediaStream y = mediaStream y').
  { intros j y' Hj. destruct (Nat.eq_dec i j) as [<-|Hn].
    - eexists. split; [apply updateAt_same; eassumption|].
      cbn. split; congruence.
    - exists y'. rewrite updateAt_other by assumption. auto. }
  constructor; cbn.
  - apply updateAt_Forall; auto. intros y Hy. unfold released. cbn.
    rewrite Forall_forall in R. apply (R x). eapply nth_error_In, Ex.
  - intros j y Hj Hm. rewrite updateAt_length.
    destruct (Same j y Hj) as (y' & Hy' & E1 & E2).
    apply (L j y'); congruence.
  - intros j Hj. destruct (H j Hj) as (y' & Hy' & Hs & Hst).
    destruct (Back j y' Hy') as (y & Hy & E1 & E2).
    exists y. split; [exact Hy|]. rewrite E1, E2. auto.
  - intros Hr Ha. destruct (Rd Hr Ha) as (j & y' & Hy' & Hm & Hs & Hst).
    destruct (Back j y' Hy') as (y & Hy & E1 & E2).
    exists j, y. rewrite E1, E2. auto.
Qed.

Lemma camInv_onloadedmetadata c : camInv c -> camInv (onloadedmetadata c).
Proof.
  unfold onloadedmetadata.
  destruct (cam_onloadedmetadata c) as [i|] eqn:Eh; [|auto].
  destruct (nth_error (cam_effects c) i) as [x|] eqn:Ex; [|auto].
  destruct (isMounted x) eqn:Em; [|auto].
  intros [R L H Rd]. constructor; cbn; auto.
  - intros j Hj. apply (H j). congruence.
  - intros _ _. destruct (H i Eh) as (y & Hy & Hs & Hst).
    assert (y = x) by congruence. subst y.
    destruct (Hst Em). exists i, x. auto.
Qed.

Lemma camInv0_cameraCleanup c : camInv c -> camInv0 (cameraCleanup c).
Proof.
  intros [R L H Rd]. unfold cameraCleanup.
  set (k := pred (length (cam_effects c))).
  constructor; cbn.
  - apply updateAt_Forall; auto. intros y _ _. cbn. apply allEnded_stop.
  - intros j y Hj.
    destruct (updateAt_nth _ _ _ _ _ Hj) as [(<- & z & _ & ->)|(Hn & Hy)];
      [reflexivity|].
    destruct (isMounted y) eqn:Em; [|reflexivity].
    destruct (L j y Hy Em) as [Hl _]. subst k. rewrite <- Hl in Hn. cbn in Hn.
    congruence.
  - intros j Hj. destruct (H j Hj) as (y & Hy & Hs & _).
    destruct (Nat.eq_dec k j) as [<-|Hn].
    + eexists. split; [apply updateAt_same; eassumption|]. cbn.
      destruct (mediaStream y); [discriminate|congruence].
    + exists y. rewrite updateAt_other by assumption. auto.
Qed.

Lemma camInv_startCamera c :
  camInv0 c -> cam_alive c = true -> camInv (startCamera c).
Proof.
  intros [R N H] Ha. constructor; cbn.
  - apply Forall_app. split; [exact R|]. constructor; [|constructor].
    unfold released. cbn. discriminate.
  - intros j y Hj Hm. rewrite length_app. cbn.
    destruct (Nat.lt_ge_cases j (length (cam_effects c))) as [Hlt|Hge].
    + rewrite nth_error_app1 in Hj by assumption.
      rewrite (N j y Hj) in Hm. discriminate.
    + assert (Hl : (j < length (cam_effects c ++
                       [{| isMounted := true; mediaStream := None;
                           settled := false |}]))%nat).
      { apply nth_error_Some. congruence. }
      rewrite length_app in Hl. cbn in Hl. split; [lia|exact Ha].
  - intros j Hj. destruct (H j Hj) as (y & Hy & Hs).
    exists y. split; [|split; [exact Hs|]].
    + rewrite nth_error_app1; [exact Hy|]. apply nth_error_Some. congruence.
    + intros Hm. rewrite (N j y Hy) in Hm. discriminate.
  - discriminate.
Qed.

Lemma camInv_cameraUnmount c : camInv c -> camInv (cameraUnmount c).
Proof.
  intros HI. destruct (camInv0_cameraCleanup c HI) as [R N H].
  unfold cameraUnmount. cbv zeta. constructor; cbn [cam_effects cam_alive
    cam_onloadedmetadata cam_cameraReady cam_stream cam_srcObject].
  - exact R.
  - intros j y Hj Hm. rewrite (N j y Hj) in Hm. discriminate.
  - intros j Hj. destruct (H j Hj) as (y & Hy & Hs).
    exists y. split; [exact Hy|split; [exact Hs|]].
    intros Hm. rewrite (N j y Hy) in Hm. discriminate.
  - discriminate.
Qed.

Lemma camInv_camReact e c : camInv c -> camInv (camReact e c).
Proof.
  intros HI. destruct e as [i tracks|i| | | |]; cbn [camReact].
  - destruct (unsettled i c) eqn:E; [|exact HI].
    apply camInv_startCamera_resolved; assumption.
  - destruct (unsettled i c); [|exact HI].
    apply camInv_startCamera_rejected; assumption.
  - apply camInv_onloadedmetadata, HI.
  - destruct (cam_alive c) eqn:Ea; [|exact HI].
    unfold handleToggleCamera, cameraEffect. apply camInv_startCamera.
    + apply camInv0_cameraCleanup. destruct HI as [R L H Rd].
      constructor; cbn; auto.
    + exact Ea.
  - destruct (cam_alive c) eqn:Ea; [|exact HI].
    unfold cameraEffect. apply camInv_startCamera.
    + apply camInv0_cameraCleanup, HI.
    + exact Ea.
  - destruct (cam_alive c); [|exact HI]. apply camInv_cameraUnmount, HI.
Qed.

Lemma camInv_camMounted : camInv camMounted.
Proof.
  apply camInv_startCamera; [|reflexivity].
  constructor; cbn.
  - constructor.
  - intros [|i] x; discriminate.
  - discriminate.
Qed.

Lemma camInv_camRun tr : forall c, camInv c -> camInv (camRun tr c).
Proof.
  induction tr as [|e tr IH]; intros c HI; [exact HI|].
  cbn. apply IH, camInv_camReact, HI.
Qed.
Lemma camReact_alive e c : cam_alive c = false -> cam_alive (camReact e c) = false.
Proof.
  intros Ha. destruct e as [i tracks|i| | | |]; cbn [camReact]; rewrite ?Ha; auto.
  - destruct (unsettled i c); [|exact Ha]. unfold startCamera_resolved.
    destruct (nth_error _ i); [|exact Ha].
    cbn. destruct (isMounted _); exact Ha.
  - destruct (unsettled i c); [|exact Ha]. unfold startCamera_rejected.
    destruct (nth_error _ i); exact Ha.
  - unfold onloadedmetadata. destruct (cam_onloadedmetadata c); [|exact Ha].
    destruct (nth_error _ _); [|exact Ha]. destruct (isMounted _); exact Ha.
Qed.

Lemma camRun_alive tr : forall c, cam_alive c = false -> cam_alive (camRun tr c) = false.
Proof.
  induction tr as [|e tr IH]; intros c Ha; [exact Ha|].
  cbn. apply IH, camReact_alive, Ha.
Qed.

Lemma camRun_unmounted tr :
  forall c, In Unmount tr -> cam_alive (camRun tr c) = false.
Proof.
  induction tr as [|e tr IH]; intros c Hin; [destruct Hin|].
  cbn. destruct Hin as [->|Hin]; [|apply IH, Hin].
  apply camRun_alive. cbn. destruct (cam_alive c) eqn:Ea; [reflexivity|exact Ea].
Qed.

(** X13. No camera is left on.  Whatever happens to the camera side and in
    whatever order (the permission granted early, late or never, the camera
    switched meanwhile, the screen left): every media stream obtained by a
    run of the camera effect that has been cleaned up has all its tracks
    stopped, at most the latest run is not cleaned up, and once the screen
    has been left every stream ever obtained is stopped. *)
Theorem X13_camera_released (tr : list CamEvent) :
  let c := camRun tr camMounted in
  (forall i x tracks, nth_error (cam_effects c) i = Some x ->
     mediaStream x = Some tracks ->
     isMounted x = false \/ In Unmount tr ->
     forallb ended tracks = true) /\
  (forall i x, nth_error (cam_effects c) i = Some x -> isMounted x = true ->
     S i = length (cam_effects c)).
Proof.
  intros c.
  assert (HI : camInv c) by apply camInv_camRun, camInv_camMounted.
  destruct HI as [R L _ _]. split.
  - intros i x tracks Hx Hs Hc.
    assert (Hm : isMounted x = false).
    { destruct Hc as [Hm|Hu]; [exact Hm|].
      destruct (isMounted x) eqn:Em; [|reflexivity].
      destruct (L i x Hx Em) as [_ Ha].
      subst c. rewrite camRun_unmounted in Ha by assumption. discriminate. }
    rewrite Forall_forall in R. apply nth_error_In in Hx.
    specialize (R x Hx Hm). rewrite Hs in R. exact R.
  - intros i x Hx Hm. apply (L i x Hx Hm).
Qed.

Lemma X13_camera_released_witness :
  nth_error (cam_effects
               (camRun [Unmount; Granted 0 [{| trackId := 7; ended := false |}]]
                  camMounted)) 0
  = Some {| isMounted := false;
            mediaStream := Some [{| trackId := 7; ended := true |}];
            settled := true |} /\
  forallb ended [{| trackId := 7; ended := true |}] = true.
Proof.
  split; [reflexivity|].
  destruct (X13_camera_released
              [Unmount; Granted 0 [{| trackId := 7; ended := false |}]])
    as [A _].
  apply (A 0%nat {| isMounted := false;
                    mediaStream := Some [{| trackId := 7; ended := true |}];
                    settled := true |}).
  - reflexivity.
  - reflexivity.
  - left. reflexivity.
Defined.

(** X14. When the camera is reported ready on the mounted screen, [stream]
    and the video element hold the media stream of the latest run of the
    camera effect, which is not cleaned up: never the stream of an earlier
    run, which is stopped. *)
Theorem X14_ready_means_current (tr : list CamEvent) :
  let c := camRun tr camMounted in
  cam_cameraReady c = true -> cam_alive c = true ->
  exists i x tracks,
    nth_error (cam_effects c) i = Some x /\ S i = length (cam_effects c) /\
    isMounted x = true /\ mediaStream x = Some tracks /\
    cam_stream c = Some i /\ cam_srcObject c = Some i.
Proof.
  intros c Hr Ha.
  assert (HI : camInv c) by apply camInv_camRun, camInv_camMounted.
  destruct HI as [_ L _ Rd].
  destruct (Rd Hr Ha) as (i & x & Hx & Hm & Hs & Hst & Hsrc).
  destruct (mediaStream x) as [tracks|] eqn:Et; [|congruence].
  exists i, x, tracks. destruct (L i x Hx Hm) as [Hl _].
  repeat split; assumption.
Qed.

Lemma X14_ready_means_current_witness :
  exists i x tracks,
    nth_error (cam_effects
                 (camRun [Granted 0 [{| trackId := 7; ended := false |}];
                          ToggleCamera; LoadedMetadata;
                          Granted 1 [{| trackId := 8; ended := false |}];
                          LoadedMetadata] camMounted)) i = Some x /\
    mediaStream x = Some tracks /\ i = 1%nat.
Proof.
  destruct (X14_ready_means_current
              [Granted 0 [{| trackId := 7; ended := false |}];
               ToggleCamera; LoadedMetadata;
               Granted 1 [{| trackId := 8; ended := false |}];
               LoadedMetadata])
    as (i & x & tracks & A & B & _ & D & _); [reflexivity|reflexivity|].
  exists i, x, tracks. split; [exact A|]. split; [exact D|].
  cbn in B. lia.
Defined.

Lemma camReact_after_unmount e c :
  camInv c -> cam_alive c = false ->
  cam_stream (camReact e c) = cam_stream c /\
  cam_cameraReady (camReact e c) = cam_cameraReady c /\
  cam_error (camReact e c) = cam_error c /\
  cam_srcObject (camReact e c) = cam_srcObject c.
Proof.
  intros [_ L _ _] Ha.
  assert (N : forall i x, nth_error (cam_effects c) i = Some x ->
              isMounted x = false).
  { intros i x Hx. destruct (isMounted x) eqn:Em; [|reflexivity].
    destruct (L i x Hx Em). congruence. }
  destruct e as [i tracks|i| | | |]; cbn [camReact]; rewrite ?Ha; auto.
  - destruct (unsettled i c); [|auto]. unfold startCamera_resolved.
    destruct (nth_error _ i) as [x|] eqn:Ex; [|auto].
    cbn. rewrite (N i x Ex). cbn. auto.
  - destruct (unsettled i c); [|auto]. unfold startCamera_rejected.
    destruct (nth_error _ i) as [x|] eqn:Ex; [|auto].
    cbn. rewrite (N i x Ex). auto.
  - unfold onloadedmetadata. destruct (cam_onloadedmetadata c) as [i|]; [|auto].
    destruct (nth_error _ i) as [x|] eqn:Ex; [|auto].
    rewrite (N i x Ex). auto.
Qed.

(** X15. Nothing is set on a screen that has been left: after the unmount,
    a permission granted or denied late and a late metadata event change
    neither [stream] nor [cameraReady] nor the error shown nor the video
    element. *)
Theorem X15_no_update_after_unmount (before after : list CamEvent) :
  let c := camRun before camMounted in
  cam_alive c = false ->
  cam_stream (camRun after c) = cam_stream c /\
  cam_cameraReady (camRun after c) = cam_cameraReady c /\
  cam_error (camRun after c) = cam_error c /\
  cam_srcObject (camRun after c) = cam_srcObject c.
Proof.
  intros c Ha.
  assert (HI : camInv c) by apply camInv_camRun, camInv_camMounted.
  clearbody c. revert c Ha HI.
  induction after as [|e tr IH]; intros c Ha HI; [cbn; auto|].
  cbn [camRun fold_left].
  destruct (camReact_after_unmount e c HI Ha) as (A & B & C & D).
  destruct (IH (camReact e c)) as (A' & B' & C' & D').
  - apply camReact_alive, Ha.
  - apply camInv_camReact, HI.
  - unfold camRun in *. repeat split; congruence.
Qed.

Lemma X15_no_update_after_unmount_witness :
  cam_stream (camRun [Granted 0 [{| trackId := 7; ended := false |}];
                      LoadedMetadata; Denied 0]
                (camRun [Unmount] camMounted)) = None /\
  cam_cameraReady (camRun [Granted 0 [{| trackId := 7; ended := false |}];
                           LoadedMetadata; Denied 0]
                     (camRun [Unmount] camMounted)) = false.
Proof.
  destruct (X15_no_update_after_unmount [Unmount]
              [Granted 0 [{| trackId := 7; ended := false |}];
               LoadedMetadata; Denied 0]) as (A & B & _); [reflexivity|].
  split; [exact A|exact B].
Defined.

Lemma handleToggleAutoCapture_reset s :
  autoCaptureEnabled s = true ->
  let s' := handleToggleAutoCapture s in
  zoom s' = 1%Q /\ detectionResult s' = None /\
  analysisIntervalRef s' = None /\ steadyTimeoutRef s' = None /\
  countdownTimeoutsRef s' = [] /\
  inflight s' = inflight s /\ isAnalyzingRef s' = isAnalyzingRef s.
Proof.
  intros He. unfold handleToggleAutoCapture. cbv zeta.
  rewrite initAudioContext_eq. cbn. rewrite He. cbn.
  rewrite resetAutoCaptureState_eq. cbn. rewrite intervalCleanup_eq. cbn.
  repeat split; reflexivity.
Qed.

(** X16. Switching auto-capture off resets the whole feature at once, in
    whatever state it is: the state is idle, the cached result and with it
    the overlay are gone, the zoom is back to exactly 1, no countdown is shown
    or in progress, and no timeout and no sampling interval is left.  The
    detection call that may be in flight is not withdrawn: it stays awaited
    and the in-flight flag stays as it was. *)
Theorem X16_switch_off_resets (s : State) (f : FacingMode) :
  wf s -> samplingOk s -> autoCaptureEnabled s = true ->
  let s' := react ToggleAutoCapture s in
  autoCaptureEnabled s' = false /\ detectionStatus s' = idle /\
  detectionResult s' = None /\ overlayOf f s' = None /\ zoom s' = 1%Q /\
  countdown s' = None /\ countdownInProgress s' = false /\
  timeouts s' = [] /\ intervals s' = [] /\
  inflight s' = inflight s /\ isAnalyzingRef s' = isAnalyzingRef s.
Proof.
  intros Hwf Hs He s'.
  pose proof Hwf as [[HS _ _ _ _ _] _].
  destruct (handleToggleAutoCapture_off s HS He) as (T & C & P & St & E & _).
  destruct (handleToggleAutoCapture_reset s He) as (Z1 & R & _ & _ & _ & I & A).
  destruct (handleToggleAutoCapture_wf0 s Hwf) as ([HS1 _ _ _ _ _] & _).
  assert (Ed : depsChanged s (handleToggleAutoCapture s) = true).
  { destruct (depsChanged s (handleToggleAutoCapture s)) eqn:Ed; [reflexivity|].
    apply depsChanged_false in Ed. destruct Ed as (Ed & _). congruence. }
  destruct (commit_cancel s (handleToggleAutoCapture s) HS1 Ed)
    as (T' & C' & P' & _); [congruence|].
  destruct (commit_view s (handleToggleAutoCapture s))
    as (V1 & V2 & _ & _ & V5 & V6 & V7 & _ & _ & V10).
  pose proof (samplingOk_react ToggleAutoCapture s Hs) as Hs'.
  fold s' in Hs'. unfold samplingOk in Hs'.
  subst s'. unfold react in *. cbn [handler] in *.
  assert (E' : autoCaptureEnabled (commit s (handleToggleAutoCapture s)) = false)
    by congruence.
  rewrite E' in Hs'. cbn in Hs'.
  assert (O : overlayOf f (commit s (handleToggleAutoCapture s)) = None).
  { unfold overlayOf, EyeBoundingBoxOverlay. rewrite V10, R. reflexivity. }
  rewrite P in T', C'.
  repeat split; try congruence.
Qed.

Lemma X16_switch_off_resets_witness :
  zoom (advance 3000 (run lockedRun demo)) <> 1%Q /\
  zoom (react ToggleAutoCapture (advance 3000 (run lockedRun demo))) = 1%Q /\
  timeouts (react ToggleAutoCapture (advance 3000 (run lockedRun demo))) = [] /\
  isAnalyzingRef (react ToggleAutoCapture (advance 3000 (run lockedRun demo)))
  = true.
Proof.
  split; [vm_compute; discriminate|].
  destruct (X16_switch_off_resets (advance 3000 (run lockedRun demo)) user)
    as (_ & _ & _ & _ & Z1 & _ & _ & T & _ & _ & A).
  - apply wf_advance, wf_run, wf_mounted.
  - apply samplingOk_advance, samplingOk_run. reflexivity.
  - vm_compute. reflexivity.
  - split; [exact Z1|]. split; [exact T|]. rewrite A. vm_compute. reflexivity.
Defined.

Lemma storeItems_pos n : existsb (Z.eqb n) storeItems = true -> 0 < n.
Proof.
  unfold storeItems. cbn. rewrite !orb_true_iff, !Z.eqb_eq. lia.
Qed.

Lemma removeAt_In i l x : In x (removeAt i l) -> In x l.
Proof.
  revert i. induction l as [|y l IH]; intros [|i]; cbn; auto.
  intros [H|H]; eauto.
Qed.

Lemma removeAt_Forall (P : option AppScreen -> Prop) i l :
  Forall P l -> Forall P (removeAt i l).
Proof.
  rewrite !Forall_forall. intros H x Hx. apply H, (removeAt_In i), Hx.
Qed.

Ltac app_fields :=
  match goal with
  | H : appInv _ |- _ =>
      let O := fresh "O" in let C := fresh "C" in let R := fresh "R" in
      let I := fresh "I" in let Hh := fresh "Hh" in let Cr := fresh "Cr" in
      let T := fresh "T" in let F := fresh "F" in let J := fresh "J" in
      destruct H as [O C R I Hh Cr T F J]
  end.

Ltac app_close :=
  constructor; unfold showHeaderAndNav, flowDestination in *; cbn in *; intros;
  try match goal with E : screen _ = _ |- _ => rewrite E in *; cbn in * end;
  try congruence; auto; try lia;
  try (split; congruence).

Lemma appInv_goToCapture a : appInv a -> appInv (goToCapture a).
Proof. intros HI. app_fields. app_close. Qed.

Lemma appInv_setProcessing l a :
  appInv a -> Forall flowDestination l -> appInv (setProcessing l a).
Proof. intros HI Hl. app_fields. constructor; cbn; auto. Qed.

Ltac app_on Es :=
  match goal with
  | |- context [screen_eqb (screen ?a) ?s] =>
      destruct (screen a) eqn:Es; cbn [screen_eqb];
      try match goal with HI : appInv _ |- _ => exact HI end
  end.

Lemma appInv_appReact e a : appInv a -> appInv (appReact e a).
Proof.
  intros HI.
  destruct e; unfold appReact; cbv zeta.
  - (* onboarding done *)
    app_on Es. apply appInv_goToCapture, HI.
  - (* an image handed over *)
    app_fields. app_close.
  - (* the crop is confirmed *)
    app_on Es. app_fields. rewrite Es in *. app_close.
    apply Forall_app. split; [exact J|]. constructor; [exact F|constructor].
  - (* retake *)
    destruct (_ || _); [apply appInv_goToCapture|]; exact HI.
  - (* a processing run is done *)
    destruct (nth_error (processing a) i) as [captured|] eqn:En; [|exact HI].
    assert (Hc : flowDestination captured).
    { destruct HI as [_ _ _ _ _ _ _ _ J]. rewrite Forall_forall in J.
      apply J. eapply nth_error_In, En. }
    assert (HI' : appInv (setProcessing (removeAt i (processing a)) a)).
    { apply appInv_setProcessing; [exact HI|].
      apply removeAt_Forall. destruct HI. assumption. }
    revert HI'. generalize (setProcessing (removeAt i (processing a)) a).
    intros a0 HI'. clear HI En. app_fields.
    unfold handleProcessingComplete. cbv zeta.
    destruct Hc as [-> | ->]; app_close.
  - (* a processing run has failed *)
    destruct (nth_error (processing a) i) as [captured|] eqn:En; [|exact HI].
    apply appInv_goToCapture, appInv_setProcessing; [exact HI|].
    apply removeAt_Forall. destruct HI. assumption.
  - (* on to the editor *)
    app_on Es. app_fields. rewrite Es in *. app_close.
  - (* export *)
    app_on Es. app_fields. rewrite Es in *. unfold handleExport.
    destruct (Z.ltb_spec 0 (credits a)); [|app_close].
    constructor; cbn in *; intros; try congruence; auto; try lia.
    destruct H0 as [<-|Hin]; [cbn; auto|auto].
  - (* back from the editor *)
    app_on Es. apply appInv_goToCapture, HI.
  - (* done *)
    app_on Es. apply appInv_goToCapture, HI.
  - (* back to the editor *)
    app_on Es. app_fields. rewrite Es in *. app_close.
  - (* watch face *)
    app_on Es. app_fields. rewrite Es in *. app_close.
  - (* iridology *)
    app_on Es. app_fields. rewrite Es in *. app_close.
  - (* back from the watch face *)
    app_on Es. app_fields. rewrite Es in *. app_close.
  - (* purchase *)
    destruct (existsb (Z.eqb n) storeItems) eqn:En; [|exact HI].
    pose proof (storeItems_pos n En).
    app_on Es. app_fields. rewrite Es in *. app_close.
  - (* the iridology capture flow *)
    app_on Es. unfold startIridologyCaptureFlow.
    app_fields. rewrite Es in *. app_close.
  - (* a tab *)
    destruct (showHeaderAndNav a && existsb (screen_eqb tab) navItems) eqn:Eg;
      [|exact HI].
    apply andb_prop in Eg. destruct Eg as [_ Et].
    app_fields.
    destruct tab; cbn in Et; try discriminate Et; app_close.
Qed.

Lemma appInv_appInit : appInv appInit.
Proof.
  constructor; unfold flowDestination; cbn; intros;
    try congruence; try discriminate; try lia; auto; tauto.
Qed.

Lemma appInv_appRun tr : forall a, appInv a -> appInv (appRun tr a).
Proof.
  induction tr as [|e tr IH]; intros a HI; [exact HI|].
  cbn. apply IH, appInv_appReact, HI.
Qed.

(** X17. The non-null assertions of [App] hold.  Along every sequence of
    user actions and screen callbacks: the crop screen is shown with an
    original image, the processing screen with an original image and crop
    data, the result screen and the editor with a before image and an
    enhanced image; and every history item has its original and its enhanced
    image. *)
Theorem X17_assertions_hold (tr : list AppEvent) :
  let a := appRun tr appInit in
  (screen a = CROP -> originalImage a <> None) /\
  (screen a = PROCESSING -> originalImage a <> None /\ cropData a <> None) /\
  (screen a = ENHANCE_RESULT ->
     croppedImage a <> None /\ enhancedImage a <> None) /\
  (screen a = EDIT -> croppedImage a <> None /\ enhancedImage a <> None) /\
  (forall it, In it (history a) -> original it <> None /\ enhanced it <> None).
Proof.
  intros a.
  assert (HI : appInv a) by apply appInv_appRun, appInv_appInit.
  destruct HI as [O C R I _ _ _ _].
  split; [|split; [|split; [|split]]].
  - intros E. apply O. rewrite E. reflexivity.
  - intros E. split; [apply O; rewrite E; reflexivity|apply C, E].
  - intros E. apply R. rewrite E. reflexivity.
  - intros E. apply R. rewrite E. reflexivity.
  - exact I.
Qed.

Lemma X17_assertions_hold_witness :
  (forall it, In it (history (appRun exportFlow appInit)) ->
     original it <> None /\ enhanced it <> None) /\
  history (appRun exportFlow appInit)
  = [{| itemId := 1700000000000; thumbnail := "edited"%string;
        original := Some "before"%string; enhanced := Some "after"%string |}].
Proof.
  split; [|reflexivity].
  destruct (X17_assertions_hold exportFlow) as (_ & _ & _ & _ & H). exact H.
Defined.

(** X18. The export screen and the watch-face screen always have something
    to show: while either is on screen the history is not empty, so that
    [history[0]] is an item. *)
Theorem X18_export_has_item (tr : list AppEvent) :
  let a := appRun tr appInit in
  screen a = EXPORT \/ screen a = WATCHFACE ->
  exists it rest, history a = it :: rest /\
                  original it <> None /\ enhanced it <> None.
Proof.
  intros a Hs.
  assert (HI : appInv a) by apply appInv_appRun, appInv_appInit.
  destruct HI as [_ _ _ I Hh _ _ _].
  assert (Hn : history a <> []).
  { apply Hh. destruct Hs as [-> | ->]; reflexivity. }
  destruct (history a) as [|it rest] eqn:E; [congruence|].
  exists it, rest. split; [reflexivity|]. apply I. left. reflexivity.
Qed.

Lemma X18_export_has_item_witness :
  exists it rest, history (appRun (exportFlow ++ [ExportWatchFace]) appInit)
                  = it :: rest /\
                  original it <> None /\ enhanced it <> None.
Proof.
  apply (X18_export_has_item (exportFlow ++ [ExportWatchFace])).
  right. reflexivity.
Defined.

(** X19. Credits.  The balance is never negative; an event either spends
    exactly one credit, from a positive balance, and adds exactly one history
    item (an export), or leaves the history alone and does not lower the
    balance; an export with no credit left adds nothing and opens the
    store. *)
Theorem X19_credits (tr : list AppEvent) (e : AppEvent) :
  let a := appRun tr appInit in
  let a' := appReact e a in
  0 <= credits a /\
  ((0 < credits a /\ credits a' = credits a - 1 /\
    exists it, history a' = it :: history a /\ screen a' = EXPORT) \/
   (history a' = history a /\ credits a <= credits a')) /\
  (forall url d, e = EditExport url d -> screen a = EDIT -> credits a = 0 ->
     a' = setActiveTab STORE (setScreen STORE a)).
Proof.
  intros a a'.
  assert (HI : appInv a) by apply appInv_appRun, appInv_appInit.
  destruct HI as [_ _ _ _ _ Cr _ _].
  split; [exact Cr|]. split.
  - subst a'. clearbody a.
    destruct e; unfold appReact; cbv zeta;
      try (destruct (screen_eqb (screen a) _); [|right; split; [reflexivity|lia]]);
      try (right; split; [reflexivity|cbn; lia]).
    + destruct (_ || _); right; split; try reflexivity; cbn; lia.
    + destruct (nth_error (processing a) i) as [captured|];
        [|right; split; [reflexivity|lia]].
      unfold handleProcessingComplete. cbv zeta.
      destruct captured; right; split; try reflexivity; cbn; lia.
    + destruct (nth_error (processing a) i);
        right; split; try reflexivity; cbn; lia.
    + unfold handleExport. destruct (Z.ltb_spec 0 (credits a)).
      * left. split; [assumption|]. split; [reflexivity|]. eexists.
        split; reflexivity.
      * right. split; [reflexivity|cbn; lia].
    + destruct (existsb (Z.eqb n) storeItems) eqn:En;
        [|right; split; [reflexivity|lia]].
      pose proof (storeItems_pos n En).
      destruct (screen_eqb (screen a) STORE); right; split; try reflexivity;
        cbn; lia.
    + destruct (_ && _); right; split; try reflexivity; cbn; lia.
  - intros url d -> Hs Hc. subst a'. unfold appReact. cbv zeta.
    rewrite Hs. cbn [screen_eqb]. unfold handleExport. rewrite Hc. reflexivity.
Qed.

Lemma X19_credits_witness :
  credits (appReact (EditExport "edited"%string 1700000000000)
             (appRun [OnboardingComplete; CapturedImage "photo"%string;
                      CropContinue {| centerX := 1 # 2; centerY := 1 # 2;
                                      radius := 1 # 4 |};
                      ProcessingComplete 0 "before"%string "after"%string;
                      EnhanceContinue] appInit)) = 2.
Proof.
  destruct (X19_credits
              [OnboardingComplete; CapturedImage "photo"%string;
               CropContinue {| centerX := 1 # 2; centerY := 1 # 2;
                               radius := 1 # 4 |};
               ProcessingComplete 0 "before"%string "after"%string;
               EnhanceContinue]
              (EditExport "edited"%string 1700000000000))
    as (_ & [(_ & H & _)|(H & _)] & _).
  - rewrite H. reflexivity.
  - discriminate H.
Defined.

(** X20. The highlighted tab is the screen shown: whenever the header and
    the navigation bar are rendered, [activeTab] equals [screen]. *)
Theorem X20_active_tab (tr : list AppEvent) :
  let a := appRun tr appInit in
  showHeaderAndNav a = true ->
  activeTab a = screen a /\ In (screen a) navItems.
Proof.
  intros a Hs.
  assert (HI : appInv a) by apply appInv_appRun, appInv_appInit.
  destruct HI as [_ _ _ _ _ _ T _].
  split; [apply T, Hs|].
  unfold showHeaderAndNav in Hs. unfold navItems.
  destruct (screen a); try discriminate Hs; cbn; tauto.
Qed.

Lemma X20_active_tab_witness :
  activeTab (appRun [OnboardingComplete; NavTab GALLERY; NavTab EDIT] appInit)
  = GALLERY.
Proof.
  destruct (X20_active_tab [OnboardingComplete; NavTab GALLERY; NavTab EDIT])
    as [H _]; [reflexivity|].
  rewrite H. reflexivity.
Defined.

(** X21.  The iridology capture flow.  A pending destination is always the
    iridology screen, and so is the destination every processing run still
    out has captured, if it has one.  When a processing run completes, also
    late, the before image and the enhanced image are stored; if a
    destination was pending when the run started, the screen and the tab
    become the iridology screen and nothing is left pending; if none was, the
    result screen is shown and the destination pending now, set since the
    run started, stays pending.  A tab press that is accepted drops the
    pending destination. *)
Theorem X21_capture_flow (tr : list AppEvent) :
  let a := appRun tr appInit in
  (forall d, postCaptureDestination a = Some d -> d = IRIDOLOGY) /\
  (forall i captured b e, nth_error (processing a) i = Some captured ->
     let a' := appReact (ProcessingComplete i b e) a in
     croppedImage a' = Some b /\ enhancedImage a' = Some e /\
     match captured with
     | Some _ =>
         screen a' = IRIDOLOGY /\ activeTab a' = IRIDOLOGY /\
         postCaptureDestination a' = None
     | None =>
         screen a' = ENHANCE_RESULT /\
         postCaptureDestination a' = postCaptureDestination a
     end) /\
  (forall tab, postCaptureDestination (appReact (NavTab tab) a) = None
               \/ appReact (NavTab tab) a = a).
Proof.
  intros a.
  assert (HI : appInv a) by apply appInv_appRun, appInv_appInit.
  destruct HI as [_ _ _ _ _ _ _ F J].
  split; [|split].
  - intros d Hd. destruct F as [F|F]; congruence.
  - intros i captured b e En a'. subst a'. unfold appReact. rewrite En.
    assert (Hc : flowDestination captured).
    { rewrite Forall_forall in J. apply J. eapply nth_error_In, En. }
    unfold handleProcessingComplete. cbv zeta.
    destruct Hc as [-> | ->]; cbn; auto.
  - intros tab. unfold appReact.
    destruct (_ && _); [left; reflexivity|right; reflexivity].
Qed.

Lemma X21_capture_flow_witness :
  screen (appReact (ProcessingComplete 0 "before"%string "after"%string)
            (appRun iridologyFlow appInit)) = IRIDOLOGY /\
  postCaptureDestination
    (appReact (ProcessingComplete 0 "before"%string "after"%string)
       (appRun iridologyFlow appInit)) = None.
Proof.
  destruct (X21_capture_flow iridologyFlow) as (_ & H & _).
  destruct (H 0%nat (Some IRIDOLOGY) "before"%string "after"%string)
    as (_ & _ & A & _ & B); [reflexivity|].
  split; [exact A|exact B].
Defined.

Lemma commit_start_log prev s :
  depsChanged prev s = true ->
  detectionStatus s = locked -> autoCaptureEnabled s = true ->
  countdownInProgress s = false ->
  log (commit prev s)
  = (if audioContextRef s then (now s, Beep 440 100) :: log s else log s).
Proof.
  intros Hd Hl He Hp.
  destruct (commit_changed prev s Hd) as (s3 & C & E). rewrite E.
  destruct C as (Ct & Cr & Cn & Cst & Cen & Crd & Cip & Csr & Ccd & Cin & Can
                 & Cz & Cnow & Clog & Cau & Cstr & Cdr).
  destruct (countdownEffect_start s3)
    as (Kt & Kr & Kn & Kcd & Kip & Klog & _); try congruence.
  rewrite Klog, Cau, Cnow, Clog. reflexivity.
Qed.

Lemma fire_steady_tone s h d :
  wf s -> timeouts s = [steadyTimer h d] ->
  detectionStatus s <> locked -> autoCaptureEnabled s = true ->
  audioContextRef s = true ->
  log (fire (steadyTimer h d) s) = (Z.max (now s) d, Beep 440 100) :: log s /\
  audioContextRef (fire (steadyTimer h d) s) = true.
Proof.
  intros [[HS _ _ _ _ _] _] Ht Hl He Ha.
  destruct (shape_steady s h d HS Ht) as (Hp & Hr & _).
  unfold fire. cbn [task steadyTimer handle due runTask].
  set (x := set_detectionStatus locked _).
  destruct (commit_audio s x) as [A1 _]. rewrite A1.
  rewrite (commit_start_log s x); subst x; cbn; auto.
  - rewrite Ha. auto.
  - destruct (depsChanged _ _) eqn:Ed; auto.
    apply depsChanged_false in Ed. cbn in Ed. destruct Ed as (_ & _ & Ed).
    congruence.
Qed.

Lemma fire_timer1_tone s h1 T0 :
  audioContextRef s = true ->
  log (fire (timer1 h1 T0) s)
  = (Z.max (now s) (T0 + 1000), Beep 440 100) :: log s /\
  audioContextRef (fire (timer1 h1 T0) s) = true.
Proof.
  intros Ha. unfold fire. cbn [task timer1 handle due runTask].
  rewrite commit_same.
  2:{ apply depsChanged_false. rewrite playBeep_eq. cbn. auto. }
  rewrite playBeep_eq. cbn. rewrite Ha. auto.
Qed.

Lemma fire_timer2_tone s h2 T0 :
  audioContextRef s = true ->
  beeps (fire (timer2 h2 T0) s)
  = (Z.max (now s) (T0 + 2000), Beep 880 200) :: beeps s.
Proof.
  intros Ha. rewrite fire_CountdownFire by reflexivity.
  rewrite handleCapture_eq, playBeep_eq. unfold beeps. cbn. rewrite Ha.
  destruct (cameraReady s && context2d s); cbn; rewrite ?beeps_stopLog; reflexivity.
Qed.

Lemma tones_react T0 base bb s e :
  Counting T0 base s -> tonesAt T0 bb s -> quiet e s = true ->
  tonesAt T0 bb (react e s).
Proof.
  intros HC [Ha Hb] Hq. pose proof (Counting_in_progress _ _ _ HC) as Hp.
  destruct HC as (Hwf & _ & _ & _).
  assert (He : e <> ToggleAutoCapture) by (intros ->; discriminate).
  assert (Hl : detectionStatus (react e s) = locked).
  { destruct e; try congruence; apply status_eqb_eq; exact Hq. }
  pose proof Hwf as [_ Hlk]. destruct (Hlk Hp) as (Lk & En).
  destruct (handler_controls e s He) as (A & B & C & D & E & F & G & _).
  destruct (handler_rig e s He) as (R1 & _).
  assert (R : react e s = handler e s).
  { unfold react in *. rewrite commit_status in Hl.
    apply commit_same, depsChanged_false. repeat split; congruence. }
  rewrite R. unfold tonesAt, beeps in *. rewrite R1, F, G. auto.
Qed.

Lemma tones_advance T0 base bb s t :
  Counting T0 base s -> tonesAt T0 bb s -> t < T0 + 2000 ->
  tonesAt T0 bb (advance t s).
Proof.
  intros (Hwf & _ & Hn & H) [Ha Hb] Ht. unfold tonesAt, beeps in *.
  destruct H as [((h1 & h2 & Hq) & Hc & Hlt)|((h2 & Hq) & Hc & Hlt)].
  - rewrite advance_step, (nextDue_two t s h1 h2 T0 Hq).
    destruct (Z.ltb_spec (now s) (T0 + 1000)); [|lia].
    destruct (Z.leb_spec (T0 + 1000) t).
    + destruct (fire_timer1 s h1 h2 T0 Hwf Hq) as (F1 & F2 & F3 & F4).
      destruct (fire_timer1_tone s h1 T0 Ha) as (L1 & A1).
      rewrite advance_step, (nextDue_single t _ _ F1). cbn [due timer2].
      destruct (Z.leb_spec (T0 + 2000) t); [lia|].
      cbn. rewrite A1, L1, F4. split; [reflexivity|].
      destruct (Z.ltb_spec (Z.max (Z.max (now s) (T0 + 1000)) t) (T0 + 1000)); [lia|].
      cbn. rewrite Hb. cbn. f_equal. f_equal. lia.
    + cbn. split; [exact Ha|].
      destruct (Z.ltb_spec (Z.max (now s) t) (T0 + 1000)); [exact Hb|lia].
  - rewrite advance_step, (nextDue_single t s _ Hq). cbn [due timer2].
    destruct (Z.leb_spec (T0 + 2000) t); [lia|].
    cbn. split; [exact Ha|].
    destruct (Z.ltb_spec (now s) (T0 + 1000)); [lia|].
    destruct (Z.ltb_spec (Z.max (now s) t) (T0 + 1000)); [lia|exact Hb].
Qed.

Lemma tones_run T0 base bb tr : forall s hi,
  Counting T0 base s -> tonesAt T0 bb s -> now s <= hi ->
  during T0 hi (T0 + 2000) tr -> quietRun tr s = true ->
  tonesAt T0 bb (run tr s).
Proof.
  induction tr as [|[t e] tr IH]; intros s hi HC HT Hn Hd Hq;
    cbn [run quietRun] in *; auto.
  apply andb_true_iff in Hq. destruct Hq as (Q1 & Q2).
  inversion Hd as [|x l (D1 & D2 & D3) Dl]; subst. cbn [fst] in *.
  destruct (Counting_advance T0 base s t HC D3) as (HA & Hnow).
  pose proof (tones_advance T0 base bb s t HC HT D3) as HTA.
  apply (IH _ hi); auto.
  - apply Counting_react; auto.
  - apply (tones_react T0 base); auto.
  - rewrite react_now by (intros ->; discriminate). rewrite Hnow. lia.
Qed.

Lemma tones_finish T0 base bb s :
  Counting T0 base s -> tonesAt T0 bb s ->
  beeps (advance (T0 + 2000) s)
  = (T0 + 2000, Beep 880 200) :: (T0 + 1000, Beep 440 100) :: bb.
Proof.
  intros (Hwf & _ & Hn & H) [Ha Hb].
  assert (Fin : forall x h2, timeouts x = [timer2 h2 T0] -> now x < T0 + 2000 ->
            audioContextRef x = true ->
            beeps x = (T0 + 1000, Beep 440 100) :: bb ->
            beeps (advance (T0 + 2000) x)
            = (T0 + 2000, Beep 880 200) :: (T0 + 1000, Beep 440 100) :: bb).
  { intros x h2 Hq Hx Hax Hbx.
    rewrite advance_step, (nextDue_single _ x _ Hq). cbn [due timer2].
    rewrite Z.leb_refl.
    destruct (fire_timer2 x h2 T0 Hq) as (F1 & _).
    rewrite advance_idle by assumption.
    pose proof (fire_timer2_tone x h2 T0 Hax) as L.
    unfold beeps in *. cbn. rewrite L, Hbx. f_equal. f_equal. lia. }
  destruct H as [((h1 & h2 & Hq) & Hc & Hlt)|((h2 & Hq) & Hc & Hlt)].
  - rewrite advance_step, (nextDue_two _ s h1 h2 T0 Hq).
    destruct (Z.leb_spec (T0 + 1000) (T0 + 2000)); [|lia].
    destruct (fire_timer1 s h1 h2 T0 Hwf Hq) as (F1 & F2 & F3 & F4).
    destruct (fire_timer1_tone s h1 T0 Ha) as (L1 & A1).
    apply (Fin _ h2 F1); [lia|exact A1|].
    unfold beeps in *. rewrite L1. cbn. rewrite Hb.
    destruct (Z.ltb_spec (now s) (T0 + 1000)); [|lia].
    cbn. f_equal. f_equal. lia.
  - apply (Fin _ h2 Hq); [lia|exact Ha|].
    rewrite Hb. destruct (Z.ltb_spec (now s) (T0 + 1000)); [lia|reflexivity].
Qed.

(** X22. The tones of the countdown.  With an audio context, a countdown
    that starts at [T0] and is not disturbed emits the tone of 440 Hz for
    100 ms at [T0] and again at [T0 + 1000], and the tone of 880 Hz for
    200 ms at [T0 + 2000], when the capture is triggered; nothing else is
    played meanwhile. *)
Theorem X22_countdown_tones (s : State) (h : nat) (T0 : Z)
    (tr : list (Z * Event)) (t : Z) :
  wf s -> timeouts s = [steadyTimer h T0] ->
  detectionStatus s <> locked -> autoCaptureEnabled s = true -> now s <= T0 ->
  audioContextRef s = true ->
  during T0 t (T0 + 2000) tr -> quietRun tr s = true -> T0 <= t ->
  let obs := advance t (run tr s) in
  (t < T0 + 1000 -> beeps obs = (T0, Beep 440 100) :: beeps s) /\
  (T0 + 1000 <= t < T0 + 2000 ->
   beeps obs = (T0 + 1000, Beep 440 100) :: (T0, Beep 440 100) :: beeps s) /\
  (t = T0 + 2000 ->
   beeps obs = (T0 + 2000, Beep 880 200) :: (T0 + 1000, Beep 440 100)
               :: (T0, Beep 440 100) :: beeps s).
Proof.
  intros Hwf Hq Hl He Hn Ha Hd Hqr Ht obs.
  destruct (Counting_enter s h T0 Hwf Hq Hl He Hn) as (HC & Hnow & Hadv).
  destruct (fire_steady_tone s h T0 Hwf Hq Hl He Ha) as (L0 & A0).
  replace (Z.max (now s) T0) with T0 in L0 by lia.
  assert (HT : tonesAt T0 ((T0, Beep 440 100) :: beeps s)
                 (fire (steadyTimer h T0) s)).
  { split; [exact A0|]. rewrite Hnow.
    destruct (Z.ltb_spec T0 (T0 + 1000)); [|lia].
    unfold beeps. rewrite L0. reflexivity. }
  destruct (run_enter s _ T0 t tr t Hadv Hd Ht) as (E1 & E2).
  subst obs. rewrite E1. rewrite E2 in Hqr.
  destruct (run_Counting T0 (triggers s) tr _ t HC ltac:(lia) Hd Hqr) as (HR & HnR).
  pose proof (tones_run T0 (triggers s) _ tr _ t HC HT ltac:(lia) Hd Hqr) as HTR.
  split; [|split].
  - intros Hlt.
    destruct (Counting_advance T0 _ _ t HR ltac:(lia)) as (_ & Hm).
    destruct (tones_advance T0 _ _ _ t HR HTR ltac:(lia)) as (_ & Hb).
    rewrite Hb, Hm. destruct (Z.ltb_spec (Z.max (now (run tr (fire (steadyTimer h T0) s))) t) (T0 + 1000)); [reflexivity|lia].
  - intros Hlt.
    destruct (Counting_advance T0 _ _ t HR ltac:(lia)) as (_ & Hm).
    destruct (tones_advance T0 _ _ _ t HR HTR ltac:(lia)) as (_ & Hb).
    rewrite Hb, Hm. destruct (Z.ltb_spec (Z.max (now (run tr (fire (steadyTimer h T0) s))) t) (T0 + 1000)); [lia|reflexivity].
  - intros ->. apply (tones_finish T0 (triggers s)); assumption.
Qed.

Lemma X22_countdown_tones_witness :
  beeps (advance 3500 (run quietTrace trackingState))
  = (1500 + 2000, Beep 880 200) :: (1500 + 1000, Beep 440 100)
    :: (1500, Beep 440 100) :: beeps trackingState.
Proof.
  assert (Hwf : wf trackingState) by apply wf_run, wf_mounted.
  assert (H1 : timeouts trackingState = [steadyTimer 2 1500])
    by (vm_compute; reflexivity).
  assert (H2 : detectionStatus trackingState <> locked)
    by (vm_compute; discriminate).
  assert (H3 : autoCaptureEnabled trackingState = true)
    by (vm_compute; reflexivity).
  assert (H4 : now trackingState <= 1500) by (vm_compute; discriminate).
  assert (H5 : audioContextRef trackingState = true)
    by (vm_compute; reflexivity).
  assert (D : during 1500 3500 (1500 + 2000) quietTrace).
  { repeat constructor; cbn [fst]; lia. }
  assert (Q : quietRun quietTrace trackingState = true)
    by (vm_compute; reflexivity).
  destruct (X22_countdown_tones trackingState 2%nat 1500 quietTrace 3500
              Hwf H1 H2 H3 H4 H5 D Q ltac:(lia)) as (_ & _ & C).
  exact (C eq_refl).
Defined.
